(** * rtsf.p_testcase: token scanning, call parsing, evaluation and case loading

    A shallow embedding of [rtsf/p_testcase.py].  Python text is modelled by
    [string] restricted to 7-bit ASCII (for code points above 127 the model
    answers: not a word character, not white space); Python values by the
    tagged type [value]; dictionaries by insertion-ordered association lists;
    exceptions by the sum type [result]; the process-wide registries by an
    explicit loader state. *)

From Stdlib Require Import ZArith List Bool Ascii String Lia DecimalString.
Import ListNotations.
Open Scope string_scope.

(* ================================================================== *)
(** ** Text primitives (the [str] methods the module relies on) *)

Module Text.

Definition in_range (lo hi : nat) (c : ascii) : bool :=
  let n := nat_of_ascii c in (lo <=? n)%nat && (n <=? hi)%nat.

(** [\w] of the [re] module, on ASCII text: letters, digits, underscore. *)
Definition is_word (c : ascii) : bool :=
  in_range 48 57 c || in_range 65 90 c || in_range 97 122 c || Ascii.eqb c "_".

(** [str.isspace] on ASCII: TAB..CR, FS..US and the blank. *)
Definition is_space (c : ascii) : bool :=
  in_range 9 13 c || in_range 28 32 c.

Fixpoint all_chars (p : ascii -> bool) (s : string) : bool :=
  match s with
  | EmptyString => true
  | String c s' => p c && all_chars p s'
  end.

Fixpoint has_char (c : ascii) (s : string) : bool :=
  match s with
  | EmptyString => false
  | String d s' => Ascii.eqb d c || has_char c s'
  end.

Fixpoint count_char (c : ascii) (s : string) : nat :=
  match s with
  | EmptyString => 0
  | String d s' => (if Ascii.eqb d c then 1 else 0) + count_char c s'
  end.

Definition head_is (p : ascii -> bool) (s : string) : bool :=
  match s with
  | EmptyString => false
  | String c _ => p c
  end.

Fixpoint lstrip (s : string) : string :=
  match s with
  | EmptyString => EmptyString
  | String c s' => if is_space c then lstrip s' else s
  end.

Fixpoint rstrip (s : string) : string :=
  match s with
  | EmptyString => EmptyString
  | String c s' =>
      let r := rstrip s' in
      if is_space c && (r =? EmptyString) then EmptyString else String c r
  end.

(** [s.strip()] *)
Definition strip (s : string) : string := rstrip (lstrip s).

(** [sub in s] *)
Fixpoint contains (sub s : string) : bool :=
  prefix sub s ||
  match s with
  | EmptyString => false
  | String _ s' => contains sub s'
  end.

(** [s.split(sep)] for a one-character separator. *)
Fixpoint split_on (sep : ascii) (s : string) : list string :=
  match s with
  | EmptyString => [EmptyString]
  | String c s' =>
      let r := split_on sep s' in
      if Ascii.eqb c sep then EmptyString :: r
      else match r with
           | h :: t => String c h :: t
           | [] => [String c EmptyString]
           end
  end.

(** [s.replace(old, new)]: every leftmost non-overlapping occurrence; with an
    empty [old] Python inserts [new] before every character and at the end.
    [skip] counts the characters of an occurrence still to be dropped. *)
Fixpoint replace_nonempty (old new s : string) (skip : nat) : string :=
  match s with
  | EmptyString => EmptyString
  | String c s' =>
      match skip with
      | S k => replace_nonempty old new s' k
      | O =>
          if prefix old s
          then new ++ replace_nonempty old new s' (String.length old - 1)
          else String c (replace_nonempty old new s' 0)
      end
  end.

Fixpoint intersperse (new s : string) : string :=
  match s with
  | EmptyString => new
  | String c s' => new ++ String c (intersperse new s')
  end.

Definition replace_all (old new s : string) : string :=
  match old with
  | EmptyString => intersperse new s
  | _ => replace_nonempty old new s 0
  end.

(** [s.replace(old, new, 1)]: the first occurrence only. *)
Fixpoint replace_first (old new s : string) : string :=
  if prefix old s then new ++ substring (String.length old) (String.length s) s
  else match s with
       | EmptyString => EmptyString
       | String c s' => String c (replace_first old new s')
       end.

Definition lower_char (c : ascii) : ascii :=
  if in_range 65 90 c then ascii_of_nat (nat_of_ascii c + 32) else c.

Fixpoint lower (s : string) : string :=
  match s with
  | EmptyString => EmptyString
  | String c s' => String (lower_char c) (lower s')
  end.

Fixpoint rev_string (s : string) : string :=
  match s with
  | EmptyString => EmptyString
  | String c s' => rev_string s' ++ String c EmptyString
  end.

(** [s.endswith(suffix)] *)
Definition endswith (s suffix : string) : bool :=
  prefix (rev_string suffix) (rev_string s).

End Text.

(* ================================================================== *)
(** ** A backtracking matcher for the patterns of the module

    Every pattern of the source is a sequence of quantified character
    classes, possibly closed by [$].  The matcher is greedy and backtracks
    like [re]; captured characters are tagged with their group number
    (0 = outside every group). *)

Module Regex.

Inductive quant := One | Star | Plus.

Inductive item :=
| Cls (p : ascii -> bool) (q : quant) (g : nat)
| EndAnchor.

Definition caps := list (nat * ascii).
Definition outcome := option (caps * string).

Definition tag (g : nat) (c : ascii) (o : outcome) : outcome :=
  match o with
  | Some (cs, r) => Some ((g, c) :: cs, r)
  | None => None
  end.

(** [$] without MULTILINE: at the end, or just before a final newline. *)
Definition at_end (s : string) : bool :=
  match s with
  | EmptyString => true
  | String c EmptyString => Ascii.eqb c "010"
  | _ => false
  end.

Fixpoint match_star (p : ascii -> bool) (g : nat) (k : string -> outcome)
         (s : string) : outcome :=
  match s with
  | String c s' =>
      if p c then
        match match_star p g k s' with
        | Some (cs, r) => Some ((g, c) :: cs, r)
        | None => k s
        end
      else k s
  | EmptyString => k s
  end.

Fixpoint match_items (its : list item) : string -> outcome :=
  match its with
  | [] => fun s => Some ([], s)
  | Cls p One g :: r =>
      fun s => match s with
               | String c s' => if p c then tag g c (match_items r s') else None
               | EmptyString => None
               end
  | Cls p Star g :: r => match_star p g (match_items r)
  | Cls p Plus g :: r =>
      fun s => match s with
               | String c s' =>
                   if p c then tag g c (match_star p g (match_items r) s')
                   else None
               | EmptyString => None
               end
  | EndAnchor :: r => fun s => if at_end s then match_items r s else None
  end.

Fixpoint group (g : nat) (cs : caps) : string :=
  match cs with
  | [] => EmptyString
  | (h, c) :: t => if Nat.eqb h g then String c (group g t) else group g t
  end.

(** [re.findall] for a pattern with one group that never matches the empty
    string: scan left to right, emit group 1 of each match and resume right
    after it.  [skip] counts the characters of the last match still to pass. *)
Fixpoint findall_aux (its : list item) (s : string) (skip : nat) : list string :=
  match s with
  | EmptyString => []
  | String _ s' =>
      match skip with
      | S k => findall_aux its s' k
      | O =>
          match match_items its s with
          | Some (cs, rest) =>
              group 1 cs ::
              findall_aux its s' (String.length s - String.length rest - 1)
          | None => findall_aux its s' 0
          end
      end
  end.

Definition findall (its : list item) (s : string) : list string :=
  findall_aux its s 0.

Definition is_char (c : ascii) : ascii -> bool := Ascii.eqb c.

(** [variable_regexp]: a dollar sign, then group 1 = one or more word
    characters. *)
Definition variable_regexp : list item :=
  [Cls (is_char "$") One 0; Cls Text.is_word Plus 1].

(** the argument class of both function patterns: dollar, word characters,
    dot, dash, underscore, blank, equals sign, comma. *)
Definition is_arg_char (c : ascii) : bool :=
  is_char "$" c || Text.is_word c || is_char "." c || is_char "-" c ||
  is_char "_" c || is_char " " c || is_char "=" c || is_char "," c.

(** [function_regexp]: dollar, open brace, group 1 = (one or more word
    characters, open parenthesis, any number of argument characters, close
    parenthesis), close brace. *)
Definition function_regexp : list item :=
  [Cls (is_char "$") One 0; Cls (is_char "{") One 0;
   Cls Text.is_word Plus 1; Cls (is_char "(") One 1;
   Cls is_arg_char Star 1; Cls (is_char ")") One 1;
   Cls (is_char "}") One 0].

(** [function_regexp_compile]: start anchor, group 1 = one or more word
    characters, open parenthesis, group 2 = any number of argument characters,
    close parenthesis, end anchor.  It is used through [.match], hence
    anchored at the start. *)
Definition function_regexp_compile : list item :=
  [Cls Text.is_word Plus 1; Cls (is_char "(") One 0;
   Cls is_arg_char Star 2; Cls (is_char ")") One 0; EndAnchor].

(** [word_p] of [load_file]: start anchor, one or more word characters or
    dashes, end anchor.  It is used through [re.search]; with the start anchor
    only position 0 can match. *)
Definition word_p : list item :=
  [Cls (fun c => Text.is_word c || is_char "-" c) Plus 0; EndAnchor].

End Regex.

(* ================================================================== *)
(** ** Python values, exceptions and dictionaries *)

Module Py.

#[local] Set Warnings "-register-all".

(** The decoded documents and every value the module passes around.  Floats
    are outside the model. *)
Inductive value :=
| VNone
| VBool (b : bool)
| VInt (z : Z)
| VStr (s : string)
| VList (l : list value)
| VDict (d : list (value * value)).

Definition dict := list (value * value).

Inductive exn :=
| FunctionNotFound (msg : string)
| ParamsError (msg : string)
| FileFormatError (msg : string)
| FileNotFoundError (msg : string)
| ModelFormatError (msg : string)
| ApiNotFound (msg : string)
| SuiteNotFound (msg : string)
| TypeError
| ValueError
| SyntaxError
| RecursionError
| MemoryError
| AttributeError
| KeyError
| ExternalError (msg : string)   (* raised by a decoder or a bound callable *)
| OutOfFuel.                     (* the model's recursion budget ran out *)

Inductive result (A : Type) :=
| Ok (a : A)
| Raise (e : exn).
Arguments Ok {A} a.
Arguments Raise {A} e.

Definition bind {A B} (m : result A) (f : A -> result B) : result B :=
  match m with
  | Ok a => f a
  | Raise e => Raise e
  end.

Notation "x <- m ;; k" := (bind m (fun x => k))
  (at level 61, m at next level, right associativity).

(** [bool(v)] *)
Definition truthy (v : value) : bool :=
  match v with
  | VNone => false
  | VBool b => b
  | VInt z => negb (Z.eqb z 0)
  | VStr s => negb (s =? EmptyString)
  | VList l => match l with [] => false | _ => true end
  | VDict d => match d with [] => false | _ => true end
  end.

(** [a == b]; [bool] is a subtype of [int], dictionaries compare without
    regard to order. *)
Fixpoint py_eq (a b : value) {struct a} : bool :=
  match a, b with
  | VNone, VNone => true
  | VBool x, VBool y => Bool.eqb x y
  | VBool x, VInt y => Z.eqb (Z.b2z x) y
  | VInt x, VBool y => Z.eqb x (Z.b2z y)
  | VInt x, VInt y => Z.eqb x y
  | VStr x, VStr y => String.eqb x y
  | VList l1, VList l2 =>
      (fix go (l1 l2 : list value) : bool :=
         match l1, l2 with
         | [], [] => true
         | x :: xs, y :: ys => py_eq x y && go xs ys
         | _, _ => false
         end) l1 l2
  | VDict d1, VDict d2 =>
      Nat.eqb (List.length d1) (List.length d2) &&
      (fix every (d1 : dict) : bool :=
         match d1 with
         | [] => true
         | (k, v) :: t =>
             (fix find (d2 : dict) : bool :=
                match d2 with
                | [] => false
                | (k2, v2) :: t2 => if py_eq k k2 then py_eq v v2 else find t2
                end) d2 && every t
         end) d1
  | _, _ => false
  end.

Definition hashable (v : value) : bool :=
  match v with
  | VList _ | VDict _ => false
  | _ => true
  end.

(** [d.get(k)], [None] when absent *)
Fixpoint dict_get (d : dict) (k : value) : option value :=
  match d with
  | [] => None
  | (k', v) :: t => if py_eq k' k then Some v else dict_get t k
  end.

(** [k in d] *)
Definition dict_mem (d : dict) (k : value) : bool :=
  match dict_get d k with Some _ => true | None => false end.

(** [d[k] = v] for a hashable key: an existing key keeps its place. *)
Fixpoint dict_set (d : dict) (k v : value) : dict :=
  match d with
  | [] => [(k, v)]
  | (k', v') :: t => if py_eq k' k then (k', v) :: t else (k', v') :: dict_set t k v
  end.

Definition dict_setitem (d : dict) (k v : value) : result dict :=
  if hashable k then Ok (dict_set d k v) else Raise TypeError.

Fixpoint dict_remove (d : dict) (k : value) : dict :=
  match d with
  | [] => []
  | (k', v') :: t => if py_eq k' k then t else (k', v') :: dict_remove t k
  end.

(** [d.pop(k, default)] *)
Definition dict_pop (d : dict) (k default : value) : value * dict :=
  match dict_get d k with
  | Some v => (v, dict_remove d k)
  | None => (default, d)
  end.

(** [d.update(other)] *)
Definition dict_update (d other : dict) : dict :=
  fold_left (fun acc kv => dict_set acc (fst kv) (snd kv)) other d.

(** [v[k]] with a string key *)
Definition getitem (v : value) (k : string) : result value :=
  match v with
  | VDict d => match dict_get d (VStr k) with
               | Some x => Ok x
               | None => Raise KeyError
               end
  | _ => Raise TypeError
  end.

(** [v.get(k)] and [v.get(k, default)] *)
Definition get_method (v : value) (k : string) (default : value) : result value :=
  match v with
  | VDict d => match dict_get d (VStr k) with
               | Some x => Ok x
               | None => Ok default
               end
  | _ => Raise AttributeError
  end.

(** [k in v] *)
Definition py_in (k : string) (v : value) : result bool :=
  match v with
  | VDict d => Ok (dict_mem d (VStr k))
  | VList l => Ok (existsb (py_eq (VStr k)) l)
  | VStr s => Ok (Text.contains k s)
  | _ => Raise TypeError
  end.

Definition chars_of (s : string) : list value :=
  map (fun c => VStr (String c EmptyString)) (list_ascii_of_string s).

(** the items a [for] loop or [list.extend] draws from a value *)
Definition py_iter (v : value) : result (list value) :=
  match v with
  | VList l => Ok l
  | VDict d => Ok (map fst d)
  | VStr s => Ok (chars_of s)
  | _ => Raise TypeError
  end.

(** [len(v)] *)
Definition py_len (v : value) : result nat :=
  match v with
  | VList l => Ok (List.length l)
  | VDict d => Ok (List.length d)
  | VStr s => Ok (String.length s)
  | _ => Raise TypeError
  end.

Definition Z_to_string (z : Z) : string := NilZero.string_of_int (Z.to_int z).

Definition hex_digit (n : nat) : ascii :=
  if (n <? 10)%nat then ascii_of_nat (48 + n) else ascii_of_nat (87 + n).

Definition repr_char (q : ascii) (c : ascii) : string :=
  let n := nat_of_ascii c in
  if Ascii.eqb c "\" then "\\"
  else if Ascii.eqb c q then String "\" (String q EmptyString)
  else if Ascii.eqb c "010" then "\n"
  else if Ascii.eqb c "013" then "\r"
  else if Ascii.eqb c "009" then "\t"
  else if (n <? 32)%nat || (126 <? n)%nat
       then String "\" (String "x" (String (hex_digit (n / 16))
                                      (String (hex_digit (n mod 16)) EmptyString)))
  else String c EmptyString.

Fixpoint repr_chars (q : ascii) (s : string) : string :=
  match s with
  | EmptyString => EmptyString
  | String c s' => repr_char q c ++ repr_chars q s'
  end.

Definition dquote : ascii := ascii_of_nat 34.

(** [repr] of a [str]: single quotes unless the text has a single quote and
    no double quote. *)
Definition repr_str (s : string) : string :=
  let q := if Text.has_char "'" s && negb (Text.has_char dquote s)
           then dquote else "'"%char in
  String q (repr_chars q s ++ String q EmptyString).

Fixpoint py_repr (v : value) : string :=
  match v with
  | VNone => "None"
  | VBool true => "True"
  | VBool false => "False"
  | VInt z => Z_to_string z
  | VStr s => repr_str s
  | VList l => "[" ++ String.concat ", " (map py_repr l) ++ "]"
  | VDict d =>
      "{" ++ String.concat ", "
               (map (fun kv => py_repr (fst kv) ++ ": " ++ py_repr (snd kv)) d)
          ++ "}"
  end.

(** [str(v)] *)
Definition py_str (v : value) : string :=
  match v with
  | VStr s => s
  | _ => py_repr v
  end.

End Py.

(* ================================================================== *)
(** ** Content scanner and call parser *)

Module Scanner.
Import Text Regex Py.

(** [re.findall] raises [TypeError] on anything but text, which both
    extractors turn into the empty list. *)
Definition extract_variables (content : value) : list string :=
  match content with
  | VStr s => findall variable_regexp s
  | _ => []
  end.

Definition extract_functions (content : value) : list string :=
  match content with
  | VStr s => findall function_regexp s
  | _ => []
  end.

Definition function_meta (func_name : string) (args : list value) (kwargs : dict)
  : value :=
  VDict [(VStr "func_name", VStr func_name);
         (VStr "args", VList args);
         (VStr "kwargs", VDict kwargs)].

Section CallParser.

(** [ast.literal_eval]: it returns the value of a literal or raises.  Of what
    it raises, [parse_string_value] catches [ValueError] and [SyntaxError]
    only; anything else ([RecursionError] on deeply nested text,
    [MemoryError]) leaves [parse_string_value] and [parse_function]. *)
Variable literal_eval : string -> result value.

Definition parse_string_value (str_value : string) : result value :=
  match literal_eval str_value with
  | Ok v => Ok v
  | Raise ValueError => Ok (VStr str_value)
  | Raise SyntaxError => Ok (VStr str_value)
  | Raise e => Raise e
  end.

(** the [for arg in args_list] loop of [parse_function];
    [key, value = arg.split('=')] raises [ValueError] unless the split has
    exactly two parts. *)
Fixpoint parse_args (args_list : list string) (args : list value) (kwargs : dict)
  : result (list value * dict) :=
  match args_list with
  | [] => Ok (args, kwargs)
  | arg :: rest =>
      if contains "=" arg then
        match split_on "=" arg with
        | [key; value] =>
            v <- parse_string_value value ;;
            parse_args rest args (dict_set kwargs (VStr key) v)
        | _ => Raise ValueError
        end
      else
        v <- parse_string_value arg ;;
        parse_args rest (args ++ [v]) kwargs
  end.

Definition parse_function (content : value) : result value :=
  match content with
  | VStr s =>
      match match_items function_regexp_compile s with
      | None => Raise (FunctionNotFound (s ++ " not found!"))
      | Some (cs, _) =>
          let func_name := group 1 cs in
          let args_str := replace_all " " EmptyString (group 2 cs) in
          if args_str =? EmptyString then Ok (function_meta func_name [] [])
          else
            r <- parse_args (split_on "," args_str) [] [] ;;
            Ok (function_meta func_name (fst r) (snd r))
      end
  | _ => Raise TypeError
  end.

End CallParser.

(** A sample of [ast.literal_eval], enough to run the model: decimal integers
    without sign or leading zero, and the three constants; every other text is
    taken for no literal, a bare name with [ValueError] (malformed node) and
    the rest with [SyntaxError]. *)
Fixpoint digits_value (s : string) (acc : Z) : Z :=
  match s with
  | EmptyString => acc
  | String c s' => digits_value s' (10 * acc + Z.of_nat (nat_of_ascii c - 48))
  end.

Definition literal_eval_sample (s : string) : result value :=
  if s =? "None" then Ok VNone
  else if s =? "True" then Ok (VBool true)
  else if s =? "False" then Ok (VBool false)
  else if s =? "0" then Ok (VInt 0)
  else if all_chars (in_range 48 57) s && head_is (in_range 49 57) s
       then Ok (VInt (digits_value s 0))
  else if all_chars is_word s && negb (head_is (in_range 48 57) s) && negb (s =? EmptyString)
       then Raise ValueError
  else Raise SyntaxError.

(** The same sample under a nesting limit: a text that opens with more than
    [depth] minus signs exhausts the interpreter's recursion limit, which
    [ast.literal_eval] reports with [RecursionError]. *)
Fixpoint leading_minus (s : string) : nat :=
  match s with
  | String "-" s' => S (leading_minus s')
  | _ => 0
  end.

Definition literal_eval_bounded (depth : nat) (s : string) : result value :=
  if Nat.ltb depth (leading_minus s) then Raise RecursionError
  else literal_eval_sample s.

End Scanner.

(* ================================================================== *)
(** ** Renaming a Definition's parameters *)

Module Substitution.
Import Text Py.

(** the tail of [substitute_variables_with_mapping]: [content] is no
    container, number or falsy value here, and every entry of the mapping is
    applied in order. *)
Fixpoint substitute_leaf (items : dict) (content : value) : result value :=
  match items with
  | [] => Ok content
  | (var, v) :: rest =>
      if py_eq content var then substitute_leaf rest v
      else
        match content, var with
        | VStr s, VStr old => substitute_leaf rest (VStr (replace_all old (py_str v) s))
        | VStr _, _ => Raise TypeError
        | _, _ => Raise AttributeError
        end
  end.

Fixpoint substitute_variables_with_mapping (content : value) (mapping : dict)
  {struct content} : result value :=
  match content with
  | VBool _ | VInt _ => Ok content
  | VList l =>
      if truthy content then
        r <- (fix each (l : list value) : result (list value) :=
                match l with
                | [] => Ok []
                | x :: t =>
                    x' <- substitute_variables_with_mapping x mapping ;;
                    t' <- each t ;;
                    Ok (x' :: t')
                end) l ;;
        Ok (VList r)
      else Ok content
  | VDict d =>
      if truthy content then
        r <- (fix each (d acc : dict) : result dict :=
                match d with
                | [] => Ok acc
                | (k, v) :: t =>
                    eval_key <- substitute_variables_with_mapping k mapping ;;
                    eval_value <- substitute_variables_with_mapping v mapping ;;
                    acc' <- dict_setitem acc eval_key eval_value ;;
                    each t acc'
                end) d [] ;;
        Ok (VDict r)
      else Ok content
  | _ => if truthy content then substitute_leaf mapping content else Ok content
  end.

End Substitution.

(* ================================================================== *)
(** ** The evaluation engine ([TestCaseParser]) *)

Module Parser.
Import Text Regex Py Scanner.

(** A bound callable, applied as [func( *args, **kwargs)]. *)
Definition pyfun := list value -> dict -> result value.

(** The two [logger.log_debug] lines of the engine, with the values they
    format: what was evaluated and what it became. *)
Inductive event :=
| LogFunctions (before after : value)
| LogVariables (before after : value).

Definition is_variables_event (e : event) : bool :=
  match e with
  | LogVariables _ _ => true
  | LogFunctions _ _ => false
  end.

(** A computation that logs and may raise. *)
Definition M (A : Type) : Type := (list event * result A)%type.

Definition ret {A} (a : A) : M A := ([], Ok a).
Definition raise {A} (e : exn) : M A := ([], Raise e).
Definition lift {A} (r : result A) : M A := ([], r).
Definition log (e : event) : M unit := ([e], Ok tt).

Definition mbind {A B} (m : M A) (f : A -> M B) : M B :=
  match m with
  | (t, Ok a) => let (t', r) := f a in ((t ++ t')%list, r)
  | (t, Raise e) => (t, Raise e)
  end.

Notation "x <~ m ;; k" := (mbind m (fun x => k))
  (at level 61, m at next level, right associativity).

Record TestCaseParser := {
  _functions : list (string * pyfun);
  _variables : list (string * value);
  file_path : option string
}.

Fixpoint lookup {A} (l : list (string * A)) (name : string) : option A :=
  match l with
  | [] => None
  | (k, v) :: t => if String.eqb k name then Some v else lookup t name
  end.

Section Engine.

Variable literal_eval : string -> result value.

(** [ModuleUtils.search_conf_item(file_path, item_type, item_name)], the
    preference-file fallback, split by the kind of item it is asked for. *)
Variable search_conf_function : string -> string -> result pyfun.
Variable search_conf_variable : string -> string -> result value.

Variable self : TestCaseParser.

Definition not_defined (item_name item_type : string) : exn :=
  ParamsError (item_name ++ " is not defined in bind " ++ item_type ++ "s!").

(** the [try] block closing [_get_bind_item] *)
Definition search_fallback {A} (search : string -> string -> result A)
           (item_type item_name : string) : result A :=
  match file_path self with
  | None => Raise (not_defined item_name item_type)
  | Some fp =>
      match search fp item_name with
      | Raise (FunctionNotFound _) => Raise (not_defined item_name item_type)
      | r => r
      end
  end.

Definition get_bind_function (func_name : string) : result pyfun :=
  match lookup (_functions self) func_name with
  | Some f => Ok f
  | None => search_fallback search_conf_function "function" func_name
  end.

Definition get_bind_variable (variable_name : string) : result value :=
  match lookup (_variables self) variable_name with
  | Some v => Ok v
  | None => search_fallback search_conf_variable "variable" variable_name
  end.

Definition call (func : pyfun) (args kwargs : value) : result value :=
  match args, kwargs with
  | VList a, VDict k => func a k
  | _, _ => Raise TypeError
  end.

(** the loop of [_eval_content_functions] over [functions_list] *)
Fixpoint eval_functions_loop (ev : value -> M value) (functions_list : list string)
         (content : value) : M value :=
  match functions_list with
  | [] => ret content
  | func_content :: rest =>
      meta <~ lift (parse_function literal_eval (VStr func_content)) ;;
      name <~ lift (getitem meta "func_name") ;;
      args <~ lift (get_method meta "args" (VList [])) ;;
      kwargs <~ lift (get_method meta "kwargs" (VDict [])) ;;
      args <~ ev args ;;
      kwargs <~ ev kwargs ;;
      func <~ lift (get_bind_function (py_str name)) ;;
      eval_value <~ lift (call func args kwargs) ;;
      let token := "${" ++ func_content ++ "}" in
      if py_eq (VStr token) content then
        _ <~ log (LogFunctions (VStr token) eval_value) ;;
        eval_functions_loop ev rest eval_value
      else
        match content with
        | VStr tmp =>
            let content' := VStr (replace_first token (py_str eval_value) tmp) in
            _ <~ log (LogFunctions content content') ;;
            eval_functions_loop ev rest content'
        | _ => raise AttributeError
        end
  end.

Definition _eval_content_functions (ev : value -> M value) (content : value)
  : M value :=
  eval_functions_loop ev (extract_functions content) content.

(** the loop of [_eval_content_variables] over [variables_list] *)
Fixpoint eval_variables_loop (variables_list : list string) (content : value)
  : M value :=
  match variables_list with
  | [] => ret content
  | variable_name :: rest =>
      variable_value <~ lift (get_bind_variable variable_name) ;;
      let token := "$" ++ variable_name in
      if py_eq (VStr token) content then
        _ <~ log (LogVariables (VStr token) variable_value) ;;
        eval_variables_loop rest variable_value
      else
        match content with
        | VStr tmp =>
            let content' := VStr (replace_first token (py_str variable_value) tmp) in
            _ <~ log (LogVariables content content') ;;
            eval_variables_loop rest content'
        | _ => raise AttributeError
        end
  end.

Definition _eval_content_variables (content : value) : M value :=
  eval_variables_loop (extract_variables content) content.

Fixpoint eval_list (ev : value -> M value) (l : list value) : M (list value) :=
  match l with
  | [] => ret []
  | item :: t =>
      item' <~ ev item ;;
      t' <~ eval_list ev t ;;
      ret (item' :: t')
  end.

Fixpoint eval_dict (ev : value -> M value) (d evaluated_data : dict) : M dict :=
  match d with
  | [] => ret evaluated_data
  | (key, v) :: t =>
      eval_key <~ ev key ;;
      eval_value <~ ev v ;;
      evaluated_data' <~ lift (dict_setitem evaluated_data eval_key eval_value) ;;
      eval_dict ev t evaluated_data'
  end.

(** [eval_content_with_bind_actions]; the recursion through the arguments of
    a function token is not structural, so the depth is bounded by [fuel]. *)
Fixpoint eval_content_with_bind_actions (fuel : nat) (content : value) : M value :=
  match fuel with
  | O => raise OutOfFuel
  | S fuel' =>
      let ev := eval_content_with_bind_actions fuel' in
      match content with
      | VNone => ret VNone
      | VList l => l' <~ eval_list ev l ;; ret (VList l')
      | VDict d => d' <~ eval_dict ev d [] ;; ret (VDict d')
      | VStr s =>
          content <~ _eval_content_functions ev (VStr (strip s)) ;;
          _eval_content_variables content
      | _ => ret content
      end
  end.

End Engine.

End Parser.

(* ================================================================== *)
(** ** Paths ([os.path], POSIX flavour) *)

Module Path.
Import Text.

Definition is_slash (c : ascii) : bool := Ascii.eqb c "/".

Definition isabs (p : string) : bool := head_is is_slash p.

Definition join (a b : string) : string :=
  if head_is is_slash b then b
  else if (a =? EmptyString) || endswith a "/" then a ++ b
  else a ++ "/" ++ b.

Fixpoint take_ext (rev acc : string) : option (string * string) :=
  match rev with
  | EmptyString => None
  | String c r =>
      if is_slash c then None
      else if Ascii.eqb c "." then Some (String "." acc, r)
      else take_ext r (String c acc)
  end.

Fixpoint has_non_dot (rev : string) : bool :=
  match rev with
  | EmptyString => false
  | String c r =>
      if is_slash c then false
      else if Ascii.eqb c "." then has_non_dot r
      else true
  end.

(** [os.path.splitext(p)[1]]: the last dot of the last component opens the
    extension unless only dots precede it there. *)
Definition splitext_ext (p : string) : string :=
  match take_ext (rev_string p) EmptyString with
  | Some (ext, r) => if has_non_dot r then ext else EmptyString
  | None => EmptyString
  end.

Fixpoint drop_to_slash (rev : string) : string :=
  match rev with
  | EmptyString => EmptyString
  | String c r => if is_slash c then rev else drop_to_slash r
  end.

Fixpoint lstrip_slash (s : string) : string :=
  match s with
  | EmptyString => EmptyString
  | String c s' => if is_slash c then lstrip_slash s' else s
  end.

(** [os.path.dirname] *)
Definition dirname (p : string) : string :=
  let head_rev := drop_to_slash (rev_string p) in
  if all_chars is_slash head_rev then rev_string head_rev
  else rev_string (lstrip_slash head_rev).

End Path.

(* ================================================================== *)
(** ** Document loader, Definition store and case assembler *)

Module Loader.
Import Text Regex Py Scanner Substitution Path.

(** What the loader sees of the outside: the file system, the two decoders,
    the working directory and the file-name sanitiser of [p_common]. *)
Record world := {
  isfile : string -> bool;
  isdir : string -> bool;
  path_exists : string -> bool;
  walk : string -> list (string * list string * list string);
  abspath : string -> string;
  getcwd : string;
  read_file : string -> result string;
  yaml_load : string -> result value;
  json_load : string -> option value;     (* [None]: JSONDecodeError *)
  get_legal_filename : string -> string
}.

(** The lines sent to [logger] at warning and error level (debug lines are
    left out); [LogException] is [log_error(get_exception_error())]. *)
Inductive log_entry :=
| LogError (msg : string)
| LogWarning (msg : string)
| LogException (e : exn).

(** [overall_def_dict = {"api": {}, "suite": {}}] *)
Record def_store := {
  api : dict;
  suite : dict
}.

(** the class attributes of [YamlCaseLoader] and the log *)
Record state := {
  overall_def_dict : def_store;
  testcases_cache_mapping : list (string * list value);
  logs : list log_entry
}.

Definition initial : state :=
  {| overall_def_dict := {| api := []; suite := [] |};
     testcases_cache_mapping := [];
     logs := [] |}.

(** [overall_def_dict.get(ref_type, {})] *)
Definition store_get (d : def_store) (ref_type : string) : dict :=
  if ref_type =? "api" then api d
  else if ref_type =? "suite" then suite d
  else [].

Definition L (A : Type) : Type := state -> result A * state.

Definition lret {A} (a : A) : L A := fun st => (Ok a, st).
Definition lraise {A} (e : exn) : L A := fun st => (Raise e, st).
Definition llift {A} (r : result A) : L A := fun st => (r, st).
Definition lbind {A B} (m : L A) (f : A -> L B) : L B :=
  fun st => match m st with
            | (Ok a, st') => f a st'
            | (Raise e, st') => (Raise e, st')
            end.

Notation "x <<- m ;; k" := (lbind m (fun x => k))
  (at level 61, m at next level, right associativity).

Definition emit (e : log_entry) : L unit :=
  fun st => (Ok tt, {| overall_def_dict := overall_def_dict st;
                       testcases_cache_mapping := testcases_cache_mapping st;
                       logs := (logs st ++ [e])%list |}).

Definition get_store : L def_store := fun st => (Ok (overall_def_dict st), st).

Definition put_store (d : def_store) : L unit :=
  fun st => (Ok tt, {| overall_def_dict := d;
                       testcases_cache_mapping := testcases_cache_mapping st;
                       logs := logs st |}).

Definition put_cache (c : list (string * list value)) : L unit :=
  fun st => (Ok tt, {| overall_def_dict := overall_def_dict st;
                       testcases_cache_mapping := c;
                       logs := logs st |}).

Definition is_dict (v : value) : bool :=
  match v with VDict _ => true | _ => false end.
Definition is_list (v : value) : bool :=
  match v with VList _ => true | _ => false end.

(** ** [_get_test_definition], [_get_block_by_name], [_override_block] *)

Definition _get_test_definition (d : def_store) (name : value) (ref_type : string)
  : result value :=
  match dict_get (store_get d ref_type) name with
  | Some block =>
      if truthy block then Ok block
      else if ref_type =? "api" then Raise (ApiNotFound (py_str name ++ " not found!"))
      else Raise (SuiteNotFound (py_str name ++ " not found!"))
  | None =>
      if ref_type =? "api" then Raise (ApiNotFound (py_str name ++ " not found!"))
      else Raise (SuiteNotFound (py_str name ++ " not found!"))
  end.

(** the [enumerate(def_args)] loop building [args_mapping] *)
Fixpoint build_args_mapping (def_args call_args : list value) (args_mapping : dict)
  : result dict :=
  match def_args with
  | [] => Ok args_mapping
  | item :: rest =>
      match call_args with
      | [] => Raise KeyError              (* IndexError: unreachable after the length test *)
      | call_arg :: call_rest =>
          if py_eq call_arg item then build_args_mapping rest call_rest args_mapping
          else
            m <- dict_setitem args_mapping item call_arg ;;
            build_args_mapping rest call_rest m
      end
  end.

Section Resolution.

Variable literal_eval : string -> result value.

Definition _get_block_by_name (d : def_store) (ref_call : value) (ref_type : string)
  : result value :=
  function_meta <- parse_function literal_eval ref_call ;;
  func_name <- getitem function_meta "func_name" ;;
  call_args <- getitem function_meta "args" ;;
  block <- _get_test_definition d func_name ref_type ;;
  def_meta <- get_method block "function_meta" VNone ;;
  def_args <- get_method def_meta "args" (VList []) ;;
  n_call <- py_len call_args ;;
  n_def <- py_len def_args ;;
  if negb (Nat.eqb n_call n_def)
  then Raise (ParamsError "call args mismatch defined args!")
  else
    def_items <- py_iter def_args ;;
    call_items <- py_iter call_args ;;
    args_mapping <- build_args_mapping def_items call_items [] ;;
    if truthy (VDict args_mapping)
    then substitute_variables_with_mapping block args_mapping
    else Ok block.

End Resolution.

(** [current.extend(definition)]: the list grows in place and the call
    returns [None]. *)
Definition list_extend (current definition : value) : result value :=
  match current with
  | VList _ => _ <- py_iter definition ;; Ok VNone
  | _ => Raise AttributeError
  end.

(** one of the three [if not def_x / elif not current_x / else] ladders *)
Definition merge_field (def_x current_x : value) : result value :=
  if negb (truthy def_x) then Ok current_x
  else if negb (truthy current_x) then Ok def_x
  else list_extend current_x def_x.

(** [_override_block] returns the case block as the call leaves it. *)
Definition _override_block (def_block current_block : value) : result value :=
  def_pre <- get_method def_block "pre_command" VNone ;;
  current_pre <- get_method current_block "pre_command" VNone ;;
  def_post <- get_method def_block "post_command" VNone ;;
  current_post <- get_method current_block "post_command" VNone ;;
  def_verify <- get_method def_block "verify" VNone ;;
  current_verify <- get_method current_block "verify" VNone ;;
  match def_block, current_block with
  | VDict d, VDict c =>
      let c := dict_update c d in
      pre <- merge_field def_pre current_pre ;;
      let c := dict_set c (VStr "pre_command") pre in
      post <- merge_field def_post current_post ;;
      let c := dict_set c (VStr "post_command") post in
      verify <- merge_field def_verify current_verify ;;
      Ok (VDict (dict_set c (VStr "verify") verify))
  | _, _ => Raise AttributeError
  end.

(** ** [Yaml]: decoding a document *)

Section Documents.

Variable w : world.

(** [Yaml._check_format] *)
Definition _check_format (file_path : string) (content : value) : L unit :=
  if negb (truthy content) then
    let err_msg := "Testcase file content is empty: " ++ file_path in
    _ <<- emit (LogError err_msg) ;; lraise (FileFormatError err_msg)
  else if negb (is_list content || is_dict content) then
    let err_msg := "Testcase file content format invalid: " ++ file_path in
    _ <<- emit (LogError err_msg) ;; lraise (FileFormatError err_msg)
  else lret tt.

Definition _load_yaml_file (yaml_file : string) : L value :=
  stream <<- llift (read_file w yaml_file) ;;
  yaml_content <<- llift (yaml_load w stream) ;;
  _ <<- _check_format yaml_file yaml_content ;;
  lret yaml_content.

Definition _load_json_file (json_file : string) : L value :=
  data_file <<- llift (read_file w json_file) ;;
  match json_load w data_file with
  | None =>
      let err_msg := "JSONDecodeError: JSON file format error: " ++ json_file in
      _ <<- emit (LogError err_msg) ;; lraise (FileFormatError err_msg)
  | Some json_content =>
      _ <<- _check_format json_file json_content ;;
      lret json_content
  end.

(** [Yaml.load_file] *)
Definition yaml_load_file (file_path : string) : L value :=
  if negb (isfile w file_path)
  then lraise (FileNotFoundError (file_path ++ " does not exist."))
  else
    let file_suffix := lower (splitext_ext file_path) in
    if file_suffix =? ".json" then _load_json_file file_path
    else if (file_suffix =? ".yaml") || (file_suffix =? ".yml")
    then _load_yaml_file file_path
    else
      _ <<- emit (LogWarning ("Unsupported file format: " ++ file_path)) ;;
      lret (VList []).

Definition case_file_name (filename : string) : bool :=
  endswith filename ".yml" || endswith filename ".yaml" || endswith filename ".json".

(** the [os.walk] loop of [Yaml.load_folder_files] *)
Fixpoint walk_files (triples : list (string * list string * list string))
         (recursive : bool) : list string :=
  match triples with
  | [] => []
  | (dirpath, _, filenames) :: rest =>
      let here := map (join dirpath) (filter case_file_name filenames) in
      if recursive then (here ++ walk_files rest recursive)%list else here
  end.

(** [Yaml.load_folder_files] on one folder path *)
Definition load_folder_files (folder_path : string) (recursive : bool) : list string :=
  if negb (path_exists w folder_path) then []
  else walk_files (walk w folder_path) recursive.

End Documents.

(** ** [YamlCaseLoader]: registering Definitions and assembling cases *)

Section Assembler.

Variable literal_eval : string -> result value.
Variable w : world.

(** [set(path)] is iterated in an order Python does not specify. *)
Variable set_iter : list string -> list string.

Definition single_item (item : value) : option (value * value) :=
  match item with
  | VDict [(key, v)] => Some (key, v)
  | _ => None
  end.

Definition api_format_error (file_path : string) : exn :=
  FileFormatError ("API format error: " ++ file_path).

(** one turn of the [for api_item in api_items] loop *)
Definition register_api (file_path : string) (api_item : value) : L unit :=
  match single_item api_item with
  | None => lraise (api_format_error file_path)
  | Some (key, api_dict) =>
      match api_dict with
      | VDict body =>
          if negb (py_eq key (VStr "api")) || negb (dict_mem body (VStr "def"))
          then lraise (api_format_error file_path)
          else
            let (api_def, body) := dict_pop body (VStr "def") VNone in
            function_meta <<- llift (parse_function literal_eval api_def) ;;
            func_name <<- llift (getitem function_meta "func_name") ;;
            d <<- get_store ;;
            _ <<- (if dict_mem (api d) func_name
                   then emit (LogWarning ("API definition duplicated: " ++ py_str func_name))
                   else lret tt) ;;
            let body := dict_set body (VStr "function_meta") function_meta in
            put_store {| api := dict_set (api d) func_name (VDict body);
                         suite := suite d |}
      | _ => lraise (api_format_error file_path)
      end
  end.

Fixpoint for_each {A} (f : A -> L unit) (l : list A) : L unit :=
  match l with
  | [] => lret tt
  | x :: t => _ <<- f x ;; for_each f t
  end.

Definition load_api_file (file_path : string) : L unit :=
  api_items <<- yaml_load_file w file_path ;;
  match api_items with
  | VList items => for_each (register_api file_path) items
  | _ => lraise (api_format_error file_path)
  end.

Definition testcase_format_error (yaml_file : string) : exn :=
  FileFormatError ("Testcase format error: " ++ yaml_file).

Definition set_key (testset : value) (k : string) (v : value) : result value :=
  match testset with
  | VDict d => Ok (VDict (dict_set d (VStr k) v))
  | _ => Raise TypeError
  end.

(** [testset["cases"].append(x)] and [.extend(xs)] *)
Definition append_cases (testset : value) (new_cases : list value) : result value :=
  cases <- getitem testset "cases" ;;
  match cases with
  | VList l => set_key testset "cases" (VList (l ++ new_cases))
  | _ => Raise AttributeError
  end.

(** the [key == "case"] branch of [load_file] *)
Definition load_case (test_block : dict) (testset : value) : L value :=
  let (case_id, test_block) := dict_pop test_block (VStr "id") (VStr EmptyString) in
  let (desc, test_block) := dict_pop test_block (VStr "desc") (VStr EmptyString) in
  if negb (truthy case_id)
  then lraise (ModelFormatError "Some cases do not have 'case_id'.")
  else
    match case_id with
    | VStr id =>
        match match_items word_p id with
        | None => lraise (ModelFormatError ("Invalid case_id: " ++ id))
        | Some _ =>
            let name := get_legal_filename w (py_str case_id ++ "[" ++ py_str desc ++ "]") in
            let test_block := dict_set test_block (VStr "name") (VStr name) in
            d <<- get_store ;;
            match dict_get test_block (VStr "api") with
            | Some ref_call =>
                def_block <<- llift (_get_block_by_name literal_eval d ref_call "api") ;;
                merged <<- llift (_override_block def_block (VDict test_block)) ;;
                llift (append_cases testset [merged])
            | None =>
                match dict_get test_block (VStr "suite") with
                | Some ref_call =>
                    block <<- llift (_get_block_by_name literal_eval d ref_call "suite") ;;
                    cases <<- llift (getitem block "cases") ;;
                    items <<- llift (py_iter cases) ;;
                    llift (append_cases testset items)
                | None => llift (append_cases testset [VDict test_block])
                end
            end
        end
    | _ => lraise TypeError
    end.

(** one turn of the [for item in test_cases] loop *)
Definition load_item (yaml_file : string) (item : value) (testset : value) : L value :=
  match single_item item with
  | None => lraise (testcase_format_error yaml_file)
  | Some (key, VDict test_block) =>
      if py_eq key (VStr "project") then
        project <<- llift (getitem testset "project") ;;
        match project with
        | VDict p =>
            testset <<- llift (set_key testset "project" (VDict (dict_update p test_block))) ;;
            name <<- llift (get_method (VDict test_block) "module" (VStr "Default Test Set")) ;;
            llift (set_key testset "name" name)
        | _ => lraise AttributeError
        end
      else if py_eq key (VStr "case") then load_case test_block testset
      else
        _ <<- emit (LogWarning ("unexpected block key: " ++ py_str key ++
                     ". block key should only be 'project' or 'case'.")) ;;
        lret testset
  | Some _ => lraise (testcase_format_error yaml_file)
  end.

(** the loop itself: it stops at the first exception and keeps the test set
    assembled so far. *)
Fixpoint load_items (yaml_file : string) (items : list value) (testset : value)
         (st : state) : value * option exn * state :=
  match items with
  | [] => (testset, None, st)
  | item :: rest =>
      match load_item yaml_file item testset st with
      | (Ok testset', st') => load_items yaml_file rest testset' st'
      | (Raise e, st') => (testset, Some e, st')
      end
  end.

Definition empty_testset (yaml_file : string) : value :=
  VDict [(VStr "file_path", VStr yaml_file);
         (VStr "project", VDict []);
         (VStr "cases", VList [])].

(** the [try] block of [load_file] *)
Definition load_file_body (yaml_file : string) (st : state)
  : value * option exn * state :=
  let testset := empty_testset yaml_file in
  match (test_cases <<- yaml_load_file w yaml_file ;; llift (py_iter test_cases)) st with
  | (Ok items, st') => load_items yaml_file items testset st'
  | (Raise e, st') => (testset, Some e, st')
  end.

(** [YamlCaseLoader.load_file]: the guard, then [try / except / finally]. *)
Definition load_file (yaml_file : string) : L value :=
  if negb (isfile w yaml_file)
  then lraise (FileNotFoundError ("Not found testcase file " ++ yaml_file ++ "."))
  else fun st =>
    match load_file_body yaml_file st with
    | (testset, None, st') => (Ok testset, st')
    | (testset, Some e, st') => lbind (emit (LogException e)) (fun _ => lret testset) st'
    end.

(** one turn of the [for suite_file in ...] loop of [load_dependencies] *)
Definition register_suite (suite_file : string) : L unit :=
  suite_set <<- load_file suite_file ;;
  project <<- llift (getitem suite_set "project") ;;
  has_def <<- llift (py_in "def" project) ;;
  if negb has_def
  then lraise (ParamsError ("def missed in suite file: " ++ suite_file ++ "!"))
  else
    call_func <<- llift (getitem project "def") ;;
    function_meta <<- llift (parse_function literal_eval call_func) ;;
    suite_set <<- llift (set_key suite_set "function_meta" function_meta) ;;
    func_name <<- llift (getitem function_meta "func_name") ;;
    d <<- get_store ;;
    put_store {| api := api d; suite := dict_set (suite d) func_name suite_set |}.

Definition load_dependencies (path_or_yamlfile : string) : L unit :=
  let path :=
    if isdir w path_or_yamlfile
    then join (abspath w path_or_yamlfile) "dependencies"
    else join (dirname (abspath w path_or_yamlfile)) "dependencies" in
  let api_def_folder := join path "api" in
  let suite_def_folder := join path "suite" in
  _ <<- for_each load_api_file (load_folder_files w api_def_folder true) ;;
  for_each register_suite (load_folder_files w suite_def_folder true).

(** the argument of [load_files]: one path, or a list or set of paths *)
Inductive path_arg :=
| PathStr (p : string)
| PathColl (l : list string).

Fixpoint cache_get (c : list (string * list value)) (path : string)
  : option (list value) :=
  match c with
  | [] => None
  | (k, v) :: t => if String.eqb k path then Some v else cache_get t path
  end.

Fixpoint cache_set (c : list (string * list value)) (path : string)
         (v : list value) : list (string * list value) :=
  match c with
  | [] => [(path, v)]
  | (k, v') :: t =>
      if String.eqb k path then (k, v) :: t else (k, v') :: cache_set t path v
  end.

(** the [for file_path in set(path)] loop of [load_files] *)
Fixpoint load_collection (rec : path_arg -> L (list value)) (paths : list string)
         (testsets : list value) : L (list value) :=
  match paths with
  | [] => lret testsets
  | file_path :: rest =>
      if contains "dependencies" file_path
      then load_collection rec rest testsets
      else
        testset <<- rec (PathStr file_path) ;;
        load_collection rec rest (testsets ++ testset)%list
  end.

(** the [try / except FileFormatError] around one case file *)
Definition load_one_file (path : string) : L (list value) :=
  fun st =>
    match (testset <<- load_file path ;;
           cases <<- llift (getitem testset "cases") ;;
           lret (if truthy cases then [testset] else [])) st with
    | (Raise (FileFormatError _), st') => (Ok [], st')
    | r => r
    end.

(** [YamlCaseLoader.load_files]; a folder recurses through the list of its
    files, so the depth is bounded by [fuel]. *)
Fixpoint load_files (fuel : nat) (path : path_arg) : L (list value) :=
  match fuel with
  | O => lraise OutOfFuel
  | S fuel' =>
      match path with
      | PathColl l => load_collection (load_files fuel') (set_iter l) []
      | PathStr p =>
          let path := if negb (isabs p) then join (getcwd w) p else p in
          fun st =>
            match cache_get (testcases_cache_mapping st) path with
            | Some cached => (Ok cached, st)
            | None =>
                (testcases_list <<-
                   (if isdir w path
                    then load_files fuel' (PathColl (load_folder_files w path true))
                    else if isfile w path then load_one_file path
                    else _ <<- emit (LogError ("file not found: " ++ path)) ;;
                         lret []) ;;
                 fun st' =>
                   (Ok testcases_list,
                    {| overall_def_dict := overall_def_dict st';
                       testcases_cache_mapping :=
                         cache_set (testcases_cache_mapping st') path testcases_list;
                       logs := logs st' |})) st
            end
      end
  end.

End Assembler.

End Loader.

(* ================================================================== *)
(** ** What the specification says, stated independently of the code *)

Module Spec.
Import Text Regex Py.

Fixpoint tagged (g : nat) (s : string) : caps :=
  match s with
  | EmptyString => []
  | String c s' => (g, c) :: tagged g s'
  end.

(** [matches its s cs rest]: the items match a prefix of [s], capture [cs]
    and leave [rest]. *)
Inductive matches : list item -> string -> caps -> string -> Prop :=
| matches_nil s : matches [] s [] s
| matches_one p g r c s cs rest :
    p c = true -> matches r s cs rest ->
    matches (Cls p One g :: r) (String c s) ((g, c) :: cs) rest
| matches_star p g r run s cs rest :
    all_chars p run = true -> matches r s cs rest ->
    matches (Cls p Star g :: r) (run ++ s) (tagged g run ++ cs)%list rest
| matches_plus p g r c run s cs rest :
    p c = true -> all_chars p run = true -> matches r s cs rest ->
    matches (Cls p Plus g :: r) (String c (run ++ s))
            ((g, c) :: tagged g run ++ cs)%list rest
| matches_end r s cs rest :
    at_end s = true -> matches r s cs rest ->
    matches (EndAnchor :: r) s cs rest.

(** [variable_token s name rest]: [s] opens with a dollar sign and the
    longest run [name] of word characters, followed by [rest]. *)
Definition variable_token (s name rest : string) : Prop :=
  name <> EmptyString /\ all_chars is_word name = true /\ head_is is_word rest = false /\
  s = "$" ++ name ++ rest.

(** [function_token s body rest]: [s] opens with [${name(args)}], whose part
    between the braces is [body], followed by [rest]. *)
Definition function_token (s body rest : string) : Prop :=
  exists name args,
    name <> EmptyString /\ all_chars is_word name = true /\
    all_chars is_arg_char args = true /\
    body = name ++ "(" ++ args ++ ")" /\
    s = "${" ++ body ++ "}" ++ rest.

(** A left-to-right scan: where a token opens, it is taken and the scan
    resumes after it; elsewhere one character is passed over. *)
Inductive scan (token : string -> string -> string -> Prop)
  : string -> list string -> Prop :=
| scan_end : scan token EmptyString []
| scan_skip c s bodies :
    (forall body rest, ~ token (String c s) body rest) ->
    scan token s bodies -> scan token (String c s) bodies
| scan_take s body rest bodies :
    token s body rest -> scan token rest bodies ->
    scan token s (body :: bodies).

(** *** The argument slots of a call, in the words of the specification *)

Fixpoint before_char (c : ascii) (s : string) : string :=
  match s with
  | EmptyString => EmptyString
  | String d s' => if Ascii.eqb d c then EmptyString else String d (before_char c s')
  end.

Fixpoint after_char (c : ascii) (s : string) : string :=
  match s with
  | EmptyString => EmptyString
  | String d s' => if Ascii.eqb d c then s' else after_char c s'
  end.

(** the comma-separated arguments of an argument string without blanks *)
Definition arguments (args_str : string) : list string :=
  if args_str =? EmptyString then [] else split_on "," args_str.

Section Slots.

Variable literal_eval : string -> result value.

(** the errors of [ast.literal_eval] that the coercion takes as the sign
    that the text is no literal *)
Definition no_literal (e : exn) : bool :=
  match e with
  | ValueError | SyntaxError => true
  | _ => false
  end.

(** the literal coercion of an argument text: the value of the literal, and
    the text itself when it is no literal *)
Definition coerced (a : string) : value :=
  match literal_eval a with
  | Ok v => v
  | Raise _ => VStr a
  end.

(** the coercion of the text completes: [ast.literal_eval] returns, or raises
    one of the two errors above *)
Definition coercible (a : string) : Prop :=
  forall e, literal_eval a = Raise e -> no_literal e = true.

(** the text of an argument that is coerced: what follows the equals sign
    of a keyword argument, the whole of a positional one *)
Definition value_text (arg : string) : string :=
  if has_char "=" arg then after_char "=" arg else arg.

(** arguments without an equals sign, coerced, in order *)
Definition positional_slots (args_list : list string) : list value :=
  map coerced (filter (fun arg => negb (has_char "=" arg)) args_list).

(** arguments with an equals sign, split at it into key and coerced value *)
Definition keyword_slots (args_list : list string) : dict :=
  fold_left
    (fun kwargs arg =>
       dict_set kwargs (VStr (before_char "=" arg)) (coerced (after_char "=" arg)))
    (filter (has_char "=") args_list) [].

End Slots.

(** the error a reference to an unknown Definition raises *)
Definition not_found (ref_type : string) (name : value) : exn :=
  if ref_type =? "api" then ApiNotFound (py_str name ++ " not found!")
  else SuiteNotFound (py_str name ++ " not found!").

(** the log of a leaf in which every function entry comes before every
    variable entry *)
Definition functions_first (t : list Parser.event) : Prop :=
  forall before e after,
    t = (before ++ e :: after)%list ->
    Parser.is_variables_event e = false ->
    forallb (fun x => negb (Parser.is_variables_event x)) before = true.

(** what [ast.literal_eval] can yield on an argument of a call: the
    argument class has no quote and no bracket, so only constants *)
Definition atomic (v : value) : bool :=
  match v with
  | VNone | VBool _ | VInt _ => true
  | _ => false
  end.

(** a constant, or a text that cannot hold a function token *)
Definition brace_free (v : value) : bool :=
  match v with
  | VStr a => negb (has_char "{" a)
  | _ => atomic v
  end.

(** a mapping whose keys and values are all brace-free *)
Definition flat_dict (d : dict) : Prop :=
  Forall (fun kv => brace_free (fst kv) = true /\ brace_free (snd kv) = true) d.

(** a TestSet for a file: its path, a project mapping and a list of cases *)
Definition is_testset_for (yaml_file : string) (testset : value) : Prop :=
  getitem testset "file_path" = Ok (VStr yaml_file) /\
  (exists project, getitem testset "project" = Ok (VDict project)) /\
  (exists cases, getitem testset "cases" = Ok (VList cases)).

(** the key under which [load_files] memoizes a path *)
Definition absolute_path (w : Loader.world) (p : string) : string :=
  if negb (Path.isabs p) then Path.join (Loader.getcwd w) p else p.

(** [os.path.normpath] on POSIX: empty and single-dot components go, a
    double-dot component takes the component before it along, and one or two
    leading slashes are kept.  [load_files] never calls it; it says here when
    two spellings name one absolute path. *)
Fixpoint normal_components (initial_slashes : bool) (comps new_comps : list string)
  : list string :=
  match comps with
  | [] => new_comps
  | comp :: rest =>
      if (comp =? EmptyString) || (comp =? ".")
      then normal_components initial_slashes rest new_comps
      else if negb (comp =? "..")
              || (negb initial_slashes && match new_comps with [] => true | _ => false end)
              || (last new_comps EmptyString =? "..")
      then normal_components initial_slashes rest (new_comps ++ [comp])
      else normal_components initial_slashes rest (removelast new_comps)
  end.

Definition leading_slashes (path : string) : string :=
  match path with
  | String "/" (String "/" (String "/" _)) => "/"
  | String "/" (String "/" _) => "//"
  | String "/" _ => "/"
  | _ => EmptyString
  end.

Definition normpath (path : string) : string :=
  if path =? EmptyString then "."
  else
    let comps :=
      normal_components (Path.isabs path) (Text.split_on "/" path) [] in
    let path' := leading_slashes path ++ String.concat "/" comps in
    if path' =? EmptyString then "." else path'.

(** the absolute path that a path resolves to, [os.path.abspath] *)
Definition resolved_path (w : Loader.world) (p : string) : string :=
  normpath (absolute_path w p).

(** a loader computation that leaves the resolution cache alone *)
Definition keeps_cache {A} (m : Loader.L A) : Prop :=
  forall st,
    Loader.testcases_cache_mapping (snd (m st)) = Loader.testcases_cache_mapping st.

End Spec.

(* ================================================================== *)
(** ** Sample bindings and documents, to run the model *)

Module Samples.
Import Text Regex Py Scanner Parser.

Definition no_conf_function : string -> string -> result pyfun :=
  fun _ name => Raise (FunctionNotFound name).

Definition no_conf_variable : string -> string -> result value :=
  fun _ name => Raise (FunctionNotFound name).

(** [add(a, b)] on integers *)
Definition add : pyfun :=
  fun args _ =>
    match args with
    | [VInt a; VInt b] => Ok (VInt (a + b))
    | _ => Raise TypeError
    end.

(** [greet()] answers a text that itself holds a variable token *)
Definition greet : pyfun := fun _ _ => Ok (VStr "hello $who").

Definition bindings : TestCaseParser :=
  {| _functions := [("add", add); ("greet", greet)];
     _variables := [("uid", VInt 1000); ("x", VInt 2); ("who", VStr "world");
                    ("call", VStr "${add(1, 2)}")];
     file_path := None |}.

Definition evaluate (fuel : nat) (content : value) : M value :=
  eval_content_with_bind_actions literal_eval_sample no_conf_function
    no_conf_variable bindings fuel content.

(** *** A small case tree: one Definition file, two suites declaring the
    same name, a case file and a case file with a malformed id *)

Import Loader.

Definition str_dict (l : list (string * value)) : value :=
  VDict (map (fun kv => (VStr (fst kv), snd kv)) l).

Definition block (key : string) (body : list (string * value)) : value :=
  str_dict [(key, str_dict body)].

Definition login_api : value :=
  VList [block "api" [("def", VStr "login(username, password)");
                      ("pre_command", VList [VStr "Y"]);
                      ("steps", VList [VStr "type username"; VStr "type password"])]].

Definition twice_api : value :=
  VList [block "api" [("def", VStr "ping()"); ("steps", VList [VStr "first"])];
         block "api" [("def", VStr "ping()"); ("steps", VList [VStr "second"])]].

Definition suite_doc (module : string) (case_id : string) : value :=
  VList [block "project" [("def", VStr "flow()"); ("module", VStr module)];
         block "case" [("id", VStr case_id)]].

Definition login_cases : value :=
  VList [block "project" [("module", VStr "Account")];
         block "case" [("id", VStr "c1"); ("desc", VStr "sign in");
                       ("pre_command", VList [VStr "X"]);
                       ("api", VStr "login($u, $p)")]].

Definition broken_cases : value :=
  VList [block "project" [("module", VStr "Broken")];
         block "case" [("id", VStr "ok-1")];
         block "case" [("id", VStr "bad id")];
         block "case" [("id", VStr "ok-2")]].

Definition documents : list (string * value) :=
  [("/cases/dependencies/api/login.yaml", login_api);
   ("/cases/dependencies/api/twice.yaml", twice_api);
   ("/cases/dependencies/suite/s1.yaml", suite_doc "first" "s1");
   ("/cases/dependencies/suite/s2.yaml", suite_doc "second" "s2");
   ("/cases/login.yaml", login_cases);
   ("/cases/broken.yaml", broken_cases)].

Definition sample_walk (top : string) : list (string * list string * list string) :=
  if top =? "/cases/dependencies/api"
  then [(top, [], ["login.yaml"; "twice.yaml"; "notes.txt"])]
  else if top =? "/cases/dependencies/suite" then [(top, [], ["s1.yaml"; "s2.yaml"])]
  else if top =? "/cases"
  then [(top, ["dependencies"], ["login.yaml"; "broken.yaml"]);
        ("/cases/dependencies", ["api"; "suite"], []);
        ("/cases/dependencies/api", [], ["login.yaml"; "twice.yaml"; "notes.txt"]);
        ("/cases/dependencies/suite", [], ["s1.yaml"; "s2.yaml"])]
  else [].

Definition is_sample_dir (p : string) : bool :=
  match sample_walk p with [] => false | _ => true end.

(** the file system holds the tree above; a file's text is its own path,
    which the sample decoder maps to the document *)
Definition tree : world :=
  {| isfile := fun p => match lookup documents p with Some _ => true | None => false end;
     isdir := is_sample_dir;
     path_exists := fun p => is_sample_dir p ||
                             match lookup documents p with Some _ => true | None => false end;
     walk := sample_walk;
     abspath := fun p => p;
     getcwd := "/cases";
     read_file := fun p => Ok p;
     yaml_load := fun text => match lookup documents text with
                              | Some doc => Ok doc
                              | None => Raise (ExternalError "yaml")
                              end;
     json_load := fun _ => None;
     get_legal_filename := fun name => name |}.

(** the same process after every file has disappeared *)
Definition emptied : world :=
  {| isfile := fun _ => false;
     isdir := fun _ => false;
     path_exists := fun _ => false;
     walk := fun _ => [];
     abspath := fun p => p;
     getcwd := "/cases";
     read_file := fun _ => Raise (ExternalError "io");
     yaml_load := fun _ => Raise (ExternalError "yaml");
     json_load := fun _ => None;
     get_legal_filename := fun name => name |}.

(** [set(path)] in first-occurrence order *)
Fixpoint first_occurrences (l : list string) : list string :=
  match l with
  | [] => []
  | x :: t => x :: filter (fun y => negb (String.eqb x y)) (first_occurrences t)
  end.

(** a store whose only entry has an empty body *)
Definition hollow_store : def_store :=
  {| api := [(VStr "ghost", VDict [])]; suite := [] |}.

(** the Definition store once [load_dependencies] has run on [/cases] *)
Definition loaded : result unit * state :=
  load_dependencies literal_eval_sample tree "/cases" initial.

End Samples.

(* ================================================================== *)
(** ** The TestSet checks at the end of the module *)

Module Checks.
Import Py.

Definition is_testset (data_structure : value) : bool :=
  match data_structure with
  | VDict d =>
      if negb (dict_mem d (VStr "name")) || negb (dict_mem d (VStr "cases"))
      then false
      else match dict_get d (VStr "cases") with
           | Some (VList _) => true
           | _ => false
           end
  | _ => false
  end.

Definition is_testsets (data_structure : value) : bool :=
  match data_structure with
  | VList l => forallb is_testset l
  | _ => is_testset data_structure
  end.

End Checks.

(* ================================================================== *)
(** ** Vocabulary for the properties of the remaining code *)

Module Props.
Import Text Regex Py Scanner Loader.

(** the part of a function token between the braces *)
Definition call_body (body name args : string) : Prop :=
  name <> EmptyString /\ all_chars is_word name = true /\
  all_chars is_arg_char args = true /\ body = name ++ "(" ++ args ++ ")".

(** a renaming whose parameters are all texts *)
Definition str_mapping (m : list (string * value)) : dict :=
  map (fun kv => (VStr (fst kv), snd kv)) m.

(** some text leaf or key of the value contains one of the texts *)
Fixpoint mentions (vars : list string) (v : value) : bool :=
  match v with
  | VStr s => existsb (fun var => contains var s) vars
  | VList l => existsb (mentions vars) l
  | VDict d => existsb (fun kv => mentions vars (fst kv) || mentions vars (snd kv)) d
  | _ => false
  end.

(** no key of the mapping equals a later one, and every key is hashable:
    what every Python [dict] satisfies *)
Fixpoint distinct_keys (d : dict) : bool :=
  match d with
  | [] => true
  | (k, _) :: t =>
      hashable k && forallb (fun kv => negb (py_eq k (fst kv))) t && distinct_keys t
  end.

(** a value every mapping of which, at any depth, is a Python [dict] *)
Fixpoint well_formed (v : value) : bool :=
  match v with
  | VList l => forallb well_formed l
  | VDict d =>
      distinct_keys d &&
      forallb (fun kv => well_formed (fst kv) && well_formed (snd kv)) d
  | _ => true
  end.

(** [d.get(k)], [None] for a missing key *)
Definition field (d : dict) (k : string) : value :=
  match dict_get d (VStr k) with
  | Some v => v
  | None => VNone
  end.

Fixpoint drop_final_newline (s : string) : string :=
  match s with
  | EmptyString => EmptyString
  | String c s' =>
      match s' with
      | EmptyString => if Ascii.eqb c "010" then EmptyString else s
      | _ => String c (drop_final_newline s')
      end
  end.

Definition is_id_char (c : ascii) : bool := is_word c || is_char "-" c.

(** a case id: one or more word characters or dashes, with at most one
    newline after them *)
Definition valid_case_id (id : string) : bool :=
  negb (drop_final_newline id =? EmptyString) &&
  all_chars is_id_char (drop_final_newline id).

(** a TestSet with at least one case *)
Definition has_cases (testset : value) : bool :=
  match getitem testset "cases" with
  | Ok cases => truthy cases
  | Raise _ => false
  end.

(** every memoized list holds only TestSets with at least one case *)
Definition cache_ok (c : list (string * list value)) : Prop :=
  Forall (fun kv => forallb has_cases (snd kv) = true) c.

(** a loader computation that leaves the Definition store alone *)
Definition keeps_store {A} (m : L A) : Prop :=
  forall st, overall_def_dict (snd (m st)) = overall_def_dict st.

(** the item of a case document is no project block *)
Definition not_project (item : value) : bool :=
  match single_item item with
  | Some (key, _) => negb (py_eq key (VStr "project"))
  | None => true
  end.

(** a file system with one case file whose decoding fails *)
Definition garbled : world :=
  {| isfile := fun p => p =? "/cases/bad.yaml";
     isdir := fun _ => false;
     path_exists := fun p => p =? "/cases/bad.yaml";
     walk := fun _ => [];
     abspath := fun p => p;
     getcwd := "/cases";
     read_file := fun p => Ok p;
     yaml_load := fun _ => Raise (ExternalError "yaml");
     json_load := fun _ => None;
     get_legal_filename := fun name => name |}.

End Props.

(* ================================================================== *)
(** * Facts about text and the matcher *)

Module TextFacts.
Import Text.

Lemma append_assoc (a b c : string) : (a ++ b) ++ c = a ++ (b ++ c).
Proof. induction a as [|x a IH]; simpl; [reflexivity | now rewrite IH]. Qed.

Lemma append_nil_r (a : string) : a ++ EmptyString = a.
Proof. induction a as [|x a IH]; simpl; [reflexivity | now rewrite IH]. Qed.

Lemma length_append (a b : string) :
  String.length (a ++ b) = String.length a + String.length b.
Proof. induction a as [|x a IH]; simpl; [reflexivity | now rewrite IH]. Qed.

Lemma all_chars_append p (a b : string) :
  all_chars p (a ++ b) = all_chars p a && all_chars p b.
Proof.
  induction a as [|x a IH]; simpl; [reflexivity|].
  rewrite IH. now rewrite andb_assoc.
Qed.

(** Two maximal runs of the same class that open the same text coincide. *)
Lemma run_unique p (r1 r2 t1 t2 : string) :
  all_chars p r1 = true -> all_chars p r2 = true ->
  head_is p t1 = false -> head_is p t2 = false ->
  r1 ++ t1 = r2 ++ t2 -> r1 = r2 /\ t1 = t2.
Proof.
  revert r2. induction r1 as [|c r1 IH]; intros [|d r2] A1 A2 H1 H2 E; simpl in *.
  - auto.
  - subst t1. simpl in H1. apply andb_prop in A2. destruct A2 as [A2 _]. congruence.
  - subst t2. simpl in H2. apply andb_prop in A1. destruct A1 as [A1 _]. congruence.
  - injection E as -> E. apply andb_prop in A1, A2.
    destruct A1 as [_ A1], A2 as [_ A2].
    destruct (IH r2 A1 A2 H1 H2 E) as [-> ->]. auto.
Qed.

Lemma has_char_append c (a b : string) :
  has_char c (a ++ b) = has_char c a || has_char c b.
Proof.
  induction a as [|x a IH]; simpl; [reflexivity|].
  rewrite IH. now rewrite orb_assoc.
Qed.

Lemma lstrip_has_char c s : has_char c s = false -> has_char c (lstrip s) = false.
Proof.
  induction s as [|x s IH]; simpl; intros H; [reflexivity|].
  apply orb_false_elim in H. destruct H as [Hx Hs].
  destruct (is_space x); simpl; [auto | now rewrite Hx, Hs].
Qed.

Lemma rstrip_has_char c s : has_char c s = false -> has_char c (rstrip s) = false.
Proof.
  induction s as [|x s IH]; simpl; intros H; [reflexivity|].
  apply orb_false_elim in H. destruct H as [Hx Hs].
  destruct (is_space x && (rstrip s =? EmptyString)); simpl; [reflexivity|].
  now rewrite Hx, IH.
Qed.

Lemma strip_has_char c s : has_char c s = false -> has_char c (strip s) = false.
Proof. intros H. unfold strip. now apply rstrip_has_char, lstrip_has_char. Qed.

End TextFacts.

Module RegexFacts.
Import Text Regex Spec TextFacts.

Lemma group_tagged_same g run cs :
  group g (tagged g run ++ cs)%list = run ++ group g cs.
Proof.
  induction run as [|c run IH]; simpl; [reflexivity|].
  now rewrite Nat.eqb_refl, IH.
Qed.

Lemma group_tagged_other g h run cs :
  h <> g -> group g (tagged h run ++ cs)%list = group g cs.
Proof.
  intros N. induction run as [|c run IH]; simpl; [reflexivity|].
  apply Nat.eqb_neq in N. now rewrite N.
Qed.

(** The matcher only answers with a real match ... *)
Lemma match_star_sound p g k s cs rest :
  match_star p g k s = Some (cs, rest) ->
  exists run tail cs',
    s = run ++ tail /\ all_chars p run = true /\
    k tail = Some (cs', rest) /\ cs = (tagged g run ++ cs')%list.
Proof.
  revert cs rest. induction s as [|c s IH]; simpl; intros cs rest H.
  - exists EmptyString, EmptyString, cs. auto.
  - destruct (p c) eqn:Pc.
    + destruct (match_star p g k s) as [[cs1 r1]|] eqn:E.
      * injection H as <- <-.
        destruct (IH _ _ eq_refl) as (run & tail & cs' & -> & A & K & ->).
        exists (String c run), tail, cs'. simpl. rewrite Pc, A. auto.
      * exists EmptyString, (String c s), cs. auto.
    + exists EmptyString, (String c s), cs. auto.
Qed.

(** ... and gives up only when no split of the run lets the rest match. *)
Lemma match_star_none p g k s :
  match_star p g k s = None ->
  forall run tail, s = run ++ tail -> all_chars p run = true -> k tail = None.
Proof.
  induction s as [|c s IH]; simpl; intros H run tail E A.
  - destruct run; simpl in E; [now subst | discriminate].
  - destruct run as [|d run]; simpl in E.
    + subst tail. destruct (p c); [|assumption].
      now destruct (match_star p g k s) as [[? ?]|].
    + injection E as <- E. simpl in A. apply andb_prop in A. destruct A as [Pc A].
      rewrite Pc in H. destruct (match_star p g k s) as [[? ?]|] eqn:M; [discriminate|].
      now apply (IH eq_refl run).
Qed.

Lemma match_items_sound its : forall s cs rest,
  match_items its s = Some (cs, rest) -> matches its s cs rest.
Proof.
  induction its as [|[p q g|] r IH]; intros s cs rest H.
  - simpl in H. injection H as <- <-. constructor.
  - destruct q; simpl in H.
    + destruct s as [|c s]; [discriminate|]. destruct (p c) eqn:Pc; [|discriminate].
      destruct (match_items r s) as [[cs1 r1]|] eqn:E; [|discriminate].
      injection H as <- <-. constructor; auto.
    + apply match_star_sound in H. destruct H as (run & tail & cs' & -> & A & K & ->).
      constructor; auto.
    + destruct s as [|c s]; [discriminate|]. destruct (p c) eqn:Pc; [|discriminate].
      destruct (match_star p g (match_items r) s) as [[cs1 r1]|] eqn:E; [|discriminate].
      injection H as <- <-.
      apply match_star_sound in E. destruct E as (run & tail & cs' & -> & A & K & ->).
      constructor; auto.
  - simpl in H. destruct (at_end s) eqn:E; [|discriminate]. constructor; auto.
Qed.

Lemma match_items_complete its : forall s,
  match_items its s = None -> forall cs rest, ~ matches its s cs rest.
Proof.
  induction its as [|[p q g|] r IH]; intros s H cs rest M.
  - discriminate.
  - destruct q; inversion M; subst; simpl in H;
      repeat match goal with Hp : p _ = true |- _ => rewrite Hp in H; clear Hp end.
    + match type of H with
      | tag _ _ ?o = None => destruct o as [[? ?]|] eqn:E; [discriminate|]
      end.
      eapply IH; eauto.
    + eapply IH; [|eassumption]. eapply match_star_none; eauto.
    + match type of H with
      | tag _ _ ?o = None => destruct o as [[? ?]|] eqn:E; [discriminate|]
      end.
      eapply IH; [|eassumption]. eapply match_star_none; eauto.
  - simpl in H. inversion M; subst.
    match goal with Hp : at_end _ = true |- _ => rewrite Hp in H end.
    eapply IH; eauto.
Qed.

(** A match of a pattern that opens with a single character consumes it. *)
Lemma matches_suffix its : forall s cs rest,
  matches its s cs rest -> exists m, s = m ++ rest.
Proof.
  intros s cs rest M. induction M.
  - now exists EmptyString.
  - destruct IHM as [m ->]. now exists (String c m).
  - destruct IHM as [m ->]. exists (run ++ m). now rewrite append_assoc.
  - destruct IHM as [m ->]. exists (String c (run ++ m)). simpl. now rewrite append_assoc.
  - assumption.
Qed.

Lemma matches_progress p g r s cs rest :
  matches (Cls p One g :: r) s cs rest -> exists m, m <> EmptyString /\ s = m ++ rest.
Proof.
  intros M. inversion M as [| ? ? ? c s0 cs0 ? Pc M0 | | |]; subst.
  destruct (matches_suffix _ _ _ _ M0) as [m ->].
  exists (String c m). split; [discriminate | reflexivity].
Qed.

Lemma findall_aux_skip its m rest :
  findall_aux its (m ++ rest) (String.length m) = findall_aux its rest 0.
Proof. induction m as [|c m IH]; simpl; [reflexivity | assumption]. Qed.

(** [findall] performs the scan of the specification, for any pattern whose
    matches are exactly the tokens. *)
Lemma findall_scan its token :
  (forall s cs rest, match_items its s = Some (cs, rest) ->
     token s (group 1 cs) rest /\ exists m, m <> EmptyString /\ s = m ++ rest) ->
  (forall s, match_items its s = None -> forall body rest, ~ token s body rest) ->
  forall s, scan token s (findall its s).
Proof.
  intros Hs Hc s. unfold findall.
  remember (String.length s) as n eqn:En.
  revert s En. induction n as [n IH] using lt_wf_ind. intros s En.
  destruct s as [|c s]; simpl.
  - constructor.
  - destruct (match_items its (String c s)) as [[cs rest]|] eqn:E.
    + destruct (Hs _ _ _ E) as [T (m & Nm & Em)].
      destruct m as [|d m]; [congruence|]. simpl in Em. injection Em as <- ->.
      match goal with
      | |- scan _ _ (_ :: findall_aux _ _ ?k) =>
          replace k with (String.length m)
            by (rewrite length_append; destruct (String.length rest); lia)
      end.
      rewrite findall_aux_skip.
      eapply scan_take; [exact T|].
      eapply IH; [|reflexivity]. subst n. simpl. rewrite length_append. lia.
    + apply scan_skip; [now apply Hc|].
      eapply IH; [|reflexivity]. subst n. simpl. lia.
Qed.

End RegexFacts.

(* ================================================================== *)
(** * The content scanner *)

Module ScannerFacts.
Import Text Regex Py Scanner Spec TextFacts RegexFacts.

Lemma is_char_eq c d : is_char c d = true -> d = c.
Proof. unfold is_char. intros H. apply Ascii.eqb_eq in H. congruence. Qed.

(** With nothing left to match, the greedy run is the longest one. *)
Lemma match_star_longest p g s :
  exists run tail,
    match_star p g (fun t => Some ([], t)) s = Some (tagged g run, tail) /\
    s = run ++ tail /\ all_chars p run = true /\ head_is p tail = false.
Proof.
  induction s as [|c s (run & tail & M & E & A & H)]; simpl.
  - exists EmptyString, EmptyString. auto.
  - destruct (p c) eqn:Pc.
    + rewrite M. exists (String c run), tail. simpl. rewrite Pc, A, <- E. auto.
    + exists EmptyString, (String c s). simpl. auto.
Qed.

Lemma variable_sound s cs rest :
  match_items variable_regexp s = Some (cs, rest) ->
  variable_token s (group 1 cs) rest.
Proof.
  unfold variable_regexp. cbn [match_items]. destruct s as [|c s]; [discriminate|].
  destruct (is_char "$" c) eqn:C; [|discriminate]. apply is_char_eq in C. subst c.
  destruct s as [|d s]; [discriminate|].
  destruct (is_word d) eqn:D; [|discriminate].
  destruct (match_star_longest is_word 1 s) as (run & tail & M & E & A & H).
  rewrite M. cbn [tag]. intros X. injection X as <- <-. cbn [group Nat.eqb].
  replace (group 1 (tagged 1 run)) with run
    by (rewrite <- (app_nil_r (tagged 1 run)), group_tagged_same; simpl;
        now rewrite append_nil_r).
  repeat split; [discriminate | simpl; now rewrite D, A | assumption | now rewrite E].
Qed.

Lemma variable_matches s name rest :
  variable_token s name rest -> exists cs, matches variable_regexp s cs rest.
Proof.
  intros (N & A & H & ->). destruct name as [|c run]; [congruence|].
  simpl in A. apply andb_prop in A. destruct A as [Pc A].
  eexists. simpl. apply matches_one; [reflexivity|].
  apply matches_plus; [assumption | assumption | apply matches_nil].
Qed.

Lemma function_sound s cs rest :
  match_items function_regexp s = Some (cs, rest) ->
  function_token s (group 1 cs) rest.
Proof.
  intros H. apply match_items_sound in H. unfold function_regexp in H.
  repeat match goal with
         | M : matches (_ :: _) _ _ _ |- _ => inversion M; subst; clear M
         | M : matches [] _ _ _ |- _ => inversion M; subst; clear M
         | C : is_char _ _ = true |- _ => apply is_char_eq in C; subst
         end.
  match goal with
  | W : is_word ?c = true, R : all_chars is_word ?run = true,
    G : all_chars is_arg_char ?args = true |- _ =>
      exists (String c run), args
  end.
  repeat split; try discriminate; try assumption.
  - simpl. match goal with W : is_word _ = true |- _ => now rewrite W end.
  - simpl. rewrite group_tagged_same. simpl. rewrite group_tagged_same. reflexivity.
  - simpl. rewrite group_tagged_same. simpl. rewrite group_tagged_same. simpl.
    rewrite !append_assoc. simpl. rewrite !append_assoc. reflexivity.
Qed.

Lemma function_matches s body rest :
  function_token s body rest -> exists cs, matches function_regexp s cs rest.
Proof.
  intros (name & args & N & A & G & -> & ->). destruct name as [|c run]; [congruence|].
  simpl in A. apply andb_prop in A. destruct A as [Pc A].
  eexists. simpl. rewrite !append_assoc. simpl. rewrite !append_assoc. simpl.
  apply matches_one; [reflexivity|]. apply matches_one; [reflexivity|].
  apply matches_plus; [assumption | assumption |].
  apply matches_one; [reflexivity|].
  apply matches_star; [assumption|].
  apply matches_one; [reflexivity|]. apply matches_one; [reflexivity|].
  apply matches_nil.
Qed.

Lemma variable_token_unique s n1 r1 n2 r2 :
  variable_token s n1 r1 -> variable_token s n2 r2 -> n1 = n2 /\ r1 = r2.
Proof.
  intros (_ & A1 & H1 & ->) (_ & A2 & H2 & E). simpl in E. injection E as E.
  now apply (run_unique is_word).
Qed.

Lemma function_token_unique s b1 r1 b2 r2 :
  function_token s b1 r1 -> function_token s b2 r2 -> b1 = b2 /\ r1 = r2.
Proof.
  intros (n1 & a1 & _ & A1 & G1 & -> & ->) (n2 & a2 & _ & A2 & G2 & -> & E).
  simpl in E. injection E as E. rewrite !append_assoc in E.
  apply (run_unique is_word) in E; try assumption; try reflexivity.
  destruct E as [-> E]. simpl in E. injection E as E. rewrite !append_assoc in E.
  apply (run_unique is_arg_char) in E; try assumption; try reflexivity.
  destruct E as [-> E]. simpl in E. injection E as E. auto.
Qed.

(** A scan has one outcome when a text opens with at most one token. *)
Lemma scan_functional token :
  (forall s b1 r1 b2 r2, token s b1 r1 -> token s b2 r2 -> b1 = b2 /\ r1 = r2) ->
  (forall b r, ~ token EmptyString b r) ->
  forall s l1, scan token s l1 -> forall l2, scan token s l2 -> l1 = l2.
Proof.
  intros U E s l1 S1. induction S1 as [|c s l1 N1 S1 IH|s b r l1 T1 S1 IH];
    intros l2 S2.
  - inversion S2; subst; [reflexivity|]. exfalso. eapply E; eauto.
  - inversion S2; subst; [now apply IH|]. exfalso. eapply N1; eauto.
  - inversion S2; subst.
    + exfalso. eapply E; eauto.
    + exfalso. match goal with N : forall _ _, ~ token _ _ _ |- _ => eapply N; eauto end.
    + match goal with T2 : token _ _ _ |- _ => destruct (U _ _ _ _ _ T1 T2) as [-> ->] end.
      f_equal. now apply IH.
Qed.

Lemma extract_variables_scan s :
  scan variable_token s (extract_variables (VStr s)).
Proof.
  apply findall_scan.
  - intros t cs rest H. split; [now apply variable_sound|].
    apply match_items_sound in H. eapply matches_progress; eassumption.
  - intros t H body rest T. destruct (variable_matches _ _ _ T) as [cs M].
    eapply match_items_complete; eassumption.
Qed.

Lemma extract_functions_scan s :
  scan function_token s (extract_functions (VStr s)).
Proof.
  apply findall_scan.
  - intros t cs rest H. split; [now apply function_sound|].
    apply match_items_sound in H. eapply matches_progress; eassumption.
  - intros t H body rest T. destruct (function_matches _ _ _ T) as [cs M].
    eapply match_items_complete; eassumption.
Qed.

(** C9.  [extract_variables] and [extract_functions] are total functions;
    on anything but text they return the empty list, and on a text they
    return exactly the outcome of the left-to-right scan for variable tokens
    (a dollar sign and the longest run of word characters) and for function
    tokens ([${name(args)}]): the captured names, resp. call bodies, in order
    of occurrence. *)
Theorem extract_total_ordered (content : value) :
  match content with
  | VStr s =>
      (forall names, scan variable_token s names <-> names = extract_variables content) /\
      (forall bodies, scan function_token s bodies <-> bodies = extract_functions content)
  | _ => extract_variables content = [] /\ extract_functions content = []
  end.
Proof.
  destruct content as [| | |s| |]; try (split; reflexivity).
  split; intros l; split.
  - intros S. eapply scan_functional; try eassumption.
    + apply variable_token_unique.
    + intros b r (_ & _ & _ & E). discriminate.
    + apply extract_variables_scan.
  - intros ->. apply extract_variables_scan.
  - intros S. eapply scan_functional; try eassumption.
    + apply function_token_unique.
    + intros b r (n & a & _ & _ & _ & _ & E). discriminate.
    + apply extract_functions_scan.
  - intros ->. apply extract_functions_scan.
Qed.

End ScannerFacts.

(* ================================================================== *)
(** * The evaluation engine *)

Module ParserFacts.
Import Text Regex Py Scanner Parser Samples TextFacts.

Lemma no_dollar_no_match g its s :
  has_char "$" s = false ->
  findall (Cls (is_char "$") One g :: its) s = [].
Proof.
  unfold findall. induction s as [|c s IH]; intros H; [reflexivity|].
  simpl in H. apply orb_false_elim in H. destruct H as [Hc Hs].
  cbn [findall_aux match_items]. unfold is_char. rewrite Ascii.eqb_sym, Hc.
  now apply IH.
Qed.

Section Engine.

Variable literal_eval : string -> result value.
Variable search_conf_function : string -> string -> result pyfun.
Variable search_conf_variable : string -> string -> result value.
Variable self : TestCaseParser.


Lemma eval_variables_loop_events names : forall content t r,
  eval_variables_loop search_conf_variable self names content = (t, r) ->
  forallb is_variables_event t = true.
Proof.
  induction names as [|name names IH]; intros content t r H;
    cbn [eval_variables_loop] in H.
  - injection H as <- _. reflexivity.
  - unfold mbind, lift, log, raise in H.
    destruct (get_bind_variable search_conf_variable self name) as [v|e].
    + destruct (py_eq (VStr ("$" ++ name)) content).
      * destruct (eval_variables_loop search_conf_variable self names v)
          as [t' r'] eqn:E.
        injection H as <- _. simpl. eapply IH; eassumption.
      * destruct content; try (injection H as <- _; reflexivity).
        match type of H with
        | context [eval_variables_loop ?a ?b ?c ?d] =>
            destruct (eval_variables_loop a b c d) as [t' r'] eqn:E
        end.
        injection H as <- _. simpl. eapply IH; eassumption.
    + injection H as <- _. reflexivity.
Qed.

(** C3 (as amended).  A text without a dollar sign holds no token: the
    engine returns it with the white space at both ends stripped, logs
    nothing and calls nothing, whatever the bindings. *)
Theorem evaluate_plain_text (fuel : nat) (s : string) :
  has_char "$" s = false ->
  eval_content_with_bind_actions literal_eval search_conf_function
    search_conf_variable self (S fuel) (VStr s) = ([], Ok (VStr (strip s))).
Proof.
  intros H. apply strip_has_char in H.
  cbn [eval_content_with_bind_actions].
  unfold _eval_content_functions, extract_functions, function_regexp.
  rewrite (no_dollar_no_match _ _ _ H). cbn [eval_functions_loop].
  unfold ret, mbind, _eval_content_variables, extract_variables, variable_regexp.
  rewrite (no_dollar_no_match _ _ _ H). reflexivity.
Qed.

(** C4 (as amended).  The log of evaluating one text leaf is the log of the
    function pass over the stripped text (which evaluates the arguments of
    each call, variable tokens included, before calling it) followed by the
    log of the variable pass over what the function pass returned; the
    second part holds no function entry, and when the function pass raises
    the variable pass does not run. *)
Theorem functions_before_variables (fuel : nat) (s : string) t r :
  eval_content_with_bind_actions literal_eval search_conf_function
    search_conf_variable self (S fuel) (VStr s) = (t, r) ->
  exists t1 r1 t2,
    _eval_content_functions literal_eval search_conf_function self
      (eval_content_with_bind_actions literal_eval search_conf_function
         search_conf_variable self fuel)
      (VStr (strip s)) = (t1, r1) /\
    t = (t1 ++ t2)%list /\
    forallb is_variables_event t2 = true /\
    match r1 with
    | Ok content => _eval_content_variables search_conf_variable self content = (t2, r)
    | Raise e => t2 = [] /\ r = Raise e
    end.
Proof.
  cbn [eval_content_with_bind_actions]. intros H.
  destruct (_eval_content_functions literal_eval search_conf_function self
              (eval_content_with_bind_actions literal_eval search_conf_function
                 search_conf_variable self fuel) (VStr (strip s)))
    as [t1 [content|e]] eqn:F; simpl in H.
  - destruct (_eval_content_variables search_conf_variable self content)
      as [t2 r2] eqn:V.
    injection H as <- <-. exists t1, (Ok content), t2. repeat split; auto.
    eapply eval_variables_loop_events. exact V.
  - injection H as <- <-. exists t1, (Raise e), []. rewrite app_nil_r. auto.
Qed.

End Engine.

(** ** Fuel: three levels are all the engine ever descends

    A text leaf (level 1) evaluates the argument list and the keyword mapping
    of each of its function tokens (level 2), whose items (level 3) hold no
    function token, since the argument class has no brace. *)

Lemma all_chars_has_char p c s :
  all_chars p s = true -> p c = false -> has_char c s = false.
Proof.
  induction s as [|d s IH]; simpl; intros A N; [reflexivity|].
  apply andb_prop in A. destruct A as [Pd A]. rewrite (IH A N), orb_false_r.
  destruct (Ascii.eqb d c) eqn:E; [|reflexivity].
  apply Ascii.eqb_eq in E. congruence.
Qed.

Lemma no_brace_no_function s :
  has_char "{" s = false -> findall function_regexp s = [].
Proof.
  unfold findall, function_regexp. induction s as [|c s IH]; intros H; [reflexivity|].
  simpl in H. apply orb_false_elim in H. destruct H as [Hc Hs].
  cbn [findall_aux]. rewrite (IH Hs).
  cbn [match_items]. destruct (is_char "$" c); [|reflexivity].
  destruct s as [|d s]; [reflexivity|].
  simpl in Hs. apply orb_false_elim in Hs. destruct Hs as [Hd _].
  unfold is_char at 1. now rewrite Ascii.eqb_sym, Hd.
Qed.

Lemma scan_bodies_brace_free s bodies :
  Spec.scan Spec.function_token s bodies ->
  Forall (fun b => has_char "{" b = false) bodies.
Proof.
  induction 1 as [| |s body rest bodies T S IH]; auto.
  constructor; [|assumption].
  destruct T as (name & args & _ & A & G & -> & _).
  rewrite !has_char_append.
  rewrite (all_chars_has_char is_word "{" _ A eq_refl),
          (all_chars_has_char is_arg_char "{" _ G eq_refl).
  reflexivity.
Qed.

Lemma matches_group_chars c g its s cs rest :
  Spec.matches its s cs rest -> has_char c s = false -> has_char c (group g cs) = false.
Proof.
  induction 1 as [s|p h r d s cs rest Pd M IH|p h r run s cs rest A M IH
                 |p h r d run s cs rest Pd A M IH|r s cs rest E M IH]; intros H.
  - reflexivity.
  - simpl in H. apply orb_false_elim in H. destruct H as [Hd Hs].
    simpl. destruct (Nat.eqb h g); simpl; [now rewrite Hd, IH | auto].
  - rewrite has_char_append in H. apply orb_false_elim in H. destruct H as [Hr Hs].
    destruct (Nat.eqb h g) eqn:E.
    + apply Nat.eqb_eq in E. subst h. rewrite RegexFacts.group_tagged_same.
      now rewrite has_char_append, Hr, IH.
    + apply Nat.eqb_neq in E. rewrite RegexFacts.group_tagged_other; auto.
  - simpl in H. apply orb_false_elim in H. destruct H as [Hd H].
    rewrite has_char_append in H. apply orb_false_elim in H. destruct H as [Hr Hs].
    cbn [group]. destruct (Nat.eqb h g) eqn:E.
    + apply Nat.eqb_eq in E. subst h. rewrite RegexFacts.group_tagged_same.
      simpl. now rewrite Hd, has_char_append, Hr, IH.
    + apply Nat.eqb_neq in E. rewrite RegexFacts.group_tagged_other; auto.
  - auto.
Qed.

Lemma replace_blank_chars c s n :
  has_char c s = false -> has_char c (replace_nonempty " " EmptyString s n) = false.
Proof.
  revert n. induction s as [|d s IH]; intros n H; [reflexivity|].
  simpl in H. apply orb_false_elim in H. destruct H as [Hd Hs].
  cbn [replace_nonempty]. destruct n; [|auto].
  destruct (prefix " " (String d s)); simpl; [auto | now rewrite Hd, IH].
Qed.

Lemma split_on_chars c sep s :
  has_char c s = false -> Forall (fun piece => has_char c piece = false) (split_on sep s).
Proof.
  induction s as [|d s IH]; simpl; intros H; [repeat constructor|].
  apply orb_false_elim in H. destruct H as [Hd Hs]. specialize (IH Hs).
  destruct (Ascii.eqb d sep); [constructor; auto|].
  destruct (split_on sep s) as [|h t]; [repeat constructor; simpl; now rewrite Hd|].
  inversion IH; subst. constructor; [simpl; now rewrite Hd | assumption].
Qed.

Lemma dict_set_flat d k v :
  Spec.flat_dict d -> Spec.brace_free k = true -> Spec.brace_free v = true ->
  Spec.flat_dict (dict_set d k v).
Proof.
  unfold Spec.flat_dict. induction d as [|[k' v'] d IH]; simpl; intros F K V.
  - repeat constructor; assumption.
  - inversion F as [|? ? [Hk Hv] Hd]; subst.
    destruct (py_eq k' k); constructor; simpl; auto.
Qed.

Section Fuel.

Variable literal_eval : string -> result value.
Variable search_conf_function : string -> string -> result pyfun.
Variable search_conf_variable : string -> string -> result value.
Variable self : TestCaseParser.

Hypothesis literal_atomic :
  forall a v, literal_eval a = Ok v -> Spec.atomic v = true.

Lemma parse_string_value_flat a v :
  has_char "{" a = false ->
  parse_string_value literal_eval a = Ok v -> Spec.brace_free v = true.
Proof.
  intros H. unfold parse_string_value. destruct (literal_eval a) as [v'|e] eqn:E.
  - intros [= <-]. apply literal_atomic in E.
    destruct v'; simpl in *; try discriminate; reflexivity.
  - destruct e; intros [= <-]; simpl; now rewrite H.
Qed.

Lemma parse_args_flat args_list : forall args kwargs r,
  Forall (fun a => has_char "{" a = false) args_list ->
  Forall (fun v => Spec.brace_free v = true) args -> Spec.flat_dict kwargs ->
  parse_args literal_eval args_list args kwargs = Ok r ->
  Forall (fun v => Spec.brace_free v = true) (fst r) /\ Spec.flat_dict (snd r).
Proof.
  induction args_list as [|arg rest IH]; intros args kwargs r F A K H.
  - injection H as <-. auto.
  - inversion F as [|? ? Harg Hrest]; subst. cbn [parse_args] in H.
    destruct (contains "=" arg).
    + pose proof (split_on_chars "{" "=" arg Harg) as P.
      destruct (split_on "=" arg) as [|key [|v [|]]]; try discriminate.
      inversion P as [|? ? Hk P']; subst. inversion P' as [|? ? Hv _]; subst.
      destruct (parse_string_value literal_eval v) as [x|] eqn:V; [|discriminate].
      cbn [bind] in H.
      eapply IH; [exact Hrest | exact A | | exact H].
      apply dict_set_flat; [assumption | simpl; now rewrite Hk |].
      now apply (parse_string_value_flat v).
    + destruct (parse_string_value literal_eval arg) as [x|] eqn:V; [|discriminate].
      cbn [bind] in H.
      eapply IH; [exact Hrest | | exact K | exact H].
      apply Forall_app. split; [assumption|].
      constructor; [now apply (parse_string_value_flat arg) | constructor].
Qed.

Lemma parse_function_flat b meta :
  has_char "{" b = false ->
  parse_function literal_eval (VStr b) = Ok meta ->
  exists name args kwargs,
    meta = function_meta name args kwargs /\
    Forall (fun v => Spec.brace_free v = true) args /\ Spec.flat_dict kwargs.
Proof.
  intros H P. unfold parse_function in P.
  destruct (match_items function_regexp_compile b) as [[cs tail]|] eqn:M; [|discriminate].
  destruct (replace_all " " EmptyString (group 2 cs) =? EmptyString).
  - injection P as <-. exists (group 1 cs), [], []. repeat split; constructor.
  - destruct (parse_args literal_eval (split_on "," (replace_all " " EmptyString (group 2 cs)))
                [] []) as [r|] eqn:A; [|discriminate].
    injection P as <-. exists (group 1 cs), (fst r), (snd r). split; [reflexivity|].
    eapply parse_args_flat; [| constructor | constructor | exact A].
    apply split_on_chars. apply replace_blank_chars.
    eapply matches_group_chars; [|exact H]. apply RegexFacts.match_items_sound. exact M.
Qed.

(** a flat value needs one level *)
Lemma eval_flat v f g :
  Spec.brace_free v = true ->
  eval_content_with_bind_actions literal_eval search_conf_function
    search_conf_variable self (S f) v =
  eval_content_with_bind_actions literal_eval search_conf_function
    search_conf_variable self (S g) v.
Proof.
  destruct v; simpl; try discriminate; try reflexivity.
  intros H. apply negb_true_iff in H. apply strip_has_char in H.
  unfold _eval_content_functions, extract_functions.
  now rewrite (no_brace_no_function _ H).
Qed.

Lemma eval_list_ext (ev1 ev2 : value -> M value) l :
  Forall (fun x => ev1 x = ev2 x) l -> eval_list ev1 l = eval_list ev2 l.
Proof.
  induction 1 as [|x l E F IH]; simpl; [reflexivity|]. rewrite E.
  unfold mbind. destruct (ev2 x) as [t [a|e]]; [|reflexivity]. now rewrite IH.
Qed.

Lemma eval_dict_ext (ev1 ev2 : value -> M value) d :
  Forall (fun kv => ev1 (fst kv) = ev2 (fst kv) /\ ev1 (snd kv) = ev2 (snd kv)) d ->
  forall acc, eval_dict ev1 d acc = eval_dict ev2 d acc.
Proof.
  induction 1 as [|[k v] d [Ek Ev] F IH]; intros acc; simpl in *; [reflexivity|].
  rewrite Ek, Ev. unfold mbind, lift.
  destruct (ev2 k) as [t [a|e]]; [|reflexivity].
  destruct (ev2 v) as [t' [a'|e']]; [|reflexivity].
  destruct (dict_setitem acc a a') as [acc'|]; [|reflexivity].
  now rewrite IH.
Qed.

(** the argument list and the keyword mapping of a call need two levels *)
Lemma eval_arguments args kwargs f g :
  Forall (fun v => Spec.brace_free v = true) args -> Spec.flat_dict kwargs ->
  eval_content_with_bind_actions literal_eval search_conf_function
    search_conf_variable self (S (S f)) (VList args) =
  eval_content_with_bind_actions literal_eval search_conf_function
    search_conf_variable self (S (S g)) (VList args) /\
  eval_content_with_bind_actions literal_eval search_conf_function
    search_conf_variable self (S (S f)) (VDict kwargs) =
  eval_content_with_bind_actions literal_eval search_conf_function
    search_conf_variable self (S (S g)) (VDict kwargs).
Proof.
  intros A K. split.
  - cbn [eval_content_with_bind_actions].
    erewrite eval_list_ext; [reflexivity|].
    eapply Forall_impl; [|exact A]. intros v Hv. now apply eval_flat.
  - cbn [eval_content_with_bind_actions].
    erewrite eval_dict_ext; [reflexivity|].
    eapply Forall_impl; [|exact K]. intros [k v] [Hk Hv]. split; now apply eval_flat.
Qed.

Lemma mbind_ext {A B} (m : M A) (k1 k2 : A -> M B) :
  (forall t a, m = (t, Ok a) -> k1 a = k2 a) -> mbind m k1 = mbind m k2.
Proof.
  intros H. unfold mbind. destruct m as [t [a|e]]; [|reflexivity].
  now rewrite (H t a eq_refl).
Qed.

Lemma eval_functions_loop_fuel tokens f g :
  Forall (fun b => has_char "{" b = false) tokens ->
  forall content,
    eval_functions_loop literal_eval search_conf_function self
      (eval_content_with_bind_actions literal_eval search_conf_function
         search_conf_variable self (S (S f))) tokens content =
    eval_functions_loop literal_eval search_conf_function self
      (eval_content_with_bind_actions literal_eval search_conf_function
         search_conf_variable self (S (S g))) tokens content.
Proof.
  induction 1 as [|b tokens Hb F IH]; intros content; [reflexivity|].
  cbn [eval_functions_loop].
  apply mbind_ext. intros t0 meta Hm. injection Hm as _ Hm.
  destruct (parse_function_flat _ _ Hb Hm) as (name & args & kwargs & -> & A & K).
  destruct (eval_arguments args kwargs f g A K) as [Ea Ek].
  apply mbind_ext. intros t1 nm _.
  apply mbind_ext. intros t2 a Ha. injection Ha as _ <-.
  apply mbind_ext. intros t3 k Hk. injection Hk as _ <-.
  rewrite Ea. apply mbind_ext. intros t4 a' _.
  rewrite Ek. apply mbind_ext. intros t5 k' _.
  apply mbind_ext. intros t6 func _.
  apply mbind_ext. intros t7 eval_value _.
  destruct (py_eq _ content).
  - apply mbind_ext. intros. apply IH.
  - destruct content; try reflexivity. apply mbind_ext. intros. apply IH.
Qed.

(** Fuel 3 is enough for any text leaf: more fuel changes nothing. *)
Theorem eval_text_fuel (s : string) (n : nat) :
  eval_content_with_bind_actions literal_eval search_conf_function
    search_conf_variable self (3 + n) (VStr s) =
  eval_content_with_bind_actions literal_eval search_conf_function
    search_conf_variable self 3 (VStr s).
Proof.
  cbn [eval_content_with_bind_actions Nat.add]. unfold _eval_content_functions.
  rewrite (eval_functions_loop_fuel _ n 0); [reflexivity|].
  eapply scan_bodies_brace_free. apply ScannerFacts.extract_functions_scan.
Qed.

End Fuel.

(** The stripping is observable: a text with a leading blank and no token
    does not come back unchanged. *)
Lemma evaluate_plain_text_strips :
  has_char "$" " a" = false /\
  snd (evaluate 1 (VStr " a")) <> Ok (VStr " a").
Proof. split; [reflexivity | vm_compute; discriminate]. Qed.

(** A variable token inside the arguments of a call is resolved before the
    call: the log of [${add(1, $x)}] opens with a variable entry. *)
Lemma argument_variable_first :
  ~ Spec.functions_first (fst (evaluate 3 (VStr "${add(1, $x)}"))).
Proof.
  assert (E : fst (evaluate 3 (VStr "${add(1, $x)}")) =
              [LogVariables (VStr "$x") (VInt 2);
               LogFunctions (VStr "${add(1, $x)}") (VInt 3)])
    by (vm_compute; reflexivity).
  rewrite E. intros H.
  specialize (H [LogVariables (VStr "$x") (VInt 2)]
                (LogFunctions (VStr "${add(1, $x)}") (VInt 3)) [] eq_refl eq_refl).
  discriminate.
Qed.

Lemma evaluate_plain_text_witness :
  evaluate 1 (VStr "  /api/users ") = ([], Ok (VStr "/api/users")).
Proof.
  exact (evaluate_plain_text literal_eval_sample no_conf_function no_conf_variable
           bindings 0 "  /api/users " eq_refl).
Defined.

Lemma functions_before_variables_witness :
  exists t1 r1 t2,
    _eval_content_functions literal_eval_sample no_conf_function bindings
      (evaluate 2) (VStr (strip "${greet()}, $call")) = (t1, r1) /\
    [LogFunctions (VStr "${greet()}, $call") (VStr "hello $who, $call");
     LogVariables (VStr "hello $who, $call") (VStr "hello world, $call");
     LogVariables (VStr "hello world, $call") (VStr "hello world, ${add(1, 2)}")]
    = (t1 ++ t2)%list /\
    forallb is_variables_event t2 = true /\
    match r1 with
    | Ok content =>
        _eval_content_variables no_conf_variable bindings content
        = (t2, Ok (VStr "hello world, ${add(1, 2)}"))
    | Raise e => t2 = [] /\ Ok (VStr "hello world, ${add(1, 2)}") = Raise e
    end.
Proof.
  apply (functions_before_variables literal_eval_sample no_conf_function
           no_conf_variable bindings 2 "${greet()}, $call").
  vm_compute. reflexivity.
Defined.

End ParserFacts.

(* ================================================================== *)
(** * The call parser *)

Module CallParserFacts.
Import Text Regex Py Scanner Spec TextFacts.

Lemma contains_char c s : contains (String c EmptyString) s = has_char c s.
Proof.
  induction s as [|d s IH]; [reflexivity|].
  cbn [contains has_char prefix]. rewrite IH.
  destruct (ascii_dec c d) as [->|N].
  - rewrite Ascii.eqb_refl. now destruct s.
  - apply not_eq_sym in N. apply Ascii.eqb_neq in N. now rewrite N.
Qed.

Lemma split_on_no_sep c s : has_char c s = false -> split_on c s = [s].
Proof.
  induction s as [|d s IH]; simpl; intros H; [reflexivity|].
  apply orb_false_elim in H. destruct H as [Hd Hs]. now rewrite Hd, (IH Hs).
Qed.

Lemma split_on_once c s :
  count_char c s = 1 -> split_on c s = [before_char c s; after_char c s].
Proof.
  induction s as [|d s IH]; simpl; intros H; [discriminate|].
  destruct (Ascii.eqb d c) eqn:E.
  - assert (N : has_char c s = false).
    { clear IH. simpl in H. injection H as H.
      induction s as [|x s IHs]; simpl in *; [reflexivity|].
      destruct (Ascii.eqb x c); [discriminate | auto]. }
    now rewrite (split_on_no_sep _ _ N).
  - simpl in H. now rewrite (IH H).
Qed.

Lemma has_char_count c s : has_char c s = true -> 1 <= count_char c s.
Proof.
  induction s as [|d s IH]; simpl; [discriminate|].
  destruct (Ascii.eqb d c); simpl; [lia | auto].
Qed.

Section Loop.

Variable literal_eval : string -> result value.


Lemma coercible_parse a :
  coercible literal_eval a ->
  parse_string_value literal_eval a = Ok (coerced literal_eval a).
Proof.
  unfold coercible, parse_string_value, coerced. intros H.
  destruct (literal_eval a) as [v|e]; [reflexivity|].
  specialize (H e eq_refl). destruct e; try discriminate; reflexivity.
Qed.

Lemma uncaught_parse a e :
  literal_eval a = Raise e -> no_literal e = false ->
  parse_string_value literal_eval a = Raise e.
Proof.
  unfold parse_string_value. intros -> N. destruct e; try discriminate; reflexivity.
Qed.

Lemma parse_args_slots args_list : forall args kwargs,
  Forall (fun arg => count_char "=" arg <= 1) args_list ->
  Forall (fun arg => coercible literal_eval (value_text arg)) args_list ->
  parse_args literal_eval args_list args kwargs =
  Ok ((args ++ positional_slots literal_eval args_list)%list,
      fold_left
        (fun kw arg =>
           dict_set kw (VStr (before_char "=" arg))
                    (coerced literal_eval (after_char "=" arg)))
        (filter (has_char "=") args_list) kwargs).
Proof.
  induction args_list as [|arg rest IH]; intros args kwargs F G.
  - simpl. now rewrite app_nil_r.
  - inversion F as [|? ? Harg Hrest]; subst.
    inversion G as [|? ? Garg Grest]; subst.
    cbn [parse_args]. rewrite contains_char.
    unfold positional_slots. cbn [filter]. unfold value_text in Garg.
    destruct (has_char "=" arg) eqn:E; cbn [negb].
    + assert (C : count_char "=" arg = 1) by (apply has_char_count in E; lia).
      rewrite (split_on_once _ _ C). rewrite (coercible_parse _ Garg). cbn [bind].
      rewrite (IH _ _ Hrest Grest). reflexivity.
    + rewrite (coercible_parse _ Garg). cbn [bind].
      rewrite (IH _ _ Hrest Grest). unfold positional_slots. cbn [map].
      now rewrite <- app_assoc.
Qed.

(** the loop stops at the first argument whose literal evaluation raises
    anything but the two caught errors, and that exception leaves it *)
Lemma parse_args_uncaught pre arg post e : forall args kwargs,
  Forall (fun a => count_char "=" a <= 1) (pre ++ [arg]) ->
  Forall (fun a => coercible literal_eval (value_text a)) pre ->
  literal_eval (value_text arg) = Raise e -> no_literal e = false ->
  parse_args literal_eval (pre ++ arg :: post) args kwargs = Raise e.
Proof.
  induction pre as [|a pre IH]; intros args kwargs F G L N.
  - cbn [app parse_args]. rewrite contains_char. unfold value_text in L.
    inversion F as [|? ? Harg _]; subst.
    destruct (has_char "=" arg) eqn:E.
    + assert (C : count_char "=" arg = 1) by (apply has_char_count in E; lia).
      rewrite (split_on_once _ _ C). now rewrite (uncaught_parse _ _ L N).
    + now rewrite (uncaught_parse _ _ L N).
  - inversion F as [|? ? Ha Hrest]; subst. inversion G as [|? ? Ga Grest]; subst.
    cbn [app parse_args]. rewrite contains_char. unfold value_text in Ga.
    destruct (has_char "=" a) eqn:E.
    + assert (C : count_char "=" a = 1) by (apply has_char_count in E; lia).
      rewrite (split_on_once _ _ C). rewrite (coercible_parse _ Ga). cbn [bind].
      now apply IH.
    + rewrite (coercible_parse _ Ga). cbn [bind]. now apply IH.
Qed.

(** C6 (as amended).  For a call text that matches the grammar, whose
    comma-separated arguments each hold at most one equals sign and on whose
    argument values the literal evaluation returns or raises one of the two
    errors the coercion catches, every argument with an equals sign is split
    at it into a key and a coerced value that populate the keyword mapping,
    and every other argument is coerced and appended to the positional
    list. *)
Theorem parse_function_slots (content : string) cs tail :
  match_items function_regexp_compile content = Some (cs, tail) ->
  Forall (fun arg => count_char "=" arg <= 1)
         (arguments (replace_all " " EmptyString (group 2 cs))) ->
  Forall (fun arg => coercible literal_eval (value_text arg))
         (arguments (replace_all " " EmptyString (group 2 cs))) ->
  parse_function literal_eval (VStr content) =
  Ok (function_meta (group 1 cs)
        (positional_slots literal_eval (arguments (replace_all " " EmptyString (group 2 cs))))
        (keyword_slots literal_eval (arguments (replace_all " " EmptyString (group 2 cs))))).
Proof.
  intros M F G. unfold parse_function. rewrite M. unfold arguments in *.
  destruct (replace_all " " EmptyString (group 2 cs) =? EmptyString) eqn:E; [reflexivity|].
  rewrite (parse_args_slots _ [] [] F G). reflexivity.
Qed.

(** an exception of the literal evaluation other than the two caught ones
    leaves [parse_function] *)
Lemma parse_function_uncaught (content : string) cs tail pre arg post e :
  match_items function_regexp_compile content = Some (cs, tail) ->
  arguments (replace_all " " EmptyString (group 2 cs)) = (pre ++ arg :: post)%list ->
  Forall (fun a => count_char "=" a <= 1) (pre ++ [arg]) ->
  Forall (fun a => coercible literal_eval (value_text a)) pre ->
  literal_eval (value_text arg) = Raise e -> no_literal e = false ->
  parse_function literal_eval (VStr content) = Raise e.
Proof.
  intros M S F G L N. unfold parse_function. rewrite M. unfold arguments in S.
  destruct (replace_all " " EmptyString (group 2 cs) =? EmptyString) eqn:E.
  - destruct pre; discriminate.
  - rewrite S. now rewrite (parse_args_uncaught pre arg post e [] [] F G L N).
Qed.

End Loop.

(** An argument with two equals signs is rejected instead of being split
    once: unpacking the three parts raises [ValueError]. *)
Lemma parse_function_two_equals :
  (exists cs tail,
     match_items function_regexp_compile "f(a=b=c)" = Some (cs, tail)) /\
  parse_function literal_eval_sample (VStr "f(a=b=c)") = Raise ValueError.
Proof. split; [do 2 eexists|]; vm_compute; reflexivity. Qed.

(** An argument nested beyond the interpreter's limit is not coerced either:
    the [RecursionError] of the literal evaluation is not caught. *)
Lemma parse_function_deep_argument :
  (exists cs tail,
     match_items function_regexp_compile "f(k=1, ----1)" = Some (cs, tail)) /\
  parse_function (literal_eval_bounded 3) (VStr "f(k=1, ----1)") = Raise RecursionError.
Proof. split; [do 2 eexists|]; vm_compute; reflexivity. Qed.

Lemma parse_function_slots_witness :
  parse_function literal_eval_sample (VStr "func(a=1, $x, b=$y, 5)") =
  Ok (function_meta "func" [VStr "$x"; VInt 5]
        [(VStr "a", VInt 1); (VStr "b", VStr "$y")]).
Proof.
  refine (parse_function_slots literal_eval_sample "func(a=1, $x, b=$y, 5)"
            _ EmptyString eq_refl _ _).
  - vm_compute. repeat constructor.
  - repeat constructor; intros e H; vm_compute in H;
      first [discriminate | injection H as <-; reflexivity].
Defined.

End CallParserFacts.

(* ================================================================== *)
(** * Resolution and merge of Definitions *)

Module ResolutionFacts.
Import Text Regex Py Scanner Substitution Loader Spec Samples.

Lemma get_test_definition_absent d name ref_type :
  dict_get (store_get d ref_type) name = None ->
  _get_test_definition d name ref_type = Raise (not_found ref_type name).
Proof.
  intros H. unfold _get_test_definition, not_found. rewrite H.
  now destruct (ref_type =? "api").
Qed.

Section Resolution.

Variable literal_eval : string -> result value.

(** C5.  Once the call text is parsed and the Definition found, resolution
    raises the params error whenever the number of positional arguments
    differs from the number of declared parameters, whatever the renaming
    would have done; hence a resolution that succeeds had equal counts. *)
Theorem arity_checked d ref_call ref_type name call_args kwargs blk def_meta def_args :
  parse_function literal_eval ref_call = Ok (function_meta name call_args kwargs) ->
  _get_test_definition d (VStr name) ref_type = Ok blk ->
  get_method blk "function_meta" VNone = Ok def_meta ->
  get_method def_meta "args" (VList []) = Ok (VList def_args) ->
  (List.length call_args <> List.length def_args ->
   _get_block_by_name literal_eval d ref_call ref_type =
   Raise (ParamsError "call args mismatch defined args!")) /\
  (forall resolved,
     _get_block_by_name literal_eval d ref_call ref_type = Ok resolved ->
     List.length call_args = List.length def_args).
Proof.
  intros P D F A. unfold _get_block_by_name. rewrite P. cbn [bind].
  change (getitem (function_meta name call_args kwargs) "func_name") with (Ok (VStr name)).
  change (getitem (function_meta name call_args kwargs) "args") with (Ok (VList call_args)).
  cbn [bind]. rewrite D. cbn [bind]. rewrite F. cbn [bind]. rewrite A. cbn [bind py_len].
  destruct (Nat.eqb (List.length call_args) (List.length def_args)) eqn:E; cbn [negb].
  - apply Nat.eqb_eq in E. split; [intros N; contradiction | auto].
  - apply Nat.eqb_neq in E. split; [reflexivity | discriminate].
Qed.

(** C10.  A registered name whose stored body is falsy resolves like a name
    that was never registered: the lookup, and any reference call naming it,
    raise the api-not-found error for the kind "api" and the suite-not-found
    error otherwise. *)
Theorem falsy_definition_not_found d name ref_type body :
  dict_get (store_get d ref_type) (VStr name) = Some body ->
  truthy body = false ->
  _get_test_definition d (VStr name) ref_type = Raise (not_found ref_type (VStr name)) /\
  (forall d', dict_get (store_get d' ref_type) (VStr name) = None ->
              _get_test_definition d' (VStr name) ref_type =
              _get_test_definition d (VStr name) ref_type) /\
  (forall ref_call args kwargs,
     parse_function literal_eval ref_call = Ok (function_meta name args kwargs) ->
     _get_block_by_name literal_eval d ref_call ref_type =
     Raise (not_found ref_type (VStr name))).
Proof.
  intros G T.
  assert (R : _get_test_definition d (VStr name) ref_type =
              Raise (not_found ref_type (VStr name))).
  { unfold _get_test_definition, not_found. rewrite G, T.
    now destruct (ref_type =? "api"). }
  split; [exact R|]. split.
  - intros d' G'. rewrite R. now apply get_test_definition_absent.
  - intros ref_call args kwargs P. unfold _get_block_by_name. rewrite P. cbn [bind].
    change (getitem (function_meta name args kwargs) "func_name") with (Ok (VStr name)).
    change (getitem (function_meta name args kwargs) "args") with (Ok (VList args)).
    cbn [bind]. rewrite R. reflexivity.
Qed.

End Resolution.

Lemma arity_checked_witness :
  _get_block_by_name literal_eval_sample (overall_def_dict (snd loaded))
    (VStr "login($u, $p, $extra)") "api"
  = Raise (ParamsError "call args mismatch defined args!").
Proof.
  refine (proj1 (arity_checked literal_eval_sample (overall_def_dict (snd loaded))
                   (VStr "login($u, $p, $extra)") "api" "login"
                   [VStr "$u"; VStr "$p"; VStr "$extra"] []
                   _ _ [VStr "username"; VStr "password"]
                   eq_refl eq_refl eq_refl eq_refl) _).
  simpl. lia.
Defined.

Lemma falsy_definition_not_found_witness :
  _get_block_by_name literal_eval_sample hollow_store (VStr "ghost()") "api"
  = Raise (ApiNotFound "ghost not found!").
Proof.
  exact (proj2 (proj2 (falsy_definition_not_found literal_eval_sample hollow_store
                         "ghost" "api" (VDict []) eq_refl eq_refl))
           (VStr "ghost()") [] [] eq_refl).
Defined.

(** ** The merge of the three list-valued fields *)

(** One side only: the merged field is that side's value. *)
Lemma merge_field_one_side def_x current_x :
  truthy def_x = false \/ truthy current_x = false ->
  merge_field def_x current_x = Ok (if truthy def_x then def_x else current_x).
Proof.
  unfold merge_field. intros [H|H]; rewrite H; cbn [negb]; [reflexivity|].
  now destruct (truthy def_x).
Qed.

(** Both sides: the ladder stores what [list.extend] returns. *)
Lemma merge_field_both_sides (defs currents : list value) :
  defs <> [] -> currents <> [] ->
  merge_field (VList defs) (VList currents) = Ok VNone.
Proof. intros D C. destruct defs, currents; try congruence; reflexivity. Qed.

(** C1 (the code departs from it).  Merging the case [{pre_command: [X]}]
    with the Definition [{pre_command: [Y]}] leaves [pre_command] set to
    [None], not to [[X, Y]]: the field receives the result of
    [current_pre.extend(def_pre)]. *)
Theorem override_block_both_sides :
  _override_block (str_dict [("pre_command", VList [VStr "Y"])])
                  (str_dict [("pre_command", VList [VStr "X"])])
  = Ok (str_dict [("pre_command", VNone); ("post_command", VNone); ("verify", VNone)])
  /\ VNone <> VList [VStr "X"; VStr "Y"].
Proof. split; [vm_compute; reflexivity | discriminate]. Qed.

End ResolutionFacts.

(* ================================================================== *)
(** * Loading case files *)

Module LoaderFacts.
Import Text Regex Py Scanner Substitution Path Loader Spec Samples.

Lemma py_eq_str k a : py_eq k (VStr a) = true -> k = VStr a.
Proof.
  destruct k; simpl; try discriminate. intros H. apply String.eqb_eq in H. now subst.
Qed.

Lemma dict_get_set d a b v :
  dict_get (dict_set d (VStr a) v) (VStr b) =
  if a =? b then Some v else dict_get d (VStr b).
Proof.
  induction d as [|[k x] d IH]; simpl.
  - destruct (a =? b); reflexivity.
  - destruct (py_eq k (VStr a)) eqn:E; simpl.
    + apply py_eq_str in E. subst k. simpl. now destruct (a =? b).
    + rewrite IH. destruct (py_eq k (VStr b)) eqn:E'; [|reflexivity].
      apply py_eq_str in E'. subst k. simpl in E. rewrite String.eqb_sym in E.
      now rewrite E.
Qed.

Lemma getitem_set_key ts k v ts' k' :
  set_key ts k v = Ok ts' ->
  getitem ts' k' = if k =? k' then Ok v else getitem ts k'.
Proof.
  destruct ts; simpl; try discriminate. intros H. injection H as <-.
  simpl. rewrite dict_get_set. now destruct (k =? k').
Qed.

Lemma testset_set_other p ts k v ts' :
  is_testset_for p ts -> set_key ts k v = Ok ts' ->
  (k =? "file_path") = false ->
  ((k =? "project") = true -> exists d, v = VDict d) ->
  ((k =? "cases") = true -> exists l, v = VList l) ->
  is_testset_for p ts'.
Proof.
  intros (F & [d P] & [l C]) S Nf Hp Hc. unfold is_testset_for.
  rewrite !(getitem_set_key _ _ _ _ _ S), Nf.
  split; [assumption|]. split.
  - destruct (k =? "project"); [destruct Hp as [d' ->]; eauto | eauto].
  - destruct (k =? "cases"); [destruct Hc as [l' ->]; eauto | eauto].
Qed.

Lemma append_cases_testset p ts new ts' :
  is_testset_for p ts -> append_cases ts new = Ok ts' -> is_testset_for p ts'.
Proof.
  intros I. unfold append_cases. destruct (getitem ts "cases") as [c|]; [|discriminate].
  simpl. destruct c; try discriminate. intros S.
  eapply testset_set_other; try eassumption; try reflexivity; try discriminate.
  intros _. eauto.
Qed.

Section Assembler.

Variable literal_eval : string -> result value.
Variable w : world.

Ltac run H :=
  repeat (unfold lbind, llift, lraise, lret, get_store in H; cbn beta iota in H;
          match type of H with
          | (let (_, _) := ?x in _) = _ => destruct x eqn:?
          | match ?x with _ => _ end = _ => destruct x eqn:?
          | match ?x with _ => _ end _ = _ => destruct x eqn:?
          | (if ?x then _ else _) = _ => destruct x eqn:?
          | (if ?x then _ else _) _ = _ => destruct x eqn:?
          end);
  try discriminate.

Lemma load_case_testset p test_block ts st ts' st' :
  is_testset_for p ts ->
  load_case literal_eval w test_block ts st = (Ok ts', st') ->
  is_testset_for p ts'.
Proof.
  intros I H. unfold load_case in H. run H;
    injection H as H _; eapply append_cases_testset; eassumption.
Qed.

Lemma load_item_testset p item ts st ts' st' :
  is_testset_for p ts ->
  load_item literal_eval w p item ts st = (Ok ts', st') ->
  is_testset_for p ts'.
Proof.
  intros I H. unfold load_item in H.
  destruct (single_item item) as [[key [| | | | |test_block]]|]; try discriminate.
  destruct (py_eq key (VStr "project")).
  - run H. injection H as H _.
    eapply testset_set_other; [| exact H | reflexivity | discriminate | discriminate].
    eapply testset_set_other; [exact I | eassumption | reflexivity | eauto | discriminate].
  - destruct (py_eq key (VStr "case")).
    + eapply load_case_testset; eassumption.
    + unfold lbind, emit, lret in H. injection H as <- _. assumption.
Qed.

Lemma load_items_testset p items : forall ts st,
  is_testset_for p ts ->
  is_testset_for p (fst (fst (load_items literal_eval w p items ts st))).
Proof.
  induction items as [|item items IH]; intros ts st I; simpl; [assumption|].
  destruct (load_item literal_eval w p item ts st) as [[ts'|e] st'] eqn:E.
  - apply IH. eapply load_item_testset; eassumption.
  - assumption.
Qed.

Lemma empty_testset_ok p : is_testset_for p (empty_testset p).
Proof. unfold is_testset_for. simpl. eauto. Qed.

Lemma load_file_body_testset p st :
  is_testset_for p (fst (fst (load_file_body literal_eval w p st))).
Proof.
  unfold load_file_body.
  match goal with |- context [match ?x with _ => _ end] => destruct x as [[items|e] st'] end.
  - apply load_items_testset, empty_testset_ok.
  - apply empty_testset_ok.
Qed.

(** The guard before the [try]: a path that names no file raises. *)
Lemma load_file_guard (yaml_file : string) (st : state) :
  isfile w yaml_file = false ->
  load_file literal_eval w yaml_file st =
  (Raise (FileNotFoundError ("Not found testcase file " ++ yaml_file ++ ".")), st).
Proof. intros F. unfold load_file. now rewrite F. Qed.

(** C2 (as amended).  On a path that names an existing file [load_file]
    never raises: it returns a TestSet for that path (the part assembled
    before any error), and an error met while parsing is logged. *)
Theorem load_file_recovers (yaml_file : string) (st : state) :
  isfile w yaml_file = true ->
  exists testset st',
    load_file literal_eval w yaml_file st = (Ok testset, st') /\
    is_testset_for yaml_file testset /\
    testset = fst (fst (load_file_body literal_eval w yaml_file st)) /\
    (forall e, snd (fst (load_file_body literal_eval w yaml_file st)) = Some e ->
               exists before, logs st' = (before ++ [LogException e])%list).
Proof.
  intros F. unfold load_file. rewrite F. cbn [negb].
  pose proof (load_file_body_testset yaml_file st) as I.
  destruct (load_file_body literal_eval w yaml_file st) as [[ts [e|]] st1]; simpl in *.
  - eexists _, _. split; [reflexivity|]. split; [assumption|]. split; [reflexivity|].
    intros e' E. injection E as <-. simpl. eauto.
  - eexists _, _. split; [reflexivity|]. split; [assumption|]. split; [reflexivity|].
    discriminate.
Qed.

End Assembler.

(** A path that names no file makes [load_file] raise: the guard sits before
    the [try]. *)
Lemma load_file_missing_raises :
  isfile tree "/cases/nowhere.yaml" = false /\
  load_file literal_eval_sample tree "/cases/nowhere.yaml" initial =
  (Raise (FileNotFoundError "Not found testcase file /cases/nowhere.yaml."), initial).
Proof. split; vm_compute; reflexivity. Qed.

Lemma load_file_recovers_witness :
  exists testset st',
    load_file literal_eval_sample tree "/cases/broken.yaml" initial = (Ok testset, st') /\
    is_testset_for "/cases/broken.yaml" testset /\
    testset = fst (fst (load_file_body literal_eval_sample tree "/cases/broken.yaml" initial)) /\
    (forall e, snd (fst (load_file_body literal_eval_sample tree "/cases/broken.yaml" initial))
               = Some e ->
               exists before, logs st' = (before ++ [LogException e])%list).
Proof.
  exact (load_file_recovers literal_eval_sample tree "/cases/broken.yaml" initial eq_refl).
Defined.

End LoaderFacts.

(* ================================================================== *)
(** * The resolution cache *)

Module CacheFacts.
Import Text Regex Py Scanner Substitution Path Loader Spec Samples.

Lemma kc_ret {A} (a : A) : keeps_cache (lret a).
Proof. intros st. reflexivity. Qed.

Lemma kc_raise {A} e : keeps_cache (@lraise A e).
Proof. intros st. reflexivity. Qed.

Lemma kc_lift {A} (r : result A) : keeps_cache (llift r).
Proof. intros st. reflexivity. Qed.

Lemma kc_emit e : keeps_cache (emit e).
Proof. intros st. reflexivity. Qed.

Lemma kc_get_store : keeps_cache get_store.
Proof. intros st. reflexivity. Qed.

Lemma kc_put_store d : keeps_cache (put_store d).
Proof. intros st. reflexivity. Qed.

Lemma kc_bind {A B} (m : L A) (f : A -> L B) :
  keeps_cache m -> (forall a, keeps_cache (f a)) -> keeps_cache (lbind m f).
Proof.
  intros Hm Hf st. unfold lbind. specialize (Hm st).
  destruct (m st) as [[a|e] st1]; simpl in *; [|assumption].
  now rewrite Hf.
Qed.

Create HintDb cache.
#[local] Hint Resolve kc_ret kc_raise kc_lift kc_emit kc_get_store kc_put_store : cache.

Ltac kc :=
  repeat first
    [ apply kc_bind; [|intros]
    | solve [auto with cache]
    | match goal with
      | |- keeps_cache (match ?x with _ => _ end) => destruct x
      | |- keeps_cache (if ?x then _ else _) => destruct x
      | |- keeps_cache (let (_, _) := ?x in _) => destruct x
      end ].

Section Assembler.

Variable literal_eval : string -> result value.
Variable w : world.

Lemma kc_check_format p content : keeps_cache (_check_format p content).
Proof. unfold _check_format. kc. Qed.

Lemma kc_yaml_load_file p : keeps_cache (yaml_load_file w p).
Proof.
  unfold yaml_load_file, _load_json_file, _load_yaml_file.
  kc; apply kc_check_format.
Qed.

Lemma kc_load_case test_block ts : keeps_cache (load_case literal_eval w test_block ts).
Proof. unfold load_case. kc. Qed.

Lemma kc_load_item p item ts : keeps_cache (load_item literal_eval w p item ts).
Proof. unfold load_item. kc; apply kc_load_case. Qed.

Lemma load_items_cache p items : forall ts st,
  testcases_cache_mapping (snd (load_items literal_eval w p items ts st)) =
  testcases_cache_mapping st.
Proof.
  induction items as [|item items IH]; intros ts st; simpl; [reflexivity|].
  pose proof (kc_load_item p item ts st) as K.
  destruct (load_item literal_eval w p item ts st) as [[ts'|e] st']; simpl in *.
  - now rewrite IH.
  - assumption.
Qed.

Lemma kc_load_file p : keeps_cache (load_file literal_eval w p).
Proof.
  unfold load_file. destruct (negb (isfile w p)); [apply kc_raise|].
  intros st. unfold load_file_body.
  assert (K : keeps_cache (test_cases <<- yaml_load_file w p ;; llift (py_iter test_cases)))
    by (kc; apply kc_yaml_load_file).
  specialize (K st).
  destruct ((test_cases <<- yaml_load_file w p ;; llift (py_iter test_cases)) st)
    as [[items|e] st1]; simpl in *.
  - pose proof (load_items_cache p items (empty_testset p) st1) as K'.
    destruct (load_items literal_eval w p items (empty_testset p) st1)
      as [[ts [e|]] st2]; simpl in *; congruence.
  - assumption.
Qed.

Lemma kc_load_one_file p : keeps_cache (load_one_file literal_eval w p).
Proof.
  intros st. unfold load_one_file.
  assert (K : keeps_cache (testset <<- load_file literal_eval w p ;;
                           cases <<- llift (getitem testset "cases") ;;
                           lret (if truthy cases then [testset] else [])))
    by (kc; apply kc_load_file).
  specialize (K st).
  match goal with
  | |- context [match ?m st with _ => _ end] => destruct (m st) as [[r|e] st1]
  end; simpl in *; [assumption|].
  destruct e; assumption.
Qed.

End Assembler.

Lemma cache_get_set c k k' v :
  cache_get (cache_set c k v) k' = if k =? k' then Some v else cache_get c k'.
Proof.
  induction c as [|[a x] c IH]; simpl.
  - reflexivity.
  - destruct (a =? k) eqn:E; simpl.
    + apply String.eqb_eq in E. subst a. now destruct (k =? k').
    + rewrite IH. destruct (a =? k') eqn:E'; [|reflexivity].
      apply String.eqb_eq in E'. subst a. now rewrite String.eqb_sym, E.
Qed.

Section Memo.

Variable literal_eval : string -> result value.

(** An entry of the cache survives every later call. *)
Lemma load_collection_keeps (rec : path_arg -> L (list value)) k v :
  (forall p st, cache_get (testcases_cache_mapping st) k = Some v ->
                cache_get (testcases_cache_mapping (snd (rec (PathStr p) st))) k = Some v) ->
  forall paths acc st,
    cache_get (testcases_cache_mapping st) k = Some v ->
    cache_get (testcases_cache_mapping (snd (load_collection rec paths acc st))) k = Some v.
Proof.
  intros R. induction paths as [|p paths IH]; intros acc st H; simpl; [assumption|].
  destruct (contains "dependencies" p); [now apply IH|].
  unfold lbind. specialize (R p st H).
  destruct (rec (PathStr p) st) as [[r|e] st1]; simpl in *; [now apply IH | assumption].
Qed.

Lemma load_files_keeps w set_iter fuel : forall path st k v,
  cache_get (testcases_cache_mapping st) k = Some v ->
  cache_get (testcases_cache_mapping
               (snd (load_files literal_eval w set_iter fuel path st))) k = Some v.
Proof.
  induction fuel as [|fuel IH]; intros path st k v H; [assumption|].
  destruct path as [p|l]; cbn [load_files].
  - set (path := if negb (isabs p) then join (getcwd w) p else p).
    destruct (cache_get (testcases_cache_mapping st) path) as [cached|] eqn:C;
      [assumption|].
    unfold lbind.
    assert (K : forall (m : L (list value)),
               cache_get (testcases_cache_mapping (snd (m st))) k = Some v ->
               cache_get
                 (testcases_cache_mapping
                    (snd (match m st with
                          | (Ok a, st') =>
                              (Ok a,
                               {| overall_def_dict := overall_def_dict st';
                                  testcases_cache_mapping :=
                                    cache_set (testcases_cache_mapping st') path a;
                                  logs := logs st' |})
                          | (Raise e, st') => (Raise e, st')
                          end))) k = Some v).
    { intros m Hm. destruct (m st) as [[a|e] st1]; simpl in *; [|assumption].
      rewrite cache_get_set. destruct (path =? k) eqn:E; [|assumption].
      apply String.eqb_eq in E. congruence. }
    apply K. destruct (isdir w path); [now apply IH|].
    destruct (isfile w path).
    + now rewrite kc_load_one_file.
    + assumption.
  - apply load_collection_keeps; [|assumption]. intros p st0 H0. now apply IH.
Qed.

(** ** Fuel: a folder, the list of its files, each file *)

Section Fuel.

Variable w : world.
Variable set_iter : list string -> list string.

Lemma load_files_plain fuel fuel2 p st :
  isdir w (absolute_path w p) = false ->
  load_files literal_eval w set_iter (S fuel) (PathStr p) st =
  load_files literal_eval w set_iter (S fuel2) (PathStr p) st.
Proof.
  intros D. cbn [load_files]. fold (absolute_path w p). now rewrite D.
Qed.

Lemma load_collection_ext (rec1 rec2 : path_arg -> L (list value)) paths :
  Forall (fun p => forall st, rec1 (PathStr p) st = rec2 (PathStr p) st) paths ->
  forall acc st, load_collection rec1 paths acc st = load_collection rec2 paths acc st.
Proof.
  induction 1 as [|p paths E F IH]; intros acc st; simpl; [reflexivity|].
  destruct (contains "dependencies" p); [apply IH|].
  unfold lbind. rewrite E.
  destruct (rec2 (PathStr p) st) as [[r|e] st1]; [apply IH | reflexivity].
Qed.

(** In a file system whose folders list no folder among their files, fuel 3
    is enough for any single path: more fuel changes nothing. *)
Lemma load_files_fuel n p st :
  (forall top, Forall (fun f => isdir w (absolute_path w f) = false)
                      (set_iter (load_folder_files w top true))) ->
  load_files literal_eval w set_iter (3 + n) (PathStr p) st =
  load_files literal_eval w set_iter 3 (PathStr p) st.
Proof.
  intros H. cbn [load_files Nat.add]. fold (absolute_path w p).
  destruct (cache_get (testcases_cache_mapping st) (absolute_path w p)); [reflexivity|].
  destruct (isdir w (absolute_path w p)); [|reflexivity].
  unfold lbind.
  rewrite (load_collection_ext
             (load_files literal_eval w set_iter (S n))
             (load_files literal_eval w set_iter 1)); [reflexivity|].
  eapply Forall_impl; [|apply H]. intros f D st0. now apply load_files_plain.
Qed.

End Fuel.

(** C7 (as amended).  A call of [load_files] on a single path stores its
    result under the key of the path: the path itself when it is absolute,
    else the working directory joined with it, as text and without
    normalisation.  A later call with a path of the same key returns that
    very list and leaves the state as it is, whatever the file system has
    become; and no call ever removes or changes an entry of the cache. *)
Theorem load_files_memoized w set_iter fuel p st testsets st'
        w2 set_iter2 fuel2 p2 :
  absolute_path w p = absolute_path w2 p2 ->
  load_files literal_eval w set_iter fuel (PathStr p) st = (Ok testsets, st') ->
  load_files literal_eval w2 set_iter2 (S fuel2) (PathStr p2) st' = (Ok testsets, st') /\
  (forall w3 set_iter3 fuel3 path k v,
     cache_get (testcases_cache_mapping st') k = Some v ->
     cache_get (testcases_cache_mapping
                  (snd (load_files literal_eval w3 set_iter3 fuel3 path st'))) k = Some v).
Proof.
  intros A H. split; [|intros; now apply load_files_keeps].
  assert (C : cache_get (testcases_cache_mapping st') (absolute_path w p) = Some testsets).
  { destruct fuel as [|fuel]; [discriminate|]. cbn [load_files] in H.
    fold (absolute_path w p) in H.
    destruct (cache_get (testcases_cache_mapping st) (absolute_path w p)) as [c|] eqn:C.
    - injection H as <- <-. assumption.
    - unfold lbind in H.
      match type of H with
      | match ?m st with _ => _ end = _ => destruct (m st) as [[a|e] st1]
      end; [|discriminate].
      injection H as <- <-. simpl. rewrite cache_get_set. now rewrite String.eqb_refl. }
  cbn [load_files]. fold (absolute_path w2 p2). rewrite <- A, C. reflexivity.
Qed.

End Memo.

(** Another spelling of the same absolute path is another key: once
    [/cases/login.yaml] is cached, a call with [./login.yaml] or with
    [/cases//login.yaml] misses the cache, goes to the file system and, the
    files being gone, returns the empty list and logs the missing file. *)
Lemma load_files_other_spelling :
  resolved_path emptied "./login.yaml" = resolved_path tree "/cases/login.yaml" /\
  resolved_path emptied "/cases//login.yaml" = resolved_path tree "/cases/login.yaml" /\
  (exists testset,
     fst (load_files literal_eval_sample tree first_occurrences 3
            (PathStr "/cases/login.yaml") (snd loaded)) = Ok [testset]) /\
  fst (load_files literal_eval_sample emptied first_occurrences 3 (PathStr "./login.yaml")
         (snd (load_files literal_eval_sample tree first_occurrences 3
                 (PathStr "/cases/login.yaml") (snd loaded)))) = Ok [] /\
  fst (load_files literal_eval_sample emptied first_occurrences 3
         (PathStr "/cases//login.yaml")
         (snd (load_files literal_eval_sample tree first_occurrences 3
                 (PathStr "/cases/login.yaml") (snd loaded)))) = Ok [] /\
  logs (snd (load_files literal_eval_sample emptied first_occurrences 3
               (PathStr "./login.yaml")
               (snd (load_files literal_eval_sample tree first_occurrences 3
                       (PathStr "/cases/login.yaml") (snd loaded))))) =
    (logs (snd (load_files literal_eval_sample tree first_occurrences 3
                  (PathStr "/cases/login.yaml") (snd loaded)))
     ++ [LogError "file not found: /cases/./login.yaml"])%list.
Proof. vm_compute. repeat split. eexists. reflexivity. Qed.

Lemma load_files_memoized_witness :
  load_files literal_eval_sample emptied first_occurrences 1 (PathStr "login.yaml")
    (snd (load_files literal_eval_sample tree first_occurrences 3
            (PathStr "/cases/login.yaml") (snd loaded)))
  = load_files literal_eval_sample tree first_occurrences 3
      (PathStr "/cases/login.yaml") (snd loaded).
Proof.
  refine (proj1 (load_files_memoized literal_eval_sample tree first_occurrences 3
                   "/cases/login.yaml" (snd loaded) _ _
                   emptied first_occurrences 0 "login.yaml" eq_refl _)).
  vm_compute. reflexivity.
Defined.

End CacheFacts.

(* ================================================================== *)
(** * The Definition store *)

Module StoreFacts.
Import Text Regex Py Scanner Substitution Path Loader Spec Samples LoaderFacts.

Lemma dict_set_keys d k v x :
  In x (map fst (dict_set d k v)) -> In x (map fst d) \/ x = k.
Proof.
  induction d as [|[k' v'] d IH]; simpl.
  - intros [<-|[]]. now right.
  - destruct (py_eq k' k); simpl; intros [<-|H]; auto.
    destruct (IH H); auto.
Qed.

(** Writing a name never leaves two entries of that name. *)
Lemma dict_set_no_duplicate d name v :
  NoDup (map fst d) -> NoDup (map fst (dict_set d (VStr name) v)).
Proof.
  induction d as [|[k' v'] d IH]; simpl; intros N.
  - constructor; [intros [] | constructor].
  - inversion N as [|? ? Hn Hd]; subst.
    destruct (py_eq k' (VStr name)) eqn:E; simpl; [now constructor|].
    constructor; [|now apply IH].
    intros H. apply dict_set_keys in H. destruct H as [H| ->]; [contradiction|].
    simpl in E. now rewrite String.eqb_refl in E.
Qed.

Section Registration.

Variable literal_eval : string -> result value.
Variable w : world.

(** Registering an api Definition: the last write wins, and a name already
    present is reported by a warning. *)
Lemma register_api_overwrites p key body api_def rest name args kwargs st :
  py_eq key (VStr "api") = true ->
  dict_get body (VStr "def") = Some api_def ->
  rest = dict_remove body (VStr "def") ->
  parse_function literal_eval api_def = Ok (function_meta name args kwargs) ->
  exists st',
    register_api literal_eval p (VDict [(key, VDict body)]) st = (Ok tt, st') /\
    dict_get (api (overall_def_dict st')) (VStr name) =
      Some (VDict (dict_set rest (VStr "function_meta") (function_meta name args kwargs))) /\
    suite (overall_def_dict st') = suite (overall_def_dict st) /\
    logs st' =
      if dict_mem (api (overall_def_dict st)) (VStr name)
      then (logs st ++ [LogWarning ("API definition duplicated: " ++ name)])%list
      else logs st.
Proof.
  intros K D -> P. unfold register_api. cbn [single_item]. rewrite K.
  unfold dict_mem at 1. rewrite D. cbn [negb orb]. unfold dict_pop. rewrite D.
  unfold lbind, llift. rewrite P.
  change (getitem (function_meta name args kwargs) "func_name") with (Ok (VStr name)).
  cbn beta iota. unfold get_store.
  destruct (dict_mem (api (overall_def_dict st)) (VStr name));
    eexists; (split; [reflexivity|]); simpl; rewrite dict_get_set, String.eqb_refl; auto.
Qed.

(** Registering a suite Definition adds no line to the log beyond those of
    loading its file: a duplicated name is overwritten in silence. *)
Lemma register_suite_logs suite_file st :
  logs (snd (register_suite literal_eval w suite_file st)) =
  logs (snd (load_file literal_eval w suite_file st)).
Proof.
  unfold register_suite, lbind at 1.
  destruct (load_file literal_eval w suite_file st) as [[ts|e] st1]; [|reflexivity].
  unfold lbind, llift, lraise, get_store, put_store. simpl.
  repeat match goal with
         | |- context [match ?x with Ok _ => _ | Raise _ => _ end] => destruct x
         | |- context [if ?x then _ else _] => destruct x
         end; reflexivity.
Qed.

End Registration.

(** C8 (the code departs from it).  After the dependencies of the sample tree
    are loaded, the api name declared twice is reported by a warning and
    holds its last body, whereas the suite name declared by two files holds
    the last file's TestSet and no warning names it. *)
Theorem suite_duplicate_silent :
  fst loaded = Ok tt /\
  logs (snd loaded) = [LogWarning "API definition duplicated: ping"] /\
  map fst (suite (overall_def_dict (snd loaded))) = [VStr "flow"] /\
  (b <- match dict_get (suite (overall_def_dict (snd loaded))) (VStr "flow") with
        | Some b => Ok b
        | None => Raise KeyError
        end ;; getitem b "file_path") = Ok (VStr "/cases/dependencies/suite/s2.yaml") /\
  (b <- match dict_get (api (overall_def_dict (snd loaded))) (VStr "ping") with
        | Some b => Ok b
        | None => Raise KeyError
        end ;; getitem b "steps") = Ok (VList [VStr "second"]).
Proof. vm_compute. repeat split. Qed.

End StoreFacts.

(* ================================================================== *)
(** * From the scanner to the call parser *)

Module ScanParseFacts.
Import Text Regex Py Scanner Spec Props TextFacts RegexFacts ScannerFacts.

Lemma scan_bodies_call s bodies :
  scan function_token s bodies ->
  Forall (fun b => exists name args, call_body b name args) bodies.
Proof.
  induction 1 as [| |s body rest bodies T S IH]; auto.
  constructor; [|assumption].
  destruct T as (name & args & N & A & G & B & _).
  exists name, args. repeat split; assumption.
Qed.

(** A greedy run followed by a text the class rejects is taken whole when
    the rest of the pattern matches there. *)
Lemma match_star_run p g k run tail cs rest :
  all_chars p run = true -> head_is p tail = false ->
  k tail = Some (cs, rest) ->
  match_star p g k (run ++ tail) = Some ((tagged g run ++ cs)%list, rest).
Proof.
  intros A H K. induction run as [|c run IH]; simpl in *.
  - destruct tail as [|d tail]; simpl in *; [assumption|]. now rewrite H.
  - apply andb_prop in A. destruct A as [Pc A]. now rewrite Pc, (IH A).
Qed.

(** The anchored pattern accepts a call body whole and captures its two
    parts. *)
Lemma call_body_match b name args :
  call_body b name args ->
  exists cs,
    match_items function_regexp_compile b = Some (cs, EmptyString) /\
    group 1 cs = name /\ group 2 cs = args.
Proof.
  intros (N & A & G & ->). destruct name as [|n0 name]; [congruence|].
  simpl in A. apply andb_prop in A. destruct A as [Pn A].
  exists ((1, n0) :: tagged 1 name ++ (0, "("%char) :: tagged 2 args ++ [(0, ")"%char)])%list.
  split; [|split].
  - unfold function_regexp_compile. cbn [match_items append]. rewrite Pn.
    erewrite match_star_run; [reflexivity | assumption | reflexivity |].
    cbn [append]. change (is_char "(" "(") with true. cbv iota.
    erewrite match_star_run; [reflexivity | assumption | reflexivity |].
    reflexivity.
  - cbn [group Nat.eqb]. rewrite group_tagged_same. cbn [group Nat.eqb].
    rewrite group_tagged_other by discriminate. cbn [group Nat.eqb].
    now rewrite append_nil_r.
  - cbn [group Nat.eqb]. rewrite group_tagged_other by discriminate.
    cbn [group Nat.eqb]. rewrite group_tagged_same. cbn [group Nat.eqb].
    now rewrite append_nil_r.
Qed.

Section CallParser.

Variable literal_eval : string -> result value.

Lemma split_on_length c s : List.length (split_on c s) = S (count_char c s).
Proof.
  induction s as [|d s IH]; [reflexivity|]. simpl.
  destruct (Ascii.eqb d c); simpl; [now rewrite IH|].
  destruct (split_on c s) as [|h t]; [discriminate | exact IH].
Qed.

Lemma parse_string_value_error a e :
  parse_string_value literal_eval a = Raise e ->
  literal_eval a = Raise e /\ no_literal e = false.
Proof.
  unfold parse_string_value. destruct (literal_eval a) as [v|e']; [discriminate|].
  destruct e'; intros H; try discriminate; injection H as <-; split; reflexivity.
Qed.

(** the two ways the loop over the arguments fails: an argument that does
    not unpack into key and value, or a value on which the literal evaluation
    raises what the coercion does not catch *)
Lemma parse_args_error args_list : forall args kwargs e,
  parse_args literal_eval args_list args kwargs = Raise e ->
  (e = ValueError /\ exists arg, In arg args_list /\ 2 <= count_char "=" arg) \/
  (exists arg, In arg args_list /\
               literal_eval (value_text arg) = Raise e /\ no_literal e = false).
Proof.
  induction args_list as [|arg rest IH]; intros args kwargs e H; [discriminate|].
  assert (Later :
    forall args' kwargs', parse_args literal_eval rest args' kwargs' = Raise e ->
    (e = ValueError /\ exists a, In a (arg :: rest) /\ 2 <= count_char "=" a) \/
    (exists a, In a (arg :: rest) /\
               literal_eval (value_text a) = Raise e /\ no_literal e = false)).
  { intros args' kwargs' H'.
    destruct (IH _ _ _ H') as [(-> & a & I & C)|(a & I & L & N)].
    - left. split; [reflexivity|]. exists a. split; [now right | assumption].
    - right. exists a. split; [now right | auto]. }
  cbn [parse_args] in H. rewrite CallParserFacts.contains_char in H. unfold value_text.
  destruct (has_char "=" arg) eqn:E.
  - pose proof (split_on_length "=" arg) as Len.
    pose proof (CallParserFacts.has_char_count _ _ E) as One.
    destruct (Nat.eq_dec (count_char "=" arg) 1) as [C|C].
    + rewrite (CallParserFacts.split_on_once _ _ C) in H.
      destruct (parse_string_value literal_eval (after_char "=" arg)) as [v|e'] eqn:V.
      * cbn [bind] in H. eapply Later; eassumption.
      * cbn [bind] in H. injection H as <-.
        apply parse_string_value_error in V. right. exists arg.
        split; [now left|]. now rewrite E.
    + left. assert (R : e = ValueError).
      { destruct (split_on "=" arg) as [|key [|v [|]]];
          try (injection H as <-; reflexivity).
        simpl in Len. lia. }
      split; [exact R|]. exists arg. split; [now left | lia].
  - destruct (parse_string_value literal_eval arg) as [v|e'] eqn:V.
    + cbn [bind] in H. eapply Later; eassumption.
    + cbn [bind] in H. injection H as <-.
      apply parse_string_value_error in V. right. exists arg.
      split; [now left|]. now rewrite E.
Qed.

(** X1.  Whatever [extract_functions] returns is a call body
    [name(args)] that the grammar of [parse_function] accepts whole.  The
    call then yields the token's own name, or it fails in one of two ways:
    with the [ValueError] of an argument that holds several equals signs, or
    with an exception that [ast.literal_eval] raises on the value of an
    argument and that [parse_string_value] does not catch. *)
Theorem extracted_call_parses (s b : string) :
  In b (extract_functions (VStr s)) ->
  exists name args,
    call_body b name args /\
    (exists cs, match_items function_regexp_compile b = Some (cs, EmptyString) /\
                group 1 cs = name /\ group 2 cs = args) /\
    ((exists positional keyword,
        parse_function literal_eval (VStr b) =
        Ok (function_meta name positional keyword)) \/
     (parse_function literal_eval (VStr b) = Raise ValueError /\
      exists arg, In arg (arguments (replace_all " " EmptyString args)) /\
                  2 <= count_char "=" arg) \/
     (exists arg e,
        In arg (arguments (replace_all " " EmptyString args)) /\
        literal_eval (value_text arg) = Raise e /\ no_literal e = false /\
        parse_function literal_eval (VStr b) = Raise e)).
Proof.
  intros I.
  pose proof (scan_bodies_call _ _ (extract_functions_scan s)) as F.
  rewrite Forall_forall in F. destruct (F b I) as (name & args & B).
  exists name, args. split; [assumption|].
  destruct (call_body_match _ _ _ B) as (cs & M & G1 & G2).
  split; [exists cs; auto|].
  unfold parse_function, arguments. rewrite M, G1, G2.
  destruct (replace_all " " EmptyString args =? EmptyString); [left; eauto|].
  destruct (parse_args literal_eval _ [] []) as [r|e] eqn:E; simpl.
  - left. eauto.
  - right. destruct (parse_args_error _ _ _ _ E) as [(-> & arg & A & C)|(arg & A & L & N)].
    + left. split; [reflexivity|]. exists arg. auto.
    + right. exists arg, e. auto.
Qed.

End CallParser.

Lemma literal_eval_sample_atomic a v :
  literal_eval_sample a = Ok v -> atomic v = true.
Proof.
  unfold literal_eval_sample.
  repeat match goal with
         | |- context [if ?c then _ else _] => destruct c
         end; intros H; try discriminate; injection H as <-; reflexivity.
Qed.

(** X2.  Function tokens do not nest: when [ast.literal_eval] yields only
    constants on argument texts, no positional argument, keyword or keyword
    value parsed out of an extracted call holds a function token. *)
Theorem call_arguments_hold_no_call
        (literal_eval : string -> result value) (s b : string) meta :
  (forall a v, literal_eval a = Ok v -> atomic v = true) ->
  In b (extract_functions (VStr s)) ->
  parse_function literal_eval (VStr b) = Ok meta ->
  exists name args kwargs,
    meta = function_meta name args kwargs /\
    Forall (fun v => extract_functions v = []) args /\
    Forall (fun kv => extract_functions (fst kv) = [] /\
                      extract_functions (snd kv) = []) kwargs.
Proof.
  intros L I P.
  assert (Hb : has_char "{" b = false).
  { pose proof (ParserFacts.scan_bodies_brace_free _ _ (extract_functions_scan s)) as F.
    rewrite Forall_forall in F. now apply F. }
  destruct (ParserFacts.parse_function_flat literal_eval L b meta Hb P)
    as (name & args & kwargs & -> & A & K).
  assert (Z : forall v, brace_free v = true -> extract_functions v = []).
  { intros [] Hv; try reflexivity. simpl in Hv. apply negb_true_iff in Hv.
    now apply ParserFacts.no_brace_no_function. }
  exists name, args, kwargs. split; [reflexivity|]. split.
  - eapply Forall_impl; [|exact A]. auto.
  - eapply Forall_impl; [|exact K]. intros kv [Hk Hv]. auto.
Qed.

Lemma extracted_call_parses_witness :
  exists name args,
    call_body "add(1, $x)" name args /\
    (exists cs, match_items function_regexp_compile "add(1, $x)" = Some (cs, EmptyString) /\
                group 1 cs = name /\ group 2 cs = args) /\
    ((exists positional keyword,
        parse_function literal_eval_sample (VStr "add(1, $x)") =
        Ok (function_meta name positional keyword)) \/
     (parse_function literal_eval_sample (VStr "add(1, $x)") = Raise ValueError /\
      exists arg, In arg (arguments (replace_all " " EmptyString args)) /\
                  2 <= count_char "=" arg) \/
     (exists arg e,
        In arg (arguments (replace_all " " EmptyString args)) /\
        literal_eval_sample (value_text arg) = Raise e /\ no_literal e = false /\
        parse_function literal_eval_sample (VStr "add(1, $x)") = Raise e)).
Proof.
  apply (extracted_call_parses literal_eval_sample "/api/${add(1, $x)}?_t=${now()}").
  vm_compute. auto.
Defined.

Lemma call_arguments_hold_no_call_witness :
  exists name args kwargs,
    function_meta "f" [VInt 1; VStr "$x"] [(VStr "k", VStr "$y")] =
    function_meta name args kwargs /\
    Forall (fun v => extract_functions v = []) args /\
    Forall (fun kv => extract_functions (fst kv) = [] /\
                      extract_functions (snd kv) = []) kwargs.
Proof.
  apply (call_arguments_hold_no_call literal_eval_sample "a ${f(1, $x, k=$y)} b"
           "f(1, $x, k=$y)").
  - exact literal_eval_sample_atomic.
  - vm_compute. auto.
  - vm_compute. reflexivity.
Defined.

End ScanParseFacts.

(* ================================================================== *)
(** * More on the evaluation engine *)

Module EngineFacts.
Import Text Regex Py Scanner Parser Spec Props Samples TextFacts ScannerFacts.

Lemma extract_variables_single name :
  name <> EmptyString -> all_chars is_word name = true ->
  extract_variables (VStr ("$" ++ name)) = [name].
Proof.
  intros N A. eapply scan_functional.
  - apply variable_token_unique.
  - intros b r (_ & _ & _ & E). discriminate.
  - apply extract_variables_scan.
  - eapply scan_take; [|apply scan_end].
    repeat split; try assumption. now rewrite append_nil_r.
Qed.

Lemma dict_set_length d k v : List.length (dict_set d k v) <= S (List.length d).
Proof.
  induction d as [|[k' v'] d IH]; simpl; [lia|].
  destruct (py_eq k' k); simpl; lia.
Qed.

Section Engine.

Variable literal_eval : string -> result value.
Variable search_conf_function : string -> string -> result pyfun.
Variable search_conf_variable : string -> string -> result value.
Variable self : TestCaseParser.

(** X3.  A text leaf that, once stripped, is exactly one variable token
    bound in the explicit table evaluates to the bound value itself, whatever
    its type, and logs that one resolution. *)
Theorem whole_leaf_variable (fuel : nat) (s name : string) (v : value) :
  strip s = "$" ++ name ->
  name <> EmptyString -> all_chars is_word name = true ->
  lookup (_variables self) name = Some v ->
  eval_content_with_bind_actions literal_eval search_conf_function
    search_conf_variable self (S fuel) (VStr s) =
  ([LogVariables (VStr ("$" ++ name)) v], Ok v).
Proof.
  intros E N A B. cbn [eval_content_with_bind_actions]. rewrite E.
  unfold _eval_content_functions, extract_functions.
  rewrite ParserFacts.no_brace_no_function.
  2:{ simpl. now apply (ParserFacts.all_chars_has_char is_word). }
  cbn [eval_functions_loop]. unfold ret at 1. unfold mbind at 1.
  unfold _eval_content_variables. rewrite (extract_variables_single _ N A).
  cbn [eval_variables_loop]. unfold get_bind_variable. rewrite B.
  unfold lift, mbind at 1. cbn [py_eq]. rewrite String.eqb_refl.
  reflexivity.
Qed.

(** X4.  A text leaf in which [extract_functions] finds no function token
    (braces or not) and whose first variable token is bound neither in the
    explicit table nor by the preference-file fallback (no file path, or the
    search finds nothing) fails with the params error naming that variable,
    before anything is logged. *)
Theorem unbound_variable_raises (fuel : nat) (s name : string) rest :
  extract_functions (VStr (strip s)) = [] ->
  extract_variables (VStr (strip s)) = name :: rest ->
  lookup (_variables self) name = None ->
  (file_path self = None \/
   exists fp msg, file_path self = Some fp /\
                  search_conf_variable fp name = Raise (FunctionNotFound msg)) ->
  eval_content_with_bind_actions literal_eval search_conf_function
    search_conf_variable self (S fuel) (VStr s) =
  ([], Raise (ParamsError (name ++ " is not defined in bind variables!"))).
Proof.
  intros H E B F.
  cbn [eval_content_with_bind_actions].
  unfold _eval_content_functions. rewrite H.
  cbn [eval_functions_loop]. unfold ret at 1. unfold mbind at 1.
  unfold _eval_content_variables. rewrite E.
  cbn [eval_variables_loop]. unfold get_bind_variable, search_fallback. rewrite B.
  destruct F as [-> | (fp & msg & -> & ->)]; reflexivity.
Qed.

Lemma eval_list_length (ev : value -> M value) l : forall t l',
  eval_list ev l = (t, Ok l') -> List.length l' = List.length l.
Proof.
  induction l as [|x l IH]; intros t l' H; simpl in H.
  - injection H as _ <-. reflexivity.
  - unfold mbind in H. destruct (ev x) as [t1 [a|e]]; [|discriminate].
    destruct (eval_list ev l) as [t2 [r|e]] eqn:E; [|discriminate].
    simpl in H. injection H as _ <-. simpl. f_equal. eapply IH. reflexivity.
Qed.

Lemma eval_dict_length (ev : value -> M value) d : forall acc t d',
  eval_dict ev d acc = (t, Ok d') ->
  List.length d' <= List.length acc + List.length d.
Proof.
  induction d as [|[k v] d IH]; intros acc t d' H; simpl in H.
  - injection H as _ <-. lia.
  - unfold mbind, lift in H. destruct (ev k) as [t1 [a|e]]; [|discriminate].
    destruct (ev v) as [t2 [b|e]]; [|discriminate].
    unfold dict_setitem in H. destruct (hashable a); [|discriminate].
    destruct (eval_dict ev d (dict_set acc a b)) as [t3 [r|e]] eqn:E; [|discriminate].
    injection H as _ <-. apply IH in E.
    pose proof (dict_set_length acc a b). simpl. lia.
Qed.

(** X5.  Evaluation keeps the shape of its input: a list comes back as a
    list of the same length, a mapping as a mapping with no more entries
    (evaluated keys may coincide), and [None], booleans and numbers come back
    unchanged. *)
Theorem evaluate_keeps_shape (fuel : nat) (content : value) t r :
  eval_content_with_bind_actions literal_eval search_conf_function
    search_conf_variable self fuel content = (t, Ok r) ->
  match content with
  | VList l => exists l', r = VList l' /\ List.length l' = List.length l
  | VDict d => exists d', r = VDict d' /\ List.length d' <= List.length d
  | VStr _ => True
  | _ => r = content
  end.
Proof.
  destruct fuel as [|fuel]; [discriminate|].
  destruct content; cbn [eval_content_with_bind_actions]; intros H;
    try (injection H as _ <-; reflexivity); try exact I.
  - unfold mbind in H.
    destruct (eval_list _ l) as [t1 [l'|e]] eqn:E; [|discriminate].
    injection H as _ <-. exists l'. split; [reflexivity|]. eapply eval_list_length, E.
  - unfold mbind in H.
    destruct (eval_dict _ d []) as [t1 [d'|e]] eqn:E; [|discriminate].
    injection H as _ <-. exists d'. split; [reflexivity|].
    apply eval_dict_length in E. simpl in E. lia.
Qed.

End Engine.

Lemma whole_leaf_variable_witness :
  evaluate 1 (VStr "  $uid ") = ([LogVariables (VStr "$uid") (VInt 1000)], Ok (VInt 1000)).
Proof.
  exact (whole_leaf_variable literal_eval_sample no_conf_function no_conf_variable
           bindings 0 "  $uid " "uid" (VInt 1000) eq_refl
           ltac:(discriminate) eq_refl eq_refl).
Defined.

Lemma unbound_variable_raises_witness :
  evaluate 1 (VStr " {u: $nobody, id: $uid} ") =
  ([], Raise (ParamsError "nobody is not defined in bind variables!")).
Proof.
  exact (unbound_variable_raises literal_eval_sample no_conf_function no_conf_variable
           bindings 0 " {u: $nobody, id: $uid} " "nobody" ["uid"] eq_refl eq_refl eq_refl
           (or_introl eq_refl)).
Defined.

Lemma evaluate_keeps_shape_witness :
  exists l', VList [VInt 1000; VStr "a"; VInt 3] = VList l' /\
             List.length l' = List.length [VStr "$uid"; VStr " a "; VStr "${add(1, 2)}"].
Proof.
  apply (evaluate_keeps_shape literal_eval_sample no_conf_function no_conf_variable
           bindings 4 (VList [VStr "$uid"; VStr " a "; VStr "${add(1, 2)}"])
           [LogVariables (VStr "$uid") (VInt 1000);
            LogFunctions (VStr "${add(1, 2)}") (VInt 3)]).
  vm_compute. reflexivity.
Defined.

End EngineFacts.

(* ================================================================== *)
(** * Renaming parameters *)

Module SubstitutionFacts.
Import Text Regex Py Scanner Substitution Spec Props Samples TextFacts.

Lemma value_induction (P : value -> Prop) :
  P VNone -> (forall b, P (VBool b)) -> (forall z, P (VInt z)) ->
  (forall s, P (VStr s)) ->
  (forall l, Forall P l -> P (VList l)) ->
  (forall d, Forall (fun kv => P (fst kv) /\ P (snd kv)) d -> P (VDict d)) ->
  forall v, P v.
Proof.
  intros HN HB HZ HS HL HD. fix IH 1.
  intros [|b|z|s|l|d]; [apply HN | apply HB | apply HZ | apply HS | |].
  - apply HL.
    exact ((fix go (l : list value) : Forall P l :=
              match l with
              | [] => Forall_nil P
              | x :: t => Forall_cons x (IH x) (go t)
              end) l).
  - apply HD.
    exact ((fix go (d : dict) : Forall (fun kv => P (fst kv) /\ P (snd kv)) d :=
              match d with
              | [] => Forall_nil _
              | (k, x) :: t => Forall_cons (k, x) (conj (IH k) (IH x)) (go t)
              end) d).
Qed.

Lemma prefix_empty s : prefix EmptyString s = true.
Proof. now destruct s. Qed.

Lemma prefix_refl s : prefix s s = true.
Proof.
  induction s as [|c s IH]; [reflexivity|]. simpl.
  destruct (ascii_dec c c); [assumption | congruence].
Qed.

Lemma contains_refl s : contains s s = true.
Proof. destruct s; cbn [contains]; now rewrite prefix_refl. Qed.

Lemma contains_empty s : contains EmptyString s = true.
Proof. destruct s; reflexivity. Qed.

Lemma replace_absent old new s :
  contains old s = false -> replace_nonempty old new s 0 = s.
Proof.
  induction s as [|c s IH]; intros H; [reflexivity|].
  cbn [contains] in H. apply orb_false_elim in H. destruct H as [Hp Hs].
  cbn [replace_nonempty]. rewrite Hp. now rewrite (IH Hs).
Qed.

(** A text that contains none of the parameters passes every entry of the
    renaming unchanged. *)
Lemma substitute_leaf_absent (m : list (string * value)) s :
  existsb (fun var => contains var s) (map fst m) = false ->
  substitute_leaf (str_mapping m) (VStr s) = Ok (VStr s).
Proof.
  induction m as [|[var v] m IH]; intros H; [reflexivity|].
  cbn [map fst existsb] in H. apply orb_false_elim in H. destruct H as [Hv Hm].
  cbn [str_mapping map fst snd substitute_leaf py_eq].
  assert (N : (s =? var) = false).
  { apply String.eqb_neq. intros ->. now rewrite contains_refl in Hv. }
  rewrite N. destruct var as [|c var]; [now rewrite contains_empty in Hv|].
  unfold replace_all. rewrite (replace_absent _ _ _ Hv). now apply IH.
Qed.

Lemma distinct_keys_snoc acc k v rest :
  distinct_keys (acc ++ (k, v) :: rest)%list = true ->
  hashable k = true /\ dict_set acc k v = (acc ++ [(k, v)])%list.
Proof.
  induction acc as [|[k' v'] acc IH]; simpl; intros H.
  - apply andb_prop in H. destruct H as [H _]. apply andb_prop in H.
    destruct H as [H _]. auto.
  - apply andb_prop in H. destruct H as [H D]. apply andb_prop in H.
    destruct H as [_ F]. rewrite forallb_app in F. apply andb_prop in F.
    destruct F as [_ F]. simpl in F. apply andb_prop in F. destruct F as [F _].
    apply negb_true_iff in F. rewrite F.
    destruct (IH D) as [Hh ->]. auto.
Qed.

(** X6.  Renaming leaves unchanged every value that mentions none of the
    parameters: when no text leaf and no key of a well-formed content
    contains a parameter of the mapping, [substitute_variables_with_mapping]
    returns the content as it is. *)
Theorem renaming_spares_the_unmentioned (m : list (string * value)) (content : value) :
  well_formed content = true ->
  mentions (map fst m) content = false ->
  substitute_variables_with_mapping content (str_mapping m) = Ok content.
Proof.
  induction content as [|b|z|s|l IH|d IH] using value_induction; intros W N;
    try reflexivity.
  - cbn [substitute_variables_with_mapping]. destruct (truthy (VStr s)); [|reflexivity].
    now apply substitute_leaf_absent.
  - cbn [substitute_variables_with_mapping]. destruct (truthy (VList l)); [|reflexivity].
    cbn [well_formed mentions] in W, N.
    match goal with
    | |- bind (?F l) _ = _ => assert (E : F l = Ok l)
    end.
    { clear -IH W N. induction l as [|x l IHl]; [reflexivity|].
      inversion IH as [|? ? Hx Hl]; subst.
      cbn [forallb existsb] in W, N. apply andb_prop in W. destruct W as [Wx Wl].
      apply orb_false_elim in N. destruct N as [Nx Nl].
      rewrite (Hx Wx Nx). cbn [bind]. rewrite (IHl Hl Wl Nl). reflexivity. }
    now rewrite E.
  - cbn [substitute_variables_with_mapping]. destruct (truthy (VDict d)); [|reflexivity].
    cbn [well_formed mentions] in W, N. apply andb_prop in W. destruct W as [D W].
    match goal with
    | |- bind (?F d []) _ = _ =>
        assert (E : forall acc, distinct_keys (acc ++ d)%list = true ->
                                F d acc = Ok (acc ++ d)%list)
    end.
    { clear D. induction d as [|[k v] d IHd]; intros acc Da.
      - now rewrite app_nil_r.
      - inversion IH as [|? ? [Hk Hv] Hd]; subst.
        cbn [forallb existsb fst snd] in W, N. apply andb_prop in W.
        destruct W as [Wkv Wd]. apply andb_prop in Wkv. destruct Wkv as [Wk Wv].
        apply orb_false_elim in N. destruct N as [Nkv Nd].
        apply orb_false_elim in Nkv. destruct Nkv as [Nk Nv].
        simpl in Hk, Hv. rewrite (Hk Wk Nk). cbn [bind]. rewrite (Hv Wv Nv). cbn [bind].
        destruct (distinct_keys_snoc _ _ _ _ Da) as [Hh Hs].
        assert (Es : dict_setitem acc k v = Ok (acc ++ [(k, v)])%list)
          by (unfold dict_setitem; now rewrite Hh, Hs).
        rewrite Es. cbn [bind].
        rewrite (IHd Hd Wd Nd (acc ++ [(k, v)])%list).
        + now rewrite <- app_assoc.
        + now rewrite <- app_assoc. }
    now rewrite (E [] D).
Qed.

Lemma renaming_spares_the_unmentioned_witness :
  substitute_variables_with_mapping
    (str_dict [("steps", VList [VStr "type username"; VInt 3]); ("verify", VNone)])
    (str_mapping [("password", VStr "$p"); ("token", VInt 7)])
  = Ok (str_dict [("steps", VList [VStr "type username"; VInt 3]); ("verify", VNone)]).
Proof.
  exact (renaming_spares_the_unmentioned
           [("password", VStr "$p"); ("token", VInt 7)]
           (str_dict [("steps", VList [VStr "type username"; VInt 3]); ("verify", VNone)])
           eq_refl eq_refl).
Defined.

End SubstitutionFacts.

(* ================================================================== *)
(** * More on resolution, merge and registration *)

Module DefinitionFacts.
Import Text Regex Py Scanner Substitution Loader Spec Props Samples LoaderFacts.

Lemma py_eq_str_left a k : py_eq (VStr a) k = true -> k = VStr a.
Proof.
  destruct k; simpl; try discriminate. intros H. apply String.eqb_eq in H. now subst.
Qed.

Lemma dict_get_set_other c k1 v k :
  py_eq k1 (VStr k) = false ->
  dict_get (dict_set c k1 v) (VStr k) = dict_get c (VStr k).
Proof.
  intros N. induction c as [|[k' x] c IH]; simpl.
  - now rewrite N.
  - destruct (py_eq k' k1) eqn:E; simpl; [|now rewrite IH].
    destruct (py_eq k' (VStr k)) eqn:E'; [|reflexivity].
    apply py_eq_str in E'. subst k'. apply py_eq_str_left in E. subst k1.
    simpl in N. now rewrite String.eqb_refl in N.
Qed.

Lemma distinct_later_absent k t :
  forallb (fun kv => negb (py_eq (VStr k) (fst kv))) t = true ->
  dict_get t (VStr k) = None.
Proof.
  induction t as [|[k' x] t IH]; simpl; intros H; [reflexivity|].
  apply andb_prop in H. destruct H as [N H]. apply negb_true_iff in N.
  destruct (py_eq k' (VStr k)) eqn:E; [|auto].
  apply py_eq_str in E. subst k'. simpl in N. now rewrite String.eqb_refl in N.
Qed.

(** [update] on a Python [dict]: the other mapping's value where it has the
    key, the old value elsewhere *)
Lemma dict_get_update d : forall c k,
  distinct_keys d = true ->
  dict_get (dict_update c d) (VStr k) =
  match dict_get d (VStr k) with
  | Some v => Some v
  | None => dict_get c (VStr k)
  end.
Proof.
  unfold dict_update. induction d as [|[k1 v1] d IH]; intros c k D; [reflexivity|].
  simpl in D. apply andb_prop in D. destruct D as [D Dd]. apply andb_prop in D.
  destruct D as [_ F]. cbn [fold_left fst snd dict_get]. rewrite (IH _ _ Dd).
  destruct (py_eq k1 (VStr k)) eqn:E.
  - apply py_eq_str in E. subst k1. rewrite (distinct_later_absent _ _ F).
    now rewrite dict_get_set, String.eqb_refl.
  - destruct (dict_get d (VStr k)); [reflexivity|]. now apply dict_get_set_other.
Qed.

Section Resolution.

Variable literal_eval : string -> result value.

Lemma build_args_mapping_identity def_args call_args :
  Forall2 (fun c d => py_eq c d = true) call_args def_args ->
  build_args_mapping def_args call_args [] = Ok [].
Proof.
  induction 1 as [|c d cs ds E F IH]; [reflexivity|]. simpl. now rewrite E.
Qed.

(** X7.  A reference call whose positional arguments equal the declared
    parameters one by one builds no renaming: resolution returns the stored
    Definition itself. *)
Theorem identity_call_returns_definition
        d ref_call ref_type name call_args kwargs blk def_meta def_args :
  parse_function literal_eval ref_call = Ok (function_meta name call_args kwargs) ->
  _get_test_definition d (VStr name) ref_type = Ok blk ->
  get_method blk "function_meta" VNone = Ok def_meta ->
  get_method def_meta "args" (VList []) = Ok (VList def_args) ->
  Forall2 (fun c p => py_eq c p = true) call_args def_args ->
  _get_block_by_name literal_eval d ref_call ref_type = Ok blk.
Proof.
  intros P D F A E. unfold _get_block_by_name. rewrite P. cbn [bind].
  change (getitem (function_meta name call_args kwargs) "func_name") with (Ok (VStr name)).
  change (getitem (function_meta name call_args kwargs) "args") with (Ok (VList call_args)).
  cbn [bind]. rewrite D. cbn [bind]. rewrite F. cbn [bind]. rewrite A.
  cbn [bind py_len py_iter]. rewrite (Forall2_length E), Nat.eqb_refl. cbn [negb].
  now rewrite (build_args_mapping_identity _ _ E).
Qed.

(** X9.  Registering an api Definition and looking its name up afterwards
    returns the registered body, with [def] removed and the parsed
    [function_meta] added; the entries of every other name, the suite table
    and the cache are left as they were. *)
Theorem registered_api_resolves p key body api_def name args kwargs st :
  py_eq key (VStr "api") = true ->
  dict_get body (VStr "def") = Some api_def ->
  parse_function literal_eval api_def = Ok (function_meta name args kwargs) ->
  exists st',
    register_api literal_eval p (VDict [(key, VDict body)]) st = (Ok tt, st') /\
    _get_test_definition (overall_def_dict st') (VStr name) "api" =
      Ok (VDict (dict_set (dict_remove body (VStr "def")) (VStr "function_meta")
                          (function_meta name args kwargs))) /\
    (forall other, other <> name ->
       dict_get (api (overall_def_dict st')) (VStr other) =
       dict_get (api (overall_def_dict st)) (VStr other)) /\
    suite (overall_def_dict st') = suite (overall_def_dict st) /\
    testcases_cache_mapping st' = testcases_cache_mapping st.
Proof.
  intros K D P. unfold register_api. cbn [single_item]. rewrite K.
  unfold dict_mem at 1. rewrite D. cbn [negb orb]. unfold dict_pop. rewrite D.
  unfold lbind, llift. rewrite P.
  change (getitem (function_meta name args kwargs) "func_name") with (Ok (VStr name)).
  cbn beta iota. unfold get_store.
  assert (T : forall d k v, truthy (VDict (dict_set d k v)) = true).
  { intros [|[k' v'] d'] k v; simpl; [reflexivity|]. now destruct (py_eq k' k). }
  destruct (dict_mem (api (overall_def_dict st)) (VStr name));
    eexists; (split; [reflexivity|]);
    cbn [snd fst overall_def_dict api suite testcases_cache_mapping emit put_store lret];
    (split; [unfold _get_test_definition;
             change (store_get ?x "api") with (api x);
             cbn [api]; rewrite dict_get_set, String.eqb_refl, T; reflexivity|]);
    (split; [|split; reflexivity]);
    intros other N; rewrite dict_get_set;
    (destruct (name =? other) eqn:E; [apply String.eqb_eq in E; congruence | reflexivity]).
Qed.

End Resolution.

(** X8.  A merge that succeeds returns a mapping in which every field other
    than the three list fields holds the Definition's value when the
    Definition has the field and the case's value otherwise, and in which
    the three list fields are always present, each holding what its ladder
    yields from the two sides ([None] stands for an absent side). *)
Theorem override_block_fields (d c : dict) (merged : value) :
  distinct_keys d = true ->
  _override_block (VDict d) (VDict c) = Ok merged ->
  exists md,
    merged = VDict md /\
    (forall k, k <> "pre_command" -> k <> "post_command" -> k <> "verify" ->
       dict_get md (VStr k) =
       match dict_get d (VStr k) with
       | Some v => Some v
       | None => dict_get c (VStr k)
       end) /\
    (forall k, k = "pre_command" \/ k = "post_command" \/ k = "verify" ->
       exists x, dict_get md (VStr k) = Some x /\
                 merge_field (field d k) (field c k) = Ok x).
Proof.
  intros D H. unfold _override_block in H.
  assert (G : forall x k, get_method (VDict x) k VNone = Ok (field x k)).
  { intros x k. unfold get_method, field. now destruct (dict_get x (VStr k)). }
  rewrite !G in H. cbn [bind] in H.
  destruct (merge_field (field d "pre_command") (field c "pre_command"))
    as [pre|] eqn:E1; [|discriminate].
  destruct (merge_field (field d "post_command") (field c "post_command"))
    as [post|] eqn:E2; [|discriminate].
  destruct (merge_field (field d "verify") (field c "verify"))
    as [verify|] eqn:E3; [|discriminate].
  cbn [bind] in H. injection H as <-. eexists. split; [reflexivity|]. split.
  - intros k N1 N2 N3. rewrite !dict_get_set.
    apply String.eqb_neq in N1, N2, N3.
    rewrite (String.eqb_sym "verify"), N3, (String.eqb_sym "post_command"), N2,
            (String.eqb_sym "pre_command"), N1.
    now apply dict_get_update.
  - intros k [-> | [-> | ->]]; rewrite !dict_get_set; simpl; eauto.
Qed.

Lemma identity_call_returns_definition_witness :
  _get_block_by_name literal_eval_sample (overall_def_dict (snd loaded))
    (VStr "login(username, password)") "api"
  = _get_test_definition (overall_def_dict (snd loaded)) (VStr "login") "api".
Proof.
  refine (identity_call_returns_definition literal_eval_sample
            (overall_def_dict (snd loaded)) (VStr "login(username, password)") "api"
            "login" [VStr "username"; VStr "password"] [] _ _
            [VStr "username"; VStr "password"] eq_refl eq_refl eq_refl eq_refl _).
  repeat constructor.
Defined.

Lemma registered_api_resolves_witness :
  exists st',
    register_api literal_eval_sample "apis.yaml"
      (block "api" [("def", VStr "ping(host)"); ("steps", VList [VStr "call host"])])
      initial = (Ok tt, st') /\
    _get_test_definition (overall_def_dict st') (VStr "ping") "api" =
      Ok (str_dict [("steps", VList [VStr "call host"]);
                    ("function_meta", function_meta "ping" [VStr "host"] [])]) /\
    (forall other, other <> "ping" ->
       dict_get (api (overall_def_dict st')) (VStr other) =
       dict_get (api (overall_def_dict initial)) (VStr other)) /\
    suite (overall_def_dict st') = suite (overall_def_dict initial) /\
    testcases_cache_mapping st' = testcases_cache_mapping initial.
Proof.
  exact (registered_api_resolves literal_eval_sample "apis.yaml" (VStr "api")
           [(VStr "def", VStr "ping(host)"); (VStr "steps", VList [VStr "call host"])]
           (VStr "ping(host)") "ping" [VStr "host"] [] initial
           eq_refl eq_refl eq_refl).
Defined.

Lemma override_block_fields_witness :
  exists md,
    str_dict [("name", VStr "c1"); ("steps", VInt 2);
              ("pre_command", VList [VStr "Y"]);
              ("post_command", VNone); ("verify", VNone)]
    = VDict md /\
    (forall k, k <> "pre_command" -> k <> "post_command" -> k <> "verify" ->
       dict_get md (VStr k) =
       match dict_get [(VStr "pre_command", VList [VStr "Y"]); (VStr "steps", VInt 2)]
                      (VStr k) with
       | Some v => Some v
       | None => dict_get [(VStr "name", VStr "c1"); (VStr "steps", VInt 1)] (VStr k)
       end) /\
    (forall k, k = "pre_command" \/ k = "post_command" \/ k = "verify" ->
       exists x, dict_get md (VStr k) = Some x /\
                 merge_field
                   (field [(VStr "pre_command", VList [VStr "Y"]); (VStr "steps", VInt 2)] k)
                   (field [(VStr "name", VStr "c1"); (VStr "steps", VInt 1)] k) = Ok x).
Proof.
  apply (override_block_fields
           [(VStr "pre_command", VList [VStr "Y"]); (VStr "steps", VInt 2)]
           [(VStr "name", VStr "c1"); (VStr "steps", VInt 1)]);
    reflexivity.
Defined.

End DefinitionFacts.

(* ================================================================== *)
(** * Case blocks: the id check and the plain case *)

Module CaseFacts.
Import Text Regex Py Scanner Substitution Loader Spec Props Samples TextFacts RegexFacts.

Lemma at_end_cases tail :
  at_end tail = true -> tail = EmptyString \/ tail = String "010" EmptyString.
Proof.
  destruct tail as [|c [|d t]]; simpl; intros H; try discriminate; auto.
  apply Ascii.eqb_eq in H. subst. auto.
Qed.

Lemma drop_final_newline_split id :
  exists tail, id = drop_final_newline id ++ tail /\ at_end tail = true.
Proof.
  induction id as [|c s (tail & E & A)].
  - exists EmptyString. auto.
  - destruct s as [|d s].
    + simpl. destruct (Ascii.eqb c "010") eqn:C.
      * apply Ascii.eqb_eq in C. subst. exists (String "010" EmptyString). auto.
      * exists EmptyString. auto.
    + exists tail. split; [|assumption].
      change (drop_final_newline (String c (String d s)))
        with (String c (drop_final_newline (String d s))).
      cbn [append]. f_equal. exact E.
Qed.

Lemma drop_final_newline_keep body :
  all_chars is_id_char body = true -> drop_final_newline body = body.
Proof.
  induction body as [|c s IH]; [reflexivity|]. intros A.
  simpl in A. apply andb_prop in A. destruct A as [Pc A].
  destruct s as [|d s].
  - simpl. destruct (Ascii.eqb c "010") eqn:C; [|reflexivity].
    apply Ascii.eqb_eq in C. subst. discriminate.
  - change (drop_final_newline (String c (String d s)))
      with (String c (drop_final_newline (String d s))).
    now rewrite (IH A).
Qed.

Lemma drop_final_newline_added body :
  drop_final_newline (body ++ String "010" EmptyString) = body.
Proof.
  induction body as [|c s IH]; [reflexivity|].
  destruct s as [|d s]; [reflexivity|].
  change (drop_final_newline (String c (String d s) ++ String "010" EmptyString))
    with (String c (drop_final_newline (String d s ++ String "010" EmptyString))).
  now rewrite IH.
Qed.

(** [word_p] accepts exactly the valid case ids. *)
Lemma word_p_accepts id :
  match_items word_p id <> None <-> valid_case_id id = true.
Proof.
  unfold valid_case_id. split.
  - intros H. destruct (match_items word_p id) as [[cs rest]|] eqn:M; [|congruence].
    apply match_items_sound in M. unfold word_p in M.
    inversion M as [| | |p g r c run s1 cs1 rest1 Pc Ar M1|]; subst.
    inversion M1 as [| | | |r s2 cs2 rest2 Ae M2]; subst.
    assert (B : all_chars is_id_char (String c run) = true)
      by (cbn [all_chars]; apply andb_true_intro; split; [exact Pc | exact Ar]).
    replace (drop_final_newline (String c (run ++ s1))) with (String c run).
    + now rewrite B.
    + change (String c (run ++ s1)) with (String c run ++ s1).
      destruct (at_end_cases _ Ae) as [-> | ->].
      * rewrite append_nil_r. symmetry. now apply drop_final_newline_keep.
      * symmetry. apply drop_final_newline_added.
  - intros H. apply andb_prop in H. destruct H as [N A].
    destruct (drop_final_newline_split id) as (tail & E & Ae).
    destruct (drop_final_newline id) as [|c run]; [discriminate|].
    simpl in A. apply andb_prop in A. destruct A as [Pc A].
    intros M. eapply match_items_complete; [exact M|].
    rewrite E. simpl. unfold word_p.
    apply matches_plus; [exact Pc | exact A |].
    apply matches_end; [exact Ae | apply matches_nil].
Qed.

Section Assembler.

Variable literal_eval : string -> result value.
Variable w : world.

(** X10.  A case block without an id, or whose id is a text that is not one
    or more word characters or dashes (a single final newline apart), is
    rejected with the model-format error; nothing is appended and the state
    is left as it was. *)
Theorem invalid_case_id_rejected (test_block : dict) (testset : value) (st : state) :
  (dict_get test_block (VStr "id") = None \/
   exists id, dict_get test_block (VStr "id") = Some (VStr id) /\
              valid_case_id id = false) ->
  exists msg,
    load_case literal_eval w test_block testset st = (Raise (ModelFormatError msg), st).
Proof.
  intros [H | (id & H & V)]; unfold load_case, dict_pop; rewrite H.
  - destruct (dict_get test_block (VStr "desc")); eexists; reflexivity.
  - destruct (dict_get (dict_remove test_block (VStr "id")) (VStr "desc"));
      (destruct (truthy (VStr id)); cbn [negb]; [|eexists; reflexivity]);
      (destruct (match_items word_p id) eqn:M;
       [ exfalso; assert (X : match_items word_p id <> None) by congruence;
         apply word_p_accepts in X; congruence
       | eexists; reflexivity ]).
Qed.

(** X11.  A case block with a valid id and neither an api nor a suite
    reference is appended as it is, less its [id] and [desc] and with the
    display name built from them; the state is left as it was. *)
Theorem plain_case_appended (test_block : dict) (testset : value) (st : state)
        (id : string) (cases : list value) (ts : dict) :
  dict_get test_block (VStr "id") = Some (VStr id) ->
  valid_case_id id = true ->
  dict_get test_block (VStr "api") = None ->
  dict_get test_block (VStr "suite") = None ->
  testset = VDict ts ->
  dict_get ts (VStr "cases") = Some (VList cases) ->
  load_case literal_eval w test_block testset st =
  (Ok (VDict
         (dict_set ts (VStr "cases")
            (VList
               (cases ++
                [VDict
                   (dict_set
                      (dict_remove (dict_remove test_block (VStr "id")) (VStr "desc"))
                      (VStr "name")
                      (VStr (get_legal_filename w
                               (id ++ "[" ++
                                py_str (match dict_get (dict_remove test_block (VStr "id"))
                                                       (VStr "desc") with
                                        | Some desc => desc
                                        | None => VStr EmptyString
                                        end) ++ "]"))))])))),
   st).
Proof.
  intros H V A S -> C.
  assert (Nid : id <> EmptyString) by (intros ->; discriminate).
  assert (G : forall d k1 k2,
             (k1 =? k2) = false -> dict_get d (VStr k2) = None ->
             dict_get (dict_remove d (VStr k1)) (VStr k2) = None).
  { induction d as [|[k x] d IHd]; intros k1 k2 N D; simpl in *; [reflexivity|].
    destruct (py_eq k (VStr k2)) eqn:E2; [discriminate|].
    destruct (py_eq k (VStr k1)); simpl; [assumption|]. rewrite E2. now apply IHd. }
  assert (Pop : forall d k default,
             dict_pop d (VStr k) default =
             (match dict_get d (VStr k) with Some v => v | None => default end,
              dict_remove d (VStr k))).
  { intros d k default. unfold dict_pop.
    destruct (dict_get d (VStr k)) eqn:E; [reflexivity|]. f_equal.
    induction d as [|[k' x] d IHd]; [reflexivity|]. simpl in *.
    destruct (py_eq k' (VStr k)); [discriminate|]. now rewrite <- IHd. }
  unfold load_case. rewrite !Pop, H.
  assert (T : truthy (VStr id) = true).
  { simpl. destruct id; [congruence | reflexivity]. }
  rewrite T. cbn [negb].
  destruct (match_items word_p id) eqn:M;
    [|exfalso; apply word_p_accepts in V; congruence].
  unfold lbind, get_store, llift. cbn beta iota.
  rewrite !LoaderFacts.dict_get_set. cbn [String.eqb Ascii.eqb Bool.eqb].
  rewrite !G by first [reflexivity | assumption | apply G; [reflexivity | assumption]].
  unfold append_cases. cbn [getitem bind]. rewrite C. reflexivity.
Qed.

End Assembler.

Lemma invalid_case_id_rejected_witness :
  exists msg,
    load_case literal_eval_sample tree
      [(VStr "id", VStr "abc def"); (VStr "steps", VList [])]
      (empty_testset "/cases/x.yaml") initial
    = (Raise (ModelFormatError msg), initial).
Proof.
  apply (invalid_case_id_rejected literal_eval_sample tree).
  right. exists "abc def". split; reflexivity.
Defined.

Lemma plain_case_appended_witness :
  load_case literal_eval_sample tree
    [(VStr "id", VStr "abc-def_1"); (VStr "desc", VStr "first"); (VStr "steps", VInt 1)]
    (empty_testset "/cases/x.yaml") initial
  = (Ok (str_dict [("file_path", VStr "/cases/x.yaml"); ("project", VDict []);
                   ("cases", VList [str_dict [("steps", VInt 1);
                                              ("name", VStr "abc-def_1[first]")]])]),
     initial).
Proof.
  exact (plain_case_appended literal_eval_sample tree
           [(VStr "id", VStr "abc-def_1"); (VStr "desc", VStr "first"); (VStr "steps", VInt 1)]
           (empty_testset "/cases/x.yaml") initial "abc-def_1" []
           [(VStr "file_path", VStr "/cases/x.yaml"); (VStr "project", VDict []);
            (VStr "cases", VList [])]
           eq_refl eq_refl eq_refl eq_refl eq_refl eq_refl).
Defined.

End CaseFacts.

(* ================================================================== *)
(** * Documents and folders *)

Module DocumentFacts.
Import Text Regex Py Path Loader Spec Props Samples TextFacts.

Lemma rev_string_append a b : rev_string (a ++ b) = rev_string b ++ rev_string a.
Proof.
  induction a as [|c a IH]; simpl.
  - now rewrite append_nil_r.
  - now rewrite IH, append_assoc.
Qed.

Lemma prefix_append p : forall a b, prefix p a = true -> prefix p (a ++ b) = true.
Proof.
  induction p as [|c p IH]; intros a b H.
  - now destruct (a ++ b).
  - destruct a as [|d a]; [discriminate|]. simpl in *.
    destruct (ascii_dec c d); [now apply IH | discriminate].
Qed.

Lemma endswith_append x f ext : endswith f ext = true -> endswith (x ++ f) ext = true.
Proof.
  unfold endswith. intros H. rewrite rev_string_append. now apply prefix_append.
Qed.

Lemma case_file_name_append x f : case_file_name f = true -> case_file_name (x ++ f) = true.
Proof.
  unfold case_file_name. intros H.
  apply orb_true_iff in H. destruct H as [H | H].
  - apply orb_true_iff in H. destruct H as [H | H];
      rewrite (endswith_append x _ _ H); [reflexivity | now rewrite orb_true_r].
  - rewrite (endswith_append x _ _ H). now rewrite !orb_true_r.
Qed.

Lemma case_file_name_join dirpath f :
  case_file_name f = true -> case_file_name (join dirpath f) = true.
Proof.
  intros H. unfold join. destruct (head_is is_slash f); [assumption|].
  destruct ((dirpath =? EmptyString) || endswith dirpath "/").
  - now apply case_file_name_append.
  - apply case_file_name_append. now apply (case_file_name_append "/").
Qed.

Lemma walk_files_recognized triples recursive f :
  In f (walk_files triples recursive) -> case_file_name f = true.
Proof.
  induction triples as [|[[dirpath dirnames] filenames] rest IH]; simpl; [intros []|].
  assert (Here : In f (map (join dirpath) (filter case_file_name filenames)) ->
                 case_file_name f = true).
  { intros I. apply in_map_iff in I. destruct I as (x & <- & I).
    apply filter_In in I. destruct I as [_ Hx]. now apply case_file_name_join. }
  destruct recursive; [|exact Here].
  intros I. apply in_app_or in I. destruct I; auto.
Qed.

Lemma walk_files_top_first triples :
  exists more, walk_files triples true = (walk_files triples false ++ more)%list.
Proof.
  destruct triples as [|[[dirpath dirnames] filenames] rest]; simpl.
  - now exists [].
  - now exists (walk_files rest true).
Qed.

(** X12.  [Yaml.load_folder_files] lists only paths that end in [.yml],
    [.yaml] or [.json], and the recursive listing of a folder opens with its
    non-recursive listing (the files of the top level). *)
Theorem folder_files_recognized (w : world) (folder_path : string) :
  (forall recursive f,
     In f (load_folder_files w folder_path recursive) -> case_file_name f = true) /\
  (exists more,
     load_folder_files w folder_path true =
     (load_folder_files w folder_path false ++ more)%list).
Proof.
  unfold load_folder_files. destruct (path_exists w folder_path); simpl.
  - split; [intros r f; apply walk_files_recognized | apply walk_files_top_first].
  - split; [intros r f [] | now exists []].
Qed.

Ltac crack H :=
  repeat (unfold lbind, llift, lraise, lret, emit in H; cbn beta iota in H;
          match type of H with
          | (let (_, _) := ?x in _) = _ => destruct x eqn:?
          | match ?x with _ => _ end = _ => destruct x eqn:?
          | match ?x with _ => _ end _ = _ => destruct x eqn:?
          | (if ?x then _ else _) = _ => destruct x eqn:?
          | (if ?x then _ else _) _ = _ => destruct x eqn:?
          end);
  try discriminate.

Lemma check_format_ok file_path content st u st' :
  _check_format file_path content st = (Ok u, st') ->
  truthy content = true /\ (is_list content || is_dict content) = true /\ st' = st.
Proof.
  unfold _check_format. destruct (truthy content); cbn [negb]; [|discriminate].
  destruct (is_list content || is_dict content); cbn [negb]; [|discriminate].
  intros H. injection H as _ <-. auto.
Qed.

(** X13.  A document that [Yaml.load_file] returns comes from an existing
    file and is either a non-empty list or mapping, decoded without any
    change of state, or the empty list that stands for a file of another
    type, with the warning logged. *)
Theorem decoded_document_shape (w : world) (file_path : string) (st st' : state)
        (doc : value) :
  yaml_load_file w file_path st = (Ok doc, st') ->
  isfile w file_path = true /\
  ((truthy doc = true /\ (is_list doc || is_dict doc) = true /\ st' = st) \/
   (doc = VList [] /\
    st' = snd (emit (LogWarning ("Unsupported file format: " ++ file_path)) st))).
Proof.
  intros H. unfold yaml_load_file in H.
  destruct (isfile w file_path); cbn [negb] in H; [|discriminate].
  split; [reflexivity|].
  unfold _load_json_file, _load_yaml_file in H.
  crack H; injection H as <- <-;
    try match goal with
        | E : _check_format _ _ _ = (Ok _, _) |- _ =>
            apply check_format_ok in E; destruct E as (? & ? & ->)
        end;
    auto.
Qed.

Lemma decoded_document_shape_witness :
  isfile tree "/cases/login.yaml" = true /\
  ((truthy login_cases = true /\ (is_list login_cases || is_dict login_cases) = true /\
    initial = initial) \/
   (login_cases = VList [] /\
    initial = snd (emit (LogWarning ("Unsupported file format: " ++ "/cases/login.yaml"))
                        initial))).
Proof.
  exact (decoded_document_shape tree "/cases/login.yaml" initial initial login_cases eq_refl).
Defined.

End DocumentFacts.

(* ================================================================== *)
(** * What loading leaves alone *)

Module FrameFacts.
Import Text Regex Py Scanner Substitution Path Loader Spec Props Samples CacheFacts.

Lemma ks_ret {A} (a : A) : keeps_store (lret a).
Proof. intros st. reflexivity. Qed.

Lemma ks_raise {A} e : keeps_store (@lraise A e).
Proof. intros st. reflexivity. Qed.

Lemma ks_lift {A} (r : result A) : keeps_store (llift r).
Proof. intros st. reflexivity. Qed.

Lemma ks_emit e : keeps_store (emit e).
Proof. intros st. reflexivity. Qed.

Lemma ks_get_store : keeps_store get_store.
Proof. intros st. reflexivity. Qed.

Lemma ks_bind {A B} (m : L A) (f : A -> L B) :
  keeps_store m -> (forall a, keeps_store (f a)) -> keeps_store (lbind m f).
Proof.
  intros Hm Hf st. unfold lbind. specialize (Hm st).
  destruct (m st) as [[a|e] st1]; simpl in *; [|assumption].
  now rewrite Hf.
Qed.

Create HintDb store.
#[local] Hint Resolve ks_ret ks_raise ks_lift ks_emit ks_get_store : store.
#[local] Hint Resolve kc_ret kc_raise kc_lift kc_emit kc_get_store kc_put_store : cache.

Ltac ks :=
  repeat first
    [ apply ks_bind; [|intros]
    | solve [auto with store]
    | match goal with
      | |- keeps_store (match ?x with _ => _ end) => destruct x
      | |- keeps_store (if ?x then _ else _) => destruct x
      | |- keeps_store (let (_, _) := ?x in _) => destruct x
      end ].

Section Assembler.

Variable literal_eval : string -> result value.
Variable w : world.
Variable set_iter : list string -> list string.

Lemma ks_yaml_load_file p : keeps_store (yaml_load_file w p).
Proof.
  unfold yaml_load_file, _load_json_file, _load_yaml_file, _check_format. ks.
Qed.

Lemma ks_load_case test_block ts : keeps_store (load_case literal_eval w test_block ts).
Proof. unfold load_case. ks. Qed.

Lemma ks_load_item p item ts : keeps_store (load_item literal_eval w p item ts).
Proof. unfold load_item. ks; apply ks_load_case. Qed.

Lemma load_items_store p items : forall ts st,
  overall_def_dict (snd (load_items literal_eval w p items ts st)) = overall_def_dict st.
Proof.
  induction items as [|item items IH]; intros ts st; simpl; [reflexivity|].
  pose proof (ks_load_item p item ts st) as K.
  destruct (load_item literal_eval w p item ts st) as [[ts'|e] st']; simpl in *.
  - now rewrite IH.
  - assumption.
Qed.

Lemma ks_load_file p : keeps_store (load_file literal_eval w p).
Proof.
  unfold load_file. destruct (negb (isfile w p)); [apply ks_raise|].
  intros st. unfold load_file_body.
  assert (K : keeps_store (test_cases <<- yaml_load_file w p ;; llift (py_iter test_cases)))
    by (ks; apply ks_yaml_load_file).
  specialize (K st).
  destruct ((test_cases <<- yaml_load_file w p ;; llift (py_iter test_cases)) st)
    as [[items|e] st1]; simpl in *.
  - pose proof (load_items_store p items (empty_testset p) st1) as K'.
    destruct (load_items literal_eval w p items (empty_testset p) st1)
      as [[ts [e|]] st2]; simpl in *; congruence.
  - assumption.
Qed.

Lemma ks_load_one_file p : keeps_store (load_one_file literal_eval w p).
Proof.
  intros st. unfold load_one_file.
  assert (K : keeps_store (testset <<- load_file literal_eval w p ;;
                           cases <<- llift (getitem testset "cases") ;;
                           lret (if truthy cases then [testset] else [])))
    by (ks; apply ks_load_file).
  specialize (K st).
  match goal with
  | |- context [match ?m st with _ => _ end] => destruct (m st) as [[r|e] st1]
  end; simpl in *; [assumption|].
  destruct e; assumption.
Qed.

Lemma load_collection_store (rec : path_arg -> L (list value)) :
  (forall p, keeps_store (rec (PathStr p))) ->
  forall paths acc, keeps_store (load_collection rec paths acc).
Proof.
  intros R. induction paths as [|p paths IH]; intros acc; simpl; [apply ks_ret|].
  destruct (contains "dependencies" p); [apply IH|].
  apply ks_bind; [apply R | intros; apply IH].
Qed.

(** X14.  Assembling cases only reads the Definition store: whatever the
    path, the file system and the outcome, [load_files] leaves
    [overall_def_dict] as it found it. *)
Theorem load_files_keeps_store (fuel : nat) (path : path_arg) (st : state) :
  overall_def_dict (snd (load_files literal_eval w set_iter fuel path st)) =
  overall_def_dict st.
Proof.
  revert path st. induction fuel as [|fuel IH]; intros path st; [reflexivity|].
  destruct path as [p|l]; cbn [load_files].
  - destruct (cache_get (testcases_cache_mapping st) _); [reflexivity|].
    unfold lbind.
    match goal with
    | |- context [match ?m st with _ => _ end] =>
        assert (K : overall_def_dict (snd (m st)) = overall_def_dict st);
        [|destruct (m st) as [[r|e] st1]; simpl in *; assumption]
    end.
    destruct (isdir w _); [apply IH|].
    destruct (isfile w _); [apply ks_load_one_file|].
    reflexivity.
  - apply load_collection_store. intros p st0. apply IH.
Qed.

Lemma kc_register_api p item : keeps_cache (register_api literal_eval p item).
Proof. unfold register_api. kc. Qed.

Lemma kc_for_each {A} (f : A -> L unit) l :
  (forall x, keeps_cache (f x)) -> keeps_cache (for_each f l).
Proof.
  intros F. induction l as [|x l IH]; simpl; [apply kc_ret|].
  apply kc_bind; [apply F | intros; apply IH].
Qed.

Lemma kc_load_api_file p : keeps_cache (load_api_file literal_eval w p).
Proof.
  unfold load_api_file. apply kc_bind; [apply kc_yaml_load_file|].
  intros [| | | |items|]; try apply kc_raise.
  apply kc_for_each. intros x. apply kc_register_api.
Qed.

Lemma kc_register_suite p : keeps_cache (register_suite literal_eval w p).
Proof. unfold register_suite. kc. apply kc_load_file. Qed.

(** X15.  Loading the dependencies fills the Definition store only: whether
    it succeeds or raises, [load_dependencies] leaves the resolution cache as
    it found it. *)
Theorem load_dependencies_keeps_cache (path_or_yamlfile : string) (st : state) :
  testcases_cache_mapping (snd (load_dependencies literal_eval w path_or_yamlfile st)) =
  testcases_cache_mapping st.
Proof.
  revert st. change (keeps_cache (load_dependencies literal_eval w path_or_yamlfile)).
  unfold load_dependencies. apply kc_bind.
  - apply kc_for_each. intros x. apply kc_load_api_file.
  - intros _. apply kc_for_each. intros x. apply kc_register_suite.
Qed.

End Assembler.

End FrameFacts.

(* ================================================================== *)
(** * Loading batches of case files *)

Module BatchFacts.
Import Text Regex Py Scanner Substitution Path Loader Spec Props Samples
       LoaderFacts CacheFacts.

Lemma cache_ok_get c k v :
  cache_ok c -> cache_get c k = Some v -> forallb has_cases v = true.
Proof.
  unfold cache_ok. induction c as [|[a x] c IH]; simpl; intros F H; [discriminate|].
  inversion F as [|? ? Hx Hc]; subst. destruct (a =? k).
  - injection H as <-. exact Hx.
  - now apply IH.
Qed.

Lemma cache_ok_set c k v :
  cache_ok c -> forallb has_cases v = true -> cache_ok (cache_set c k v).
Proof.
  unfold cache_ok. induction c as [|[a x] c IH]; simpl; intros F H.
  - repeat constructor. exact H.
  - inversion F as [|? ? Hx Hc]; subst.
    destruct (a =? k); constructor; simpl; auto.
Qed.

Section Assembler.

Variable literal_eval : string -> result value.
Variable w : world.
Variable set_iter : list string -> list string.

Lemma load_file_on_file p st :
  isfile w p = true ->
  exists ts st1 cases,
    load_file literal_eval w p st = (Ok ts, st1) /\
    getitem ts "cases" = Ok (VList cases).
Proof.
  intros F. unfold load_file. rewrite F. cbn [negb].
  pose proof (load_file_body_testset literal_eval w p st) as (_ & _ & [cases C]).
  destruct (load_file_body literal_eval w p st) as [[ts [e|]] st1]; simpl in C;
    eexists _, _, cases; (split; [reflexivity | exact C]).
Qed.

(** One case file: never an exception, at most one TestSet, and only a
    TestSet with cases. *)
Lemma load_one_file_outcome p st :
  isfile w p = true ->
  exists r st',
    load_one_file literal_eval w p st = (Ok r, st') /\ forallb has_cases r = true.
Proof.
  intros F. destruct (load_file_on_file p st F) as (ts & st1 & cases & E & C).
  unfold load_one_file, lbind, llift, lret. rewrite E, C.
  eexists _, _. split; [reflexivity|].
  destruct (truthy (VList cases)) eqn:T; [|reflexivity].
  simpl. unfold has_cases. now rewrite C, T.
Qed.

Lemma load_collection_outcome (rec : path_arg -> L (list value))
      (good : string -> Prop) (inv : state -> Prop) :
  (forall p st, good p -> inv st ->
     exists r st', rec (PathStr p) st = (Ok r, st') /\
                   forallb has_cases r = true /\ inv st') ->
  forall paths acc st,
    Forall good paths -> inv st -> forallb has_cases acc = true ->
    exists r st', load_collection rec paths acc st = (Ok r, st') /\
                  forallb has_cases r = true /\ inv st'.
Proof.
  intros R. induction paths as [|p paths IH]; intros acc st G I A; simpl.
  - exists acc, st. auto.
  - inversion G as [|? ? Gp Gs]; subst.
    destruct (contains "dependencies" p); [now apply IH|].
    unfold lbind. destruct (R p st Gp I) as (r & st1 & -> & Hr & I1).
    apply IH; try assumption. rewrite forallb_app. now rewrite A, Hr.
Qed.

(** a single path that is no folder: one level is enough *)
Lemma load_files_single fuel p st :
  isdir w (absolute_path w p) = false ->
  cache_ok (testcases_cache_mapping st) ->
  exists r st',
    load_files literal_eval w set_iter (S fuel) (PathStr p) st = (Ok r, st') /\
    forallb has_cases r = true /\ cache_ok (testcases_cache_mapping st').
Proof.
  intros D C. cbn [load_files]. fold (absolute_path w p). rewrite D.
  destruct (cache_get (testcases_cache_mapping st) (absolute_path w p)) as [v|] eqn:G.
  - exists v, st. split; [reflexivity|]. split; [|assumption].
    eapply cache_ok_get; eassumption.
  - unfold lbind. destruct (isfile w (absolute_path w p)) eqn:F.
    + destruct (load_one_file_outcome (absolute_path w p) st F) as (r & st1 & E & Hr).
      pose proof (kc_load_one_file literal_eval w (absolute_path w p) st) as K.
      rewrite E in *. simpl in K.
      eexists _, _. split; [reflexivity|]. split; [assumption|]. simpl.
      apply cache_ok_set; [now rewrite K | assumption].
    + unfold emit, lret. cbn beta iota.
      eexists _, _. split; [reflexivity|]. split; [reflexivity|]. simpl.
      now apply cache_ok_set.
Qed.

(** X16.  In a file system whose folders list no folder among their files,
    and from a cache holding only TestSets with cases, [load_files] on any
    single path never raises: a malformed or missing file counts for
    nothing, every TestSet returned has at least one case, and the cache
    keeps holding only such TestSets. *)
Theorem load_files_never_raises (n : nat) (p : string) (st : state) :
  (forall top, Forall (fun f => isdir w (absolute_path w f) = false)
                      (set_iter (load_folder_files w top true))) ->
  cache_ok (testcases_cache_mapping st) ->
  exists testsets st',
    load_files literal_eval w set_iter (3 + n) (PathStr p) st = (Ok testsets, st') /\
    forallb has_cases testsets = true /\
    cache_ok (testcases_cache_mapping st').
Proof.
  intros H C. rewrite (load_files_fuel literal_eval w set_iter n p st H).
  destruct (isdir w (absolute_path w p)) eqn:D; [|now apply load_files_single].
  cbn [load_files]. fold (absolute_path w p). rewrite D.
  destruct (cache_get (testcases_cache_mapping st) (absolute_path w p)) as [v|] eqn:G.
  - exists v, st. split; [reflexivity|]. split; [|assumption].
    eapply cache_ok_get; eassumption.
  - unfold lbind.
    match goal with
    | |- context [load_collection ?rec ?paths [] st] =>
        destruct (load_collection_outcome rec
                    (fun f => isdir w (absolute_path w f) = false)
                    (fun s => cache_ok (testcases_cache_mapping s))
                    (fun f s Gf Is => load_files_single 0 f s Gf Is)
                    paths [] st (H _) C eq_refl) as (r & st1 & E & Hr & C1)
    end.
    rewrite E. eexists _, _. split; [reflexivity|]. split; [assumption|]. simpl.
    now apply cache_ok_set.
Qed.

(** X17.  A path that is neither cached, nor a folder, nor a file yields the
    empty list with the error logged, and the empty list is memoized under
    the key of the path (the path itself when absolute, else the working
    directory joined with it, as text and without normalisation): every
    later call with a path of the same key returns it again, even in a file
    system where the file has appeared. *)
Theorem missing_path_stays_empty (fuel : nat) (p : string) (st : state) :
  cache_get (testcases_cache_mapping st) (absolute_path w p) = None ->
  isdir w (absolute_path w p) = false ->
  isfile w (absolute_path w p) = false ->
  fst (load_files literal_eval w set_iter (S fuel) (PathStr p) st) = Ok [] /\
  logs (snd (load_files literal_eval w set_iter (S fuel) (PathStr p) st)) =
    (logs st ++ [LogError ("file not found: " ++ absolute_path w p)])%list /\
  (forall w2 set_iter2 fuel2 p2,
     absolute_path w2 p2 = absolute_path w p ->
     load_files literal_eval w2 set_iter2 (S fuel2) (PathStr p2)
       (snd (load_files literal_eval w set_iter (S fuel) (PathStr p) st)) =
     (Ok [], snd (load_files literal_eval w set_iter (S fuel) (PathStr p) st))).
Proof.
  intros G D F. cbn [load_files]. fold (absolute_path w p). rewrite G, D, F.
  unfold lbind, emit, lret. cbn beta iota. cbn [fst snd logs].
  split; [reflexivity|]. split; [reflexivity|].
  intros w2 set_iter2 fuel2 p2 A. fold (absolute_path w2 p2). rewrite A.
  cbn [testcases_cache_mapping]. rewrite cache_get_set, String.eqb_refl. reflexivity.
Qed.

(** X18.  A case file whose document cannot be loaded (the decoder raises,
    or the format check fails) aborts nothing: [load_files] returns the empty
    list for it, logs the exception and memoizes the empty list. *)
Theorem malformed_file_counts_for_nothing (fuel : nat) (p : string) (st st1 : state)
        (e : exn) :
  cache_get (testcases_cache_mapping st) (absolute_path w p) = None ->
  isdir w (absolute_path w p) = false ->
  isfile w (absolute_path w p) = true ->
  yaml_load_file w (absolute_path w p) st = (Raise e, st1) ->
  load_files literal_eval w set_iter (S fuel) (PathStr p) st =
  (Ok [],
   {| overall_def_dict := overall_def_dict st1;
      testcases_cache_mapping :=
        cache_set (testcases_cache_mapping st1) (absolute_path w p) [];
      logs := (logs st1 ++ [LogException e])%list |}).
Proof.
  intros G D F Y. cbn [load_files]. fold (absolute_path w p). rewrite G, D, F.
  unfold lbind at 1. unfold load_one_file, lbind at 1, load_file. rewrite F. cbn [negb].
  unfold load_file_body, lbind at 1. rewrite Y. reflexivity.
Qed.

End Assembler.

Lemma tree_lists_no_folder top :
  Forall (fun f => isdir tree (absolute_path tree f) = false)
         (first_occurrences (load_folder_files tree top true)).
Proof.
  unfold load_folder_files. destruct (negb (path_exists tree top)); [constructor|].
  change (walk tree top) with (sample_walk top). unfold sample_walk.
  destruct (top =? "/cases/dependencies/api") eqn:E1;
    [apply String.eqb_eq in E1; subst; vm_compute; repeat constructor|].
  destruct (top =? "/cases/dependencies/suite") eqn:E2;
    [apply String.eqb_eq in E2; subst; vm_compute; repeat constructor|].
  destruct (top =? "/cases") eqn:E3;
    [apply String.eqb_eq in E3; subst; vm_compute; repeat constructor|].
  constructor.
Qed.

Lemma load_files_never_raises_witness :
  exists testsets st',
    load_files literal_eval_sample tree first_occurrences 3 (PathStr "/cases") (snd loaded)
    = (Ok testsets, st') /\
    forallb has_cases testsets = true /\
    cache_ok (testcases_cache_mapping st').
Proof.
  apply (load_files_never_raises literal_eval_sample tree first_occurrences 0 "/cases"
           (snd loaded) tree_lists_no_folder).
  constructor.
Defined.

Lemma missing_path_stays_empty_witness :
  fst (load_files literal_eval_sample tree first_occurrences 1 (PathStr "ghost.yaml")
         initial) = Ok [] /\
  logs (snd (load_files literal_eval_sample tree first_occurrences 1
               (PathStr "ghost.yaml") initial)) =
    (logs initial ++ [LogError ("file not found: " ++ absolute_path tree "ghost.yaml")])%list /\
  (forall w2 set_iter2 fuel2 p2,
     absolute_path w2 p2 = absolute_path tree "ghost.yaml" ->
     load_files literal_eval_sample w2 set_iter2 (S fuel2) (PathStr p2)
       (snd (load_files literal_eval_sample tree first_occurrences 1
               (PathStr "ghost.yaml") initial)) =
     (Ok [], snd (load_files literal_eval_sample tree first_occurrences 1
                    (PathStr "ghost.yaml") initial))).
Proof.
  exact (missing_path_stays_empty literal_eval_sample tree first_occurrences 0
           "ghost.yaml" initial eq_refl eq_refl eq_refl).
Defined.

Lemma malformed_file_counts_for_nothing_witness :
  load_files literal_eval_sample garbled first_occurrences 1 (PathStr "bad.yaml") initial =
  (Ok [],
   {| overall_def_dict := overall_def_dict initial;
      testcases_cache_mapping := [("/cases/bad.yaml", [])];
      logs := [LogException (ExternalError "yaml")] |}).
Proof.
  exact (malformed_file_counts_for_nothing literal_eval_sample garbled first_occurrences
           0 "bad.yaml" initial initial (ExternalError "yaml")
           eq_refl eq_refl eq_refl eq_refl).
Defined.

End BatchFacts.

(* ================================================================== *)
(** * The TestSet check against what the loader returns *)

Module TestsetFacts.
Import Text Regex Py Scanner Substitution Path Loader Checks Spec Props Samples
       LoaderFacts DocumentFacts.

Lemma append_cases_getitem ts new ts' k :
  append_cases ts new = Ok ts' -> (k =? "cases") = false ->
  getitem ts' k = getitem ts k.
Proof.
  unfold append_cases. destruct (getitem ts "cases") as [c|]; [|discriminate].
  simpl. destruct c; try discriminate. intros S N.
  rewrite (getitem_set_key _ _ _ _ k S). now rewrite String.eqb_sym, N.
Qed.

Lemma is_testset_named p ts :
  is_testset_for p ts ->
  is_testset ts = match getitem ts "name" with Ok _ => true | Raise _ => false end.
Proof.
  intros (F & _ & [cases C]). destruct ts; try discriminate.
  unfold is_testset, dict_mem. simpl in C |- *.
  destruct (dict_get d (VStr "cases")) as [c|]; [|discriminate]. injection C as ->.
  now destruct (dict_get d (VStr "name")).
Qed.

Section Assembler.

Variable literal_eval : string -> result value.
Variable w : world.

Lemma load_case_appends test_block ts st ts' st' :
  load_case literal_eval w test_block ts st = (Ok ts', st') ->
  exists new, append_cases ts new = Ok ts'.
Proof.
  intros H. unfold load_case in H. unfold get_store in H.
  crack H; injection H as H _; eauto.
Qed.

Lemma load_item_name_absent p item ts st ts' st' :
  not_project item = true ->
  load_item literal_eval w p item ts st = (Ok ts', st') ->
  getitem ts' "name" = getitem ts "name".
Proof.
  unfold not_project, load_item.
  destruct (single_item item) as [[key [| | | | |test_block]]|]; try discriminate.
  intros N H. apply negb_true_iff in N. rewrite N in H.
  destruct (py_eq key (VStr "case")).
  - apply load_case_appends in H. destruct H as [new H].
    now apply (append_cases_getitem _ _ _ "name" H).
  - unfold lbind, emit, lret in H. now injection H as <- _.
Qed.

Lemma load_item_name_kept p item ts st ts' st' n :
  load_item literal_eval w p item ts st = (Ok ts', st') ->
  getitem ts "name" = Ok n ->
  exists n', getitem ts' "name" = Ok n'.
Proof.
  unfold load_item.
  destruct (single_item item) as [[key [| | | | |test_block]]|]; try discriminate.
  intros H G. destruct (py_eq key (VStr "project")).
  - crack H. injection H as H _.
    rewrite (getitem_set_key _ _ _ _ "name" H). simpl. eauto.
  - destruct (py_eq key (VStr "case")).
    + apply load_case_appends in H. destruct H as [new H].
      rewrite (append_cases_getitem _ _ _ "name" H eq_refl). eauto.
    + unfold lbind, emit, lret in H. injection H as <- _. eauto.
Qed.

Lemma load_items_name_absent p items : forall ts st,
  forallb not_project items = true ->
  getitem (fst (fst (load_items literal_eval w p items ts st))) "name" =
  getitem ts "name".
Proof.
  induction items as [|item items IH]; intros ts st F; simpl; [reflexivity|].
  simpl in F. apply andb_prop in F. destruct F as [Fi Fs].
  destruct (load_item literal_eval w p item ts st) as [[ts'|e] st'] eqn:E;
    [|reflexivity].
  rewrite (IH _ _ Fs). eapply load_item_name_absent; eassumption.
Qed.

Lemma load_items_name_kept p items : forall ts st n,
  getitem ts "name" = Ok n ->
  exists n', getitem (fst (fst (load_items literal_eval w p items ts st))) "name" = Ok n'.
Proof.
  induction items as [|item items IH]; intros ts st n G; simpl; [eauto|].
  destruct (load_item literal_eval w p item ts st) as [[ts'|e] st'] eqn:E; [|eauto].
  destruct (load_item_name_kept _ _ _ _ _ _ _ E G) as [n' G']. eapply IH; eassumption.
Qed.

(** X19.  A case file whose document holds no project block yields a TestSet
    without a [name], which [is_testset] rejects: the module's own check
    fails on what [load_file] returns. *)
Theorem testset_without_project_fails_check (yaml_file : string) (st st1 : state)
        (doc : value) (items : list value) :
  isfile w yaml_file = true ->
  yaml_load_file w yaml_file st = (Ok doc, st1) ->
  py_iter doc = Ok items ->
  forallb not_project items = true ->
  exists testset st',
    load_file literal_eval w yaml_file st = (Ok testset, st') /\
    is_testset testset = false.
Proof.
  intros F Y I N. unfold load_file. rewrite F. cbn [negb].
  pose proof (load_file_body_testset literal_eval w yaml_file st) as T.
  assert (G : getitem (fst (fst (load_file_body literal_eval w yaml_file st))) "name"
              = Raise KeyError).
  { unfold load_file_body, lbind, llift. rewrite Y, I.
    now rewrite load_items_name_absent. }
  apply is_testset_named in T. rewrite G in T.
  destruct (load_file_body literal_eval w yaml_file st) as [[ts [e|]] st2];
    simpl in T; eexists _, _; (split; [reflexivity | exact T]).
Qed.

(** X20.  A case file whose document opens with a project block yields a
    TestSet that [is_testset] accepts, whatever follows the project block
    and whether or not a later item raises. *)
Theorem testset_with_project_passes_check (yaml_file : string) (st st1 : state)
        (doc : value) (project : dict) (rest : list value) :
  isfile w yaml_file = true ->
  yaml_load_file w yaml_file st = (Ok doc, st1) ->
  py_iter doc = Ok (VDict [(VStr "project", VDict project)] :: rest) ->
  exists testset st',
    load_file literal_eval w yaml_file st = (Ok testset, st') /\
    is_testset testset = true.
Proof.
  intros F Y I. unfold load_file. rewrite F. cbn [negb].
  pose proof (load_file_body_testset literal_eval w yaml_file st) as T.
  assert (G : exists n,
             getitem (fst (fst (load_file_body literal_eval w yaml_file st))) "name"
             = Ok n).
  { unfold load_file_body, lbind at 1, llift. rewrite Y, I.
    cbn [load_items]. unfold load_item at 1.
    cbn [single_item py_eq String.eqb Ascii.eqb Bool.eqb].
    unfold lbind, llift. cbn [empty_testset getitem dict_get py_eq String.eqb
                               Ascii.eqb Bool.eqb set_key get_method].
    destruct (dict_get project (VStr "module")) as [m|];
      eapply load_items_name_kept; simpl; reflexivity. }
  destruct G as [n G]. apply is_testset_named in T. rewrite G in T.
  destruct (load_file_body literal_eval w yaml_file st) as [[ts [e|]] st2];
    simpl in T; eexists _, _; (split; [reflexivity | exact T]).
Qed.

End Assembler.

(** a document of two case blocks and no project block *)
Lemma testset_without_project_fails_check_witness :
  exists testset st',
    load_file literal_eval_sample
      {| isfile := fun _ => true; isdir := fun _ => false; path_exists := fun _ => true;
         walk := fun _ => []; abspath := fun p => p; getcwd := "/";
         read_file := fun p => Ok p;
         yaml_load := fun _ => Ok (VList [block "case" [("id", VStr "a")];
                                          block "case" [("id", VStr "b")]]);
         json_load := fun _ => None; get_legal_filename := fun n => n |}
      "/only_cases.yaml" initial = (Ok testset, st') /\
    is_testset testset = false.
Proof.
  eapply (testset_without_project_fails_check literal_eval_sample _ "/only_cases.yaml"
            initial initial); reflexivity.
Defined.

Lemma testset_with_project_passes_check_witness :
  exists testset st',
    load_file literal_eval_sample tree "/cases/broken.yaml" initial = (Ok testset, st') /\
    is_testset testset = true.
Proof.
  eapply (testset_with_project_passes_check literal_eval_sample tree "/cases/broken.yaml"
            initial initial); reflexivity.
Defined.

End TestsetFacts.

(* ================================================================== *)
(** * Suites: registration and expansion *)

Module SuiteFacts.
Import Text Regex Py Scanner Substitution Path Loader Spec Props Samples
       LoaderFacts DocumentFacts CaseFacts FrameFacts.

Lemma parse_function_shape literal_eval v meta :
  parse_function literal_eval v = Ok meta ->
  exists name args kwargs, meta = function_meta name args kwargs.
Proof.
  unfold parse_function. destruct v; try discriminate.
  destruct (match_items function_regexp_compile s) as [[cs tail]|]; [|discriminate].
  destruct (replace_all " " EmptyString (group 2 cs) =? EmptyString).
  - intros H. injection H as <-. eauto.
  - destruct (parse_args literal_eval _ [] []) as [r|]; [|discriminate].
    intros H. injection H as <-. eauto.
Qed.

Section Assembler.

Variable literal_eval : string -> result value.
Variable w : world.

(** X21.  A suite file that registers stores, under the name its project
    block declares, the TestSet loaded from the file with the parsed
    [function_meta] added: the name is the function name of the call text
    under [def] in the project block of the loaded TestSet, the stored value
    is that TestSet with the parsed call set under [function_meta], and the
    suite table is the former one with that one entry set.  A lookup of the
    name among the suites returns the stored value, it still carries its
    list of cases, and the api table and the cache are left as they were. *)
Theorem registered_suite_resolves (suite_file : string) (st st' : state) :
  register_suite literal_eval w suite_file st = (Ok tt, st') ->
  exists ts s1 project call_func name args kwargs stored,
    load_file literal_eval w suite_file st = (Ok ts, s1) /\
    getitem ts "project" = Ok project /\
    getitem project "def" = Ok call_func /\
    parse_function literal_eval call_func = Ok (function_meta name args kwargs) /\
    set_key ts "function_meta" (function_meta name args kwargs) = Ok stored /\
    suite (overall_def_dict st') =
      dict_set (suite (overall_def_dict st)) (VStr name) stored /\
    _get_test_definition (overall_def_dict st') (VStr name) "suite" = Ok stored /\
    getitem stored "function_meta" = Ok (function_meta name args kwargs) /\
    is_testset_for suite_file stored /\
    api (overall_def_dict st') = api (overall_def_dict st) /\
    testcases_cache_mapping st' = testcases_cache_mapping st /\
    logs st' = logs s1.
Proof.
  intros H. unfold register_suite in H. unfold lbind at 1 in H.
  destruct (load_file literal_eval w suite_file st) as [[ts|e] s1] eqn:L; [|discriminate].
  assert (F : isfile w suite_file = true).
  { unfold load_file in L. destruct (isfile w suite_file); [reflexivity | discriminate]. }
  assert (T : is_testset_for suite_file ts).
  { pose proof (load_file_body_testset literal_eval w suite_file st) as T.
    unfold load_file in L. rewrite F in L. cbn [negb] in L.
    destruct (load_file_body literal_eval w suite_file st) as [[ts0 [e|]] s0];
      simpl in T; unfold lbind, emit, lret in L; injection L as <- _; exact T. }
  pose proof (ks_load_file literal_eval w suite_file st) as Ks.
  pose proof (CacheFacts.kc_load_file literal_eval w suite_file st) as Kc.
  rewrite L in Ks, Kc. simpl in Ks, Kc.
  unfold get_store, put_store in H. crack H. injection H as <-.
  match goal with
  | P : parse_function _ _ = Ok ?m |- _ =>
      destruct (parse_function_shape _ _ _ P) as (name & args & kwargs & ->)
  end.
  match goal with
  | G : getitem (function_meta _ _ _) "func_name" = Ok ?f |- _ =>
      injection G as <-
  end.
  match goal with
  | P : getitem ts "project" = Ok ?project,
    D : getitem ?project "def" = Ok ?call_func,
    S : set_key ts "function_meta" _ = Ok ?ts2 |- _ =>
      exists ts, s1, project, call_func, name, args, kwargs, ts2; pose proof S as S'
  end.
  cbn [overall_def_dict api suite testcases_cache_mapping logs].
  repeat match goal with |- _ /\ _ => split end; try assumption; try reflexivity.
  - now rewrite Ks.
  - unfold _get_test_definition. change (store_get ?x "suite") with (suite x).
    cbn [suite]. rewrite dict_get_set, String.eqb_refl.
    destruct ts; try discriminate. injection S' as <-.
    assert (Tr : forall d k v, truthy (VDict (dict_set d k v)) = true).
    { intros [|[k' v'] d'] k v; simpl; [reflexivity|]. now destruct (py_eq k' k). }
    now rewrite Tr.
  - rewrite (getitem_set_key _ _ _ _ "function_meta" S'). reflexivity.
  - eapply testset_set_other; try eassumption; try reflexivity; discriminate.
  - now rewrite Ks.
Qed.

(** X22.  A case block with a valid id, no api reference and a suite
    reference that resolves contributes the suite's cases, in their order,
    after the cases already assembled; the referring block itself is not
    appended, and the state is left as it was. *)
Theorem suite_cases_spliced (test_block : dict) (testset : value) (st : state)
        (id : string) (ref_call blk : value) (cases suite_cases : list value) (ts : dict) :
  dict_get test_block (VStr "id") = Some (VStr id) ->
  valid_case_id id = true ->
  dict_get test_block (VStr "api") = None ->
  dict_get test_block (VStr "suite") = Some ref_call ->
  _get_block_by_name literal_eval (overall_def_dict st) ref_call "suite" = Ok blk ->
  getitem blk "cases" = Ok (VList suite_cases) ->
  testset = VDict ts ->
  dict_get ts (VStr "cases") = Some (VList cases) ->
  load_case literal_eval w test_block testset st =
  (Ok (VDict (dict_set ts (VStr "cases") (VList (cases ++ suite_cases)))), st).
Proof.
  intros H V A S B Cs -> C.
  assert (Nid : id <> EmptyString) by (intros ->; discriminate).
  assert (G : forall d k1 k2 r,
             (k1 =? k2) = false -> dict_get d (VStr k2) = r ->
             dict_get (dict_remove d (VStr k1)) (VStr k2) = r).
  { induction d as [|[k x] d IHd]; intros k1 k2 r N D; simpl in *; [assumption|].
    destruct (py_eq k (VStr k1)) eqn:E1; simpl.
    - apply py_eq_str in E1. subst k. simpl in D. rewrite N in D. assumption.
    - destruct (py_eq k (VStr k2)); [assumption|]. now apply IHd. }
  assert (Pop : forall d k default,
             dict_pop d (VStr k) default =
             (match dict_get d (VStr k) with Some v => v | None => default end,
              dict_remove d (VStr k))).
  { intros d k default. unfold dict_pop.
    destruct (dict_get d (VStr k)) eqn:E; [reflexivity|]. f_equal.
    induction d as [|[k' x] d IHd]; [reflexivity|]. simpl in *.
    destruct (py_eq k' (VStr k)); [discriminate|]. now rewrite <- IHd. }
  unfold load_case. rewrite !Pop, H.
  assert (T : truthy (VStr id) = true).
  { simpl. destruct id; [congruence | reflexivity]. }
  rewrite T. cbn [negb].
  destruct (match_items word_p id) eqn:M;
    [|exfalso; apply word_p_accepts in V; congruence].
  unfold lbind, get_store, llift. cbn beta iota.
  rewrite !dict_get_set. cbn [String.eqb Ascii.eqb Bool.eqb].
  rewrite (G _ "desc" "api" None eq_refl (G _ "id" "api" None eq_refl A)).
  rewrite (G _ "desc" "suite" _ eq_refl (G _ "id" "suite" _ eq_refl S)).
  rewrite B, Cs. cbn [py_iter]. unfold append_cases. cbn [getitem bind]. rewrite C.
  reflexivity.
Qed.

End Assembler.

Lemma registered_suite_resolves_witness :
  exists ts s1 project call_func name args kwargs stored,
    load_file literal_eval_sample tree "/cases/dependencies/suite/s1.yaml" initial =
      (Ok ts, s1) /\
    getitem ts "project" = Ok project /\
    getitem project "def" = Ok call_func /\
    parse_function literal_eval_sample call_func = Ok (function_meta name args kwargs) /\
    set_key ts "function_meta" (function_meta name args kwargs) = Ok stored /\
    suite (overall_def_dict
             (snd (register_suite literal_eval_sample tree
                     "/cases/dependencies/suite/s1.yaml" initial))) =
      dict_set (suite (overall_def_dict initial)) (VStr name) stored /\
    _get_test_definition
      (overall_def_dict
         (snd (register_suite literal_eval_sample tree
                 "/cases/dependencies/suite/s1.yaml" initial)))
      (VStr name) "suite" = Ok stored /\
    getitem stored "function_meta" = Ok (function_meta name args kwargs) /\
    is_testset_for "/cases/dependencies/suite/s1.yaml" stored /\
    api (overall_def_dict
           (snd (register_suite literal_eval_sample tree
                   "/cases/dependencies/suite/s1.yaml" initial))) =
      api (overall_def_dict initial) /\
    testcases_cache_mapping
      (snd (register_suite literal_eval_sample tree
              "/cases/dependencies/suite/s1.yaml" initial)) =
      testcases_cache_mapping initial /\
    logs (snd (register_suite literal_eval_sample tree
                 "/cases/dependencies/suite/s1.yaml" initial)) = logs s1.
Proof.
  apply (registered_suite_resolves literal_eval_sample tree
           "/cases/dependencies/suite/s1.yaml" initial).
  vm_compute. reflexivity.
Defined.

Lemma suite_cases_spliced_witness :
  load_case literal_eval_sample tree
    [(VStr "id", VStr "run-flow"); (VStr "suite", VStr "flow()")]
    (empty_testset "/cases/x.yaml") (snd loaded)
  = (Ok (str_dict [("file_path", VStr "/cases/x.yaml"); ("project", VDict []);
                   ("cases", VList [str_dict [("name", VStr "s2[]")]])]),
     snd loaded).
Proof.
  refine (suite_cases_spliced literal_eval_sample tree
            [(VStr "id", VStr "run-flow"); (VStr "suite", VStr "flow()")]
            (empty_testset "/cases/x.yaml") (snd loaded) "run-flow" (VStr "flow()")
            _ [] [str_dict [("name", VStr "s2[]")]]
            [(VStr "file_path", VStr "/cases/x.yaml"); (VStr "project", VDict []);
             (VStr "cases", VList [])]
            eq_refl eq_refl eq_refl eq_refl _ _ eq_refl eq_refl);
    vm_compute; reflexivity.
Defined.

End SuiteFacts.
